(** * LAF playback example (examples/allafplay.cpp): a shallow embedding

    The development follows the C++ source function by function:
    the container parser [LoadLAF], the chunk reader [readChunk], the track
    demultiplexer [copySamples] / [prepareTrack], the position decoder
    [convertPositions] and one iteration of the playback loop of [PlayLAF].

    Conventions.
    - C++ integers are [Z]; every place where the source computes in a
      fixed-width unsigned type and could wrap is written with [u32] / [u64].
    - Bytes are [Init.Byte.byte]; little-endian [bit_cast] is coqutil's
      [le_combine].
    - [float] values are decoded to the Standard Library's [spec_float]
      (IEEE 754 binary32: precision 24, emax 128).
    - A call either returns, aborts on an assertion, throws, or runs into
      undefined behaviour (an out-of-bounds access): type [result].
    - The free store is outside the program: the functions that allocate
      take the [allocator] that grants or refuses their requests.
    - [assert] from <cassert> disappears under NDEBUG together with its
      argument; [alassert] is never compiled out.  The functions that use
      [assert] take the build flavour as the boolean [ndebug]. *)

From Stdlib Require Import String ZArith List Lia Bool.
From Stdlib Require Import Floats.SpecFloat.
From coqutil Require Import Byte Word.LittleEndianList.
Import ListNotations.
Local Open Scope Z_scope.

(** ** Fixed-width arithmetic *)

Definition u32 (z : Z) : Z := z mod 2 ^ 32.
Definition u64 (z : Z) : Z := z mod 2 ^ 64.

(** [int{c}] for a [char c]: plain [char] is signed on the targets the
    example is built for. *)
Definition char_to_int (b : byte) : Z :=
  let v := byte.unsigned b in if v <? 128 then v else v - 256.

(** Modelled from the spec: [al::popcount] (albit.h is not among the
    sources) is the population count; here for [unsigned(in)] with [in] a
    [uint8_t], which has its bits in positions 0 to 7. *)
Definition popcount (v : Z) : Z :=
  fold_right (fun i acc => Z.b2z (Z.testbit v i) + acc) 0
             [0; 1; 2; 3; 4; 5; 6; 7].

(** ** Outcomes *)

Inductive exception : Type :=
| InvalidQualityType (stype : Z)   (* "Invalid quality type: N" *)
| InvalidMode (mode : Z)           (* "Invalid mode: N" *)
| TooManyTracks (n : Z)            (* "Too many tracks: N" *)
| SamplesNotSupported24            (* "24-bit samples not supported" *)
| bad_alloc.                       (* std::bad_alloc *)

Inductive failure : Type :=
| Abort (line : Z)        (* a failed assertion at that source line *)
| Throw (e : exception)   (* std::runtime_error, std::bad_alloc *)
| Undefined (line : Z).   (* out-of-bounds access at that source line *)

Inductive result (A : Type) : Type :=
| Ok (a : A)
| Fail (f : failure).
Arguments Ok {A} a.
Arguments Fail {A} f.

Definition bind {A B} (r : result A) (k : A -> result B) : result B :=
  match r with
  | Ok a => k a
  | Fail f => Fail f
  end.

Declare Scope result_scope.
Notation "x <- r ;; k" := (bind r (fun x => k))
  (at level 61, r at next level, right associativity) : result_scope.
Notation "' p <- r ;; k" := (bind r (fun x => let p := x in k))
  (at level 61, p pattern, r at next level, right associativity) : result_scope.
Notation "r ;;; k" := (bind r (fun _ => k))
  (at level 61, right associativity) : result_scope.
Local Open Scope result_scope.

(** Modelled from the spec: the macro [alassert] (alassert.h is not among
    the sources) is an assertion that is checked in every build; when the
    condition is false the failure is fatal and the call aborts.  The
    line is that of the assertion in allafplay.cpp. *)
Definition alassert (line : Z) (cond : bool) : result unit :=
  if cond then Ok tt else Fail (Abort line).

(** [assert(cond)] at a source line: checked only when NDEBUG is not
    defined. *)
Definition cassert (ndebug : bool) (line : Z) (cond : bool) : result unit :=
  if ndebug then Ok tt else alassert line cond.

(** The error kinds of the specification, as classes of [failure]. *)
Definition is_FormatError (f : failure) : bool :=
  match f with
  | Abort _ => true
  | Throw (InvalidQualityType _) => true
  | Throw (InvalidMode _) => true
  | Throw (TooManyTracks _) => true
  | _ => false
  end.

Definition is_UnsupportedFeatureError (f : failure) : bool :=
  match f with
  | Throw SamplesNotSupported24 => true
  | _ => false
  end.

(** ** The free store

    A vector gets its storage from [operator new], which grants the request
    or throws [std::bad_alloc].  Which of the two happens is decided outside
    the program, so the allocator is an argument of [LoadLAF]: [heap k n]
    tells whether the [k]-th [resize] of the call, a request for [n] bytes,
    is granted: the window of position track [k] (line 484) and, after the
    windows, the sample buffer (line 486).  These are the requests whose
    size the file chooses; what is allocated before them is of fixed size
    or holds the records of at most 256 tracks. *)
Definition allocator : Type := nat -> Z -> bool.

(** The allocator that grants every request. *)
Definition plenty : allocator := fun _ _ => true.

(** [v.resize(n)] on an empty vector, [bytes] being the size of [n]
    elements: for [n = 0] nothing is requested. *)
Definition resize (heap : allocator) (k : nat) (bytes : Z) : result unit :=
  if (bytes =? 0) || heap k bytes then Ok tt else Fail (Throw bad_alloc).

(** ** Byte buffers *)

(** The elements [off, off+len) of a buffer. *)
Definition slice {A} (off len : nat) (l : list A) : list A :=
  firstn len (skipn off l).

(** Storing [src] at offset [off] of a buffer. *)
Definition blit {A} (off : nat) (src l : list A) : list A :=
  firstn off l ++ src ++ skipn (off + length src) l.

Definition zeros (n : nat) : list byte := repeat Byte.x00 n.

Definition bytes_eqb (a b : list byte) : bool :=
  if list_eq_dec Byte.byte_eq_dec a b then true else false.

(** ** The input file: std::ifstream

    [remaining] is the unread part of the file; [good] is false once a read
    has failed.  [ifstream_read f n] is [f.read(dst, n)]: it returns the
    characters stored into [dst] and the stream afterwards.  A read on a
    failed stream extracts nothing; a read past the end extracts what is
    left and fails the stream. *)

Record ifstream : Type := mk_ifstream {
  remaining : list byte;
  good : bool
}.

Definition ifstream_open (contents : list byte) : ifstream :=
  {| remaining := contents; good := true |}.

Definition ifstream_read (f : ifstream) (n : Z) : list byte * ifstream :=
  if good f then
    if (Z.to_nat n <=? length (remaining f))%nat
    then (firstn (Z.to_nat n) (remaining f),
          {| remaining := skipn (Z.to_nat n) (remaining f); good := true |})
    else (remaining f, {| remaining := []; good := false |})
  else ([], f).

(** ** float: IEEE 754 binary32 *)

(** [al::bit_cast<float>] of a 32-bit pattern. *)
Definition float_of_bits (w : Z) : spec_float :=
  let sign := Z.testbit w 31 in
  let e := Z.land (Z.shiftr w 23) 255 in
  let m := Z.land w (2 ^ 23 - 1) in
  if e =? 255 then
    if m =? 0 then S754_infinity sign else S754_nan
  else if e =? 0 then
    match m with
    | Zpos p => S754_finite sign p (-149)
    | _ => S754_zero sign
    end
  else
    match m + 2 ^ 23 with
    | Zpos p => S754_finite sign p (e - 150)
    | _ => S754_nan
    end.

(** [float(in)] for an integer that binary32 represents exactly. *)
Definition float_of_int (z : Z) : spec_float := binary_normalize 24 128 z 0 false.

Definition float_div (x y : spec_float) : spec_float := SFdiv 24 128 x y.

(** [std::isfinite]. *)
Definition isfinite (x : spec_float) : bool :=
  match x with
  | S754_zero _ | S754_finite _ _ _ => true
  | S754_infinity _ | S754_nan => false
  end.

(** [x != x]. *)
Definition float_ne (x y : spec_float) : bool := negb (SFeqb x y).

(** [y == 0.0]. *)
Definition float_is_zero (y : spec_float) : bool := SFeqb y (S754_zero false).

(** ** The stream *)

Inductive Quality : Type := s8 | s16 | f32 | s24.
Inductive Mode : Type := Channels | Objects.

Definition Mode_eqb (a b : Mode) : bool :=
  match a, b with
  | Channels, Channels | Objects, Objects => true
  | _, _ => false
  end.

Definition BytesFromQuality (quality : Quality) : Z :=
  match quality with
  | s8 => 1
  | s16 => 2
  | f32 => 4
  | s24 => 3
  end.

Inductive ALformat : Type := AL_FORMAT_MONO8 | AL_FORMAT_MONO16 | AL_FORMAT_MONO_FLOAT32.

Definition FormatFromQuality (quality : Quality) : result ALformat :=
  match quality with
  | s8 => Ok AL_FORMAT_MONO8
  | s16 => Ok AL_FORMAT_MONO16
  | f32 => Ok AL_FORMAT_MONO_FLOAT32
  | s24 => Fail (Throw SamplesNotSupported24)
  end.

Definition FramesPerPos : Z := 48.

(** [mSource] and [mBuffers] are handles of the sink; a channel is named by
    its index in [mChannels] when it is passed to the sink. *)
Record Channel : Type := mk_Channel {
  mAzimuth : spec_float;
  mElevation : spec_float;
  mIsLfe : bool
}.

(** [mSampleLine] is a span into [mSampleChunk]: its offset and its size. *)
Record LafStream : Type := mk_LafStream {
  mInFile : ifstream;
  mQuality : Quality;
  mMode : Mode;
  mSampleRate : Z;
  mSampleCount : Z;
  mNumTracks : Z;
  mCurrentSample : Z;
  mEnabledTracks : list byte;
  mNumEnabled : Z;
  mSampleChunk : list byte;
  mSampleLine : nat * nat;
  mChannels : list Channel;
  mPosTracks : list (list spec_float)
}.

Definition isAtEnd (s : LafStream) : bool := mSampleCount s <=? mCurrentSample s.

(** [LafStream() = default]: every member value-initialised, the file not
    open. *)
Definition LafStream_default : LafStream :=
  {| mInFile := {| remaining := []; good := false |};
     mQuality := s8;
     mMode := Channels;
     mSampleRate := 0;
     mSampleCount := 0;
     mNumTracks := 0;
     mCurrentSample := 0;
     mEnabledTracks := repeat Byte.x00 32;
     mNumEnabled := 0;
     mSampleChunk := [];
     mSampleLine := (0%nat, 0%nat);
     mChannels := [];
     mPosTracks := [] |}.

(** ** LoadLAF *)

(** Modelled from the spec: [al::bit_cast] (albit.h is not among the
    sources) reinterprets the bytes of an object; all integers of the
    container are little-endian, so [al::bit_cast<uint32_t>] and
    [al::bit_cast<uint64_t>] of an array of bytes is [le_combine]. *)
Definition read_uint (input : list byte) : Z := le_combine input.

(** The lambda [read_float] of the track loop. *)
Definition read_float (input : list byte) : spec_float :=
  float_of_bits (le_combine input).

(** The lambda that sets [mQuality] from [header[4]]. *)
Definition quality_of_stype (stype : Z) : result Quality :=
  if stype =? 0 then Ok s8
  else if stype =? 1 then Ok s16
  else if stype =? 2 then Ok f32
  else if stype =? 3 then Ok s24
  else Fail (Throw (InvalidQualityType stype)).

(** The lambda that sets [mMode] from [header[5]]. *)
Definition mode_of_code (mode : Z) : result Mode :=
  if mode =? 0 then Ok Channels
  else if mode =? 1 then Ok Objects
  else Fail (Throw (InvalidMode mode)).

(** The body of the track loop for track [i], on its 9-byte record. *)
Definition load_track (mode : Mode) (i : Z) (chan : list byte)
    (acc : list Channel * list (list spec_float))
    : result (list Channel * list (list spec_float)) :=
  let '(channels, postracks) := acc in
  let x_axis := read_float (slice 0 4 chan) in
  let y_axis := read_float (slice 4 4 chan) in
  let lfe_flag := char_to_int (nth 8 chan Byte.x00) in
  if float_ne x_axis x_axis && float_is_zero y_axis then
    alassert 435 (Mode_eqb mode Objects) ;;;
    alassert 436 (negb (i =? 0)) ;;;
    Ok (channels, postracks ++ [[]])
  else
    alassert 441 (match postracks with [] => true | _ => false end) ;;;
    alassert 442 (isfinite x_axis && isfinite y_axis) ;;;
    Ok (channels ++ [{| mAzimuth := y_axis; mElevation := x_axis;
                        mIsLfe := negb (lfe_flag =? 0) |}],
        postracks).

(** The track loop: tracks [i], [i+1], ..., [i+n-1]. *)
Fixpoint load_tracks (mode : Mode) (chandata : list byte) (i : Z) (n : nat)
    (acc : list Channel * list (list spec_float))
    : result (list Channel * list (list spec_float)) :=
  match n with
  | O => Ok acc
  | S n' =>
      acc' <- load_track mode i (slice (Z.to_nat (i * 9)) 9 chandata) acc ;;
      load_tracks mode chandata (i + 1) n' acc'
  end.

(** A window of position data as line 484 allocates it: two seconds of
    floats, all 0.0f. *)
Definition empty_window (rate : Z) : list spec_float :=
  repeat (S754_zero false) (Z.to_nat (rate * 2)).

(** The loop of lines 483-484 from position track [i] on: every track gets
    its window, [mSampleRate*2] floats of four bytes. *)
Fixpoint resize_windows (heap : allocator) (rate : Z) (i : nat)
    (postracks : list (list spec_float)) : result (list (list spec_float)) :=
  match postracks with
  | [] => Ok []
  | _ :: rest =>
      resize heap i (rate * 2 * 4) ;;;
      rest' <- resize_windows heap rate (S i) rest ;;
      Ok (empty_window rate :: rest')
  end.

Definition LIMITLESS : list byte := list_byte_of_string "LIMITLESS".
Definition HEAD : list byte := list_byte_of_string "HEAD".

Definition LoadLAF (ndebug : bool) (heap : allocator) (contents : list byte)
    : result LafStream :=
  let f0 := ifstream_open contents in
  let '(marker, f1) := ifstream_read f0 9 in
  alassert 378 (good f1) ;;;
  alassert 379 (bytes_eqb marker LIMITLESS) ;;;
  let '(header, f2) := ifstream_read f1 10 in
  alassert 382 (good f2) ;;;
  alassert 383 (bytes_eqb (slice 0 4 header) HEAD) ;;;
  quality <- quality_of_stype (char_to_int (nth 4 header Byte.x00)) ;;
  mode <- mode_of_code (char_to_int (nth 5 header Byte.x00)) ;;
  let numTracks := read_uint (slice 6 4 header) in
  (if 256 <? numTracks then Fail (Throw (TooManyTracks numTracks)) else Ok tt) ;;;
  let chandata0 := zeros (Z.to_nat (numTracks * 9)) in
  (* line 414: the read is the argument of assert *)
  '(chandata, f3) <-
    (if ndebug then Ok (chandata0, f2)
     else
       let '(got, f3) := ifstream_read f2 (numTracks * 9) in
       alassert 414 (good f3) ;;;
       Ok (got, f3)) ;;
  '(channels, postracks) <-
    load_tracks mode chandata 0 (Z.to_nat numTracks) ([], []) ;;
  (if Mode_eqb mode Objects
   then alassert 455 (Z.shiftr (u64 (Z.of_nat (length channels) - 1)) 4
                      =? u64 (Z.of_nat (length postracks) - 1))
   else Ok tt) ;;;
  let '(footer, f4) := ifstream_read f3 12 in
  alassert 458 (good f4) ;;;
  let sampleRate := read_uint (slice 0 4 footer) in
  let sampleCount := read_uint (slice 4 8 footer) in
  alassert 481 (Mode_eqb mode Channels || (sampleRate mod FramesPerPos =? 0)) ;;;
  postracks' <- resize_windows heap sampleRate 0 postracks ;;
  resize heap (length postracks)
         (u64 (sampleRate * BytesFromQuality quality * (numTracks + 1))) ;;;
  let linesize := Z.to_nat (sampleRate * BytesFromQuality quality) in
  let chunksize :=
    Z.to_nat (u64 (sampleRate * BytesFromQuality quality * (numTracks + 1))) in
  Ok {| mInFile := f4;
        mQuality := quality;
        mMode := mode;
        mSampleRate := sampleRate;
        mSampleCount := sampleCount;
        mNumTracks := numTracks;
        mCurrentSample := 0;
        mEnabledTracks := zeros 32;
        mNumEnabled := 0;
        mSampleChunk := zeros chunksize;
        mSampleLine := ((chunksize - linesize)%nat, linesize);
        mChannels := channels;
        mPosTracks := postracks' |}.

(** ** readChunk *)

(** [dst.read(...)] stores the extracted characters at the start of the
    destination and leaves the rest of it as it was. *)
Definition overwrite (got dst : list byte) : list byte :=
  got ++ skipn (length got) dst.

(** The [std::accumulate] of the population counts of bitmap bytes, in
    [unsigned int]. *)
Definition count_enabled (bits : list byte) : Z :=
  fold_left (fun val b => u32 (val + popcount (byte.unsigned b))) bits 0.

Definition readChunk (s : LafStream) : result (Z * LafStream) :=
  let nbytes := Z.shiftr (mNumTracks s + 7) 3 in
  let '(got, f1) := ifstream_read (mInFile s) nbytes in
  (if (length got <=? 32)%nat then Ok tt else Fail (Undefined 264)) ;;;
  let enabled := overwrite got (zeros 32) in
  let numEnabled := count_enabled enabled in
  let last := u64 (Z.shiftr (mNumTracks s + 7) 3 - 1) in
  match nth_error enabled (Z.to_nat last) with
  | None => Fail (Undefined 269)
  | Some b =>
      alassert 269 (byte.unsigned b
                    <? u32 (Z.shiftl 1 (Z.land (mNumTracks s) 7))) ;;;
      let toread :=
        u64 (mSampleRate s * BytesFromQuality (mQuality s) * numEnabled) in
      let '(got2, f2) := ifstream_read f1 toread in
      (if (length got2 <=? length (mSampleChunk s))%nat
       then Ok tt else Fail (Undefined 275)) ;;;
      let numsamples :=
        Z.min (mSampleRate s) (u64 (mSampleCount s - mCurrentSample s)) in
      Ok (u32 numsamples,
          {| mInFile := f2;
             mQuality := mQuality s;
             mMode := mMode s;
             mSampleRate := mSampleRate s;
             mSampleCount := mSampleCount s;
             mNumTracks := mNumTracks s;
             mCurrentSample := u64 (mCurrentSample s + numsamples);
             mEnabledTracks := enabled;
             mNumEnabled := numEnabled;
             mSampleChunk := overwrite got2 (mSampleChunk s);
             mSampleLine := mSampleLine s;
             mChannels := mChannels s;
             mPosTracks := mPosTracks s |})
  end.

(** The calls of [readChunk] that a reader makes while [isAtEnd] is false,
    with the range [(first sample, count)] each one returns.  [None]: the
    fuel ran out before the end of the stream was reached. *)
Fixpoint read_chunks (fuel : nat) (s : LafStream)
    : option (result (list (Z * Z) * LafStream)) :=
  if isAtEnd s then Some (Ok ([], s))
  else
    match fuel with
    | O => None
    | S fuel' =>
        match readChunk s with
        | Fail f => Some (Fail f)
        | Ok (n, s') =>
            match read_chunks fuel' s' with
            | Some (Ok (rs, s'')) => Some (Ok ((mCurrentSample s, n) :: rs, s''))
            | other => other
            end
        end
    end.

(** ** convertPositions

    [dst] is the destination span of floats, [src] the raw bytes of one
    track; the result is the destination afterwards. *)

(** The 16-bit signed value of two little-endian bytes. *)
Definition int16_of_bytes (bs : list byte) : Z :=
  let v := le_combine bs in if v <? 32768 then v else v - 65536.

(** The elements of a byte span read as objects of [sz] bytes:
    [span.size()/sz] of them. *)
Fixpoint chunks_of (sz : nat) (n : nat) (l : list byte) : list (list byte) :=
  match n with
  | O => []
  | S n' => firstn sz l :: chunks_of sz n' (skipn sz l)
  end.

Definition elements (sz : nat) (l : list byte) : list (list byte) :=
  chunks_of sz (length l / sz) l.

(** [std::transform] / [std::copy] into [dst.begin()]. *)
Definition store_floats (line : Z) (vals dst : list spec_float)
    : result (list spec_float) :=
  if (length vals <=? length dst)%nat
  then Ok (vals ++ skipn (length vals) dst)
  else Fail (Undefined line).

Definition convertPositions (quality : Quality) (dst : list spec_float)
    (src : list byte) : result (list spec_float) :=
  match quality with
  | s8 =>
      store_floats 287
        (map (fun b => float_div (float_of_int (char_to_int b)) (float_of_int 127)) src)
        dst
  | s16 =>
      store_floats 294
        (map (fun bs => float_div (float_of_int (int16_of_bytes bs))
                                  (float_of_int 32767))
             (elements 2 src))
        dst
  | f32 =>
      store_floats 302 (map read_float (elements 4 src)) dst
  | s24 => Ok dst
  end.

(** ** copySamples and prepareTrack

    [mSampleLine] lies inside [mSampleChunk], so source and destination of
    [copySamples] are the same buffer [mem]: the loop reads and writes it in
    the order of the source. *)

(** [std::generate_n]: [n] more output elements, the next one being the
    [k]-th; [inptr] is the element offset of the input iterator. *)
Fixpoint copySamples_loop (sz step idx dst : nat) (inptr k n : nat)
    (mem : list byte) : result (list byte) :=
  match n with
  | O => Ok mem
  | S n' =>
      let rd := ((inptr + idx) * sz)%nat in
      let wr := (dst + k * sz)%nat in
      if ((rd + sz <=? length mem) && (wr + sz <=? length mem))%nat then
        copySamples_loop sz step idx dst (inptr + step) (S k) n'
                         (blit wr (slice rd sz mem) mem)
      else Fail (Undefined 322)
  end.

(** [copySamples<T>(dst, src, idx, count)] with [sizeof(T) = sz], [src] the
    start of [mem] and [dst] at byte offset [dst] of it. *)
Definition copySamples (ndebug : bool) (sz : nat) (step : Z) (dst : nat)
    (idx count : Z) (mem : list byte) : result (list byte) :=
  cassert ndebug 314 (idx <? step) ;;;
  copySamples_loop sz (Z.to_nat step) (Z.to_nat idx) dst 0 0 (Z.to_nat count) mem.

(** The lambda of [prepareTrack] that computes the index of a track among
    the enabled ones. *)
Definition real_index (enabled : list byte) (trackidx : Z) (b : byte) : Z :=
  let res := count_enabled (firstn (Z.to_nat (Z.shiftr trackidx 3)) enabled) in
  u32 (u32 (popcount (Z.land (byte.unsigned b)
                             (u64 (Z.shiftl 1 (Z.land trackidx 7)) - 1)))
       + res).

Definition set_chunk (s : LafStream) (mem : list byte) : LafStream :=
  {| mInFile := mInFile s;
     mQuality := mQuality s;
     mMode := mMode s;
     mSampleRate := mSampleRate s;
     mSampleCount := mSampleCount s;
     mNumTracks := mNumTracks s;
     mCurrentSample := mCurrentSample s;
     mEnabledTracks := mEnabledTracks s;
     mNumEnabled := mNumEnabled s;
     mSampleChunk := mem;
     mSampleLine := mSampleLine s;
     mChannels := mChannels s;
     mPosTracks := mPosTracks s |}.

(** The result is the returned span (offset and size in [mSampleChunk]) and
    the stream afterwards. *)
Definition prepareTrack (ndebug : bool) (s : LafStream) (trackidx count : Z)
    : result ((nat * nat) * LafStream) :=
  let todo := Z.min (mSampleRate s) count in
  let '(lineoff, linesize) := mSampleLine s in
  match nth_error (mEnabledTracks s) (Z.to_nat (Z.shiftr trackidx 3)) with
  | None => Fail (Undefined 331)
  | Some b =>
      mem <-
        (if negb (Z.land (byte.unsigned b) (u64 (Z.shiftl 1 (Z.land trackidx 7))) =? 0)
         then
           let idx := real_index (mEnabledTracks s) trackidx b in
           match mQuality s with
           | s8 => copySamples ndebug 1 (mNumEnabled s) lineoff idx todo (mSampleChunk s)
           | s16 => copySamples ndebug 2 (mNumEnabled s) lineoff idx todo (mSampleChunk s)
           | f32 => copySamples ndebug 4 (mNumEnabled s) lineoff idx todo (mSampleChunk s)
           | s24 => Fail (Throw SamplesNotSupported24)
           end
         else
           Ok (blit lineoff
                    (repeat (match mQuality s with s8 => Byte.x80 | _ => Byte.x00 end)
                            linesize)
                    (mSampleChunk s))) ;;
      let size := Z.to_nat (u64 (todo * BytesFromQuality (mQuality s))) in
      (if (size <=? linesize)%nat then Ok tt else Fail (Undefined 368)) ;;;
      Ok ((lineoff, size), set_chunk s mem)
  end.

(** The bytes a returned span denotes. *)
Definition span_bytes (sp : nat * nat) (s : LafStream) : list byte :=
  slice (fst sp) (snd sp) (mSampleChunk s).

(** ** PlayLAF: one iteration of the playback loop

    The sink (OpenAL) is an external collaborator.  What it reports at the
    start of an iteration is an [observation]; the calls the iteration makes
    on it are recorded in order as a trace of [sink_call]s, which is kept
    when the iteration fails part way. *)

Inductive ALstate : Type :=
| AL_INITIAL | AL_PLAYING | AL_PAUSED | AL_STOPPED | AL_OTHER.

Record observation : Type := mk_observation {
  processed : Z;       (* AL_BUFFERS_PROCESSED of the back source *)
  offset : Z;          (* AL_SAMPLE_OFFSET of the back source, an ALint *)
  state : ALstate      (* AL_SOURCE_STATE of the back source *)
}.

Inductive buffer_ref : Type :=
| Unqueued (chan : nat)              (* the buffer just unqueued from a source *)
| ChannelBuffer (chan : nat) (k : nat).   (* mChannels[chan].mBuffers[k] *)

Inductive sink_call : Type :=
| alcSuspendContext
| alcProcessContext
| alSource3f_POSITION (chan : nat) (x y z : spec_float)
| alSourceUnqueueBuffers (chan : nat)
| alBufferData (buf : buffer_ref) (format : ALformat) (data : list byte)
               (size : Z) (freq : Z)
| alSourceQueueBuffers (chan : nat) (bufs : list buffer_ref)
| alSourcePlayv (chans : list nat)
| sleep_for_10ms.

Definition traced (A : Type) : Type := (list sink_call * result A)%type.

Definition tret {A} (a : A) : traced A := ([], Ok a).

Definition tbind {A B} (m : traced A) (k : A -> traced B) : traced B :=
  match m with
  | (t, Ok a) => let '(t', r) := k a in (t ++ t', r)
  | (t, Fail f) => (t, Fail f)
  end.

Definition emit (c : sink_call) : traced unit := ([c], Ok tt).

Definition lift {A} (r : result A) : traced A := ([], r).

Declare Scope traced_scope.
Delimit Scope traced_scope with traced.
Notation "x <- r ;; k" := (tbind r (fun x => k))
  (at level 61, r at next level, right associativity) : traced_scope.
Notation "' p <- r ;; k" := (tbind r (fun x => let p := x in k))
  (at level 61, p pattern, r at next level, right associativity) : traced_scope.
Notation "r ;;; k" := (tbind r (fun _ => k))
  (at level 61, right associativity) : traced_scope.

(** [for(size_t i{0};i < n;++i) body] on a loop state. *)
Fixpoint for_each {S : Type} (idxs : list nat) (body : nat -> S -> traced S)
    (st : S) : traced S :=
  match idxs with
  | [] => tret st
  | i :: rest => (st' <- body i st ;; for_each rest body st')%traced
  end.

Definition for_loop {S : Type} (n : nat) (body : nat -> S -> traced S)
    (st : S) : traced S :=
  for_each (seq 0 n) body st.

(** [ALsizei(v)]: the conversion of an unsigned value to the 32-bit signed
    [int] that the sink takes for sizes and frequencies. *)
Definition ALsizei (v : Z) : Z := (v + 2 ^ 31) mod 2 ^ 32 - 2 ^ 31.

(** [posoffset] of channel [i] at the reported offset. *)
Definition posoffset (offset : Z) (i : Z) : Z :=
  u64 (u32 offset / FramesPerPos * 16 + Z.land i 15).

(** [mPosTracks[trackidx][elem]]. *)
Definition pos_elem (line : Z) (s : LafStream) (trackidx elem : Z)
    : result spec_float :=
  match nth_error (mPosTracks s) (Z.to_nat trackidx) with
  | None => Fail (Undefined line)
  | Some track =>
      match nth_error track (Z.to_nat elem) with
      | None => Fail (Undefined line)
      | Some v => Ok v
      end
  end.

(** The body of the position update loop for channel [i], with [base] the
    triple index. *)
Definition update_position (line : Z) (s : LafStream) (base : Z) (i : nat)
    : traced unit :=
  (let trackidx := Z.shiftr (Z.of_nat i) 4 in
   x <- lift (pos_elem line s trackidx (u64 (base * 3 + 0))) ;;
   y <- lift (pos_elem (line + 1) s trackidx (u64 (base * 3 + 1))) ;;
   z <- lift (pos_elem (line + 2) s trackidx (u64 (base * 3 + 2))) ;;
   emit (alSource3f_POSITION i x y (SFopp z)))%traced.

(** Lines 543-561 (and 655-670): the position update of all channels. *)
Definition update_positions (s : LafStream) (offset : Z) : traced unit :=
  match mPosTracks s with
  | [] => tret tt
  | _ :: _ =>
      (emit alcSuspendContext ;;;
       for_loop (length (mChannels s))
         (fun i _ => update_position 551 s (posoffset offset (Z.of_nat i)) i) tt ;;;
       emit alcProcessContext)%traced
  end.

Definition set_postracks (s : LafStream) (pos : list (list spec_float))
    : LafStream :=
  {| mInFile := mInFile s;
     mQuality := mQuality s;
     mMode := mMode s;
     mSampleRate := mSampleRate s;
     mSampleCount := mSampleCount s;
     mNumTracks := mNumTracks s;
     mCurrentSample := mCurrentSample s;
     mEnabledTracks := mEnabledTracks s;
     mNumEnabled := mNumEnabled s;
     mSampleChunk := mSampleChunk s;
     mSampleLine := mSampleLine s;
     mChannels := mChannels s;
     mPosTracks := pos |}.

(** Storing [v] as element [i] of a list ([l[i] = v], [i] in range). *)
Definition set_nth {A} (i : nat) (v : A) (l : list A) : list A :=
  firstn i l ++ v :: skipn (S i) l.

(** [prepareTrack] of position track [i] and [convertPositions] into one
    second of its window: the last [mSampleRate] floats when [last] is true,
    the first ones otherwise.  [shift] first moves the window down by one
    second (lines 577-578). *)
Definition load_positions (ndebug : bool) (shift last : bool)
    (numsamples : Z) (i : nat) (s : LafStream) : traced LafStream :=
  lift
    (match nth_error (mPosTracks s) i with
     | None => Fail (Undefined 577)
     | Some track =>
         let rate := Z.to_nat (mSampleRate s) in
         (if (rate <=? length track)%nat then Ok tt else Fail (Undefined 577)) ;;;
         let track1 :=
           if shift then blit 0 (skipn rate track) track else track in
         '(positions, s1) <-
           prepareTrack ndebug s (Z.of_nat (length (mChannels s) + i)) numsamples ;;
         let off := if last then (length track1 - rate)%nat else 0%nat in
         dst <- convertPositions (mQuality s1) (slice off rate track1)
                                 (span_bytes positions s1) ;;
         Ok (set_postracks s1 (set_nth i (blit off dst track1) (mPosTracks s1)))
     end).

(** [prepareTrack] of audio track [i] and its hand-over to the sink; [buf]
    is the buffer it is stored in, [before] and [after] the sink calls
    around [alBufferData]. *)
Definition load_channel (ndebug : bool) (numsamples : Z) (buf : buffer_ref)
    (before after : list sink_call) (i : nat) (s : LafStream)
    : traced LafStream :=
  ('(samples, s1) <- lift (prepareTrack ndebug s (Z.of_nat i) numsamples) ;;
   (before, Ok tt) ;;;
   format <- lift (FormatFromQuality (mQuality s1)) ;;
   emit (alBufferData buf format (span_bytes samples s1)
                      (ALsizei (Z.of_nat (snd samples)))
                      (ALsizei (mSampleRate s1))) ;;;
   (after, Ok tt) ;;;
   tret s1)%traced.

(** The branch taken in the states AL_PLAYING and AL_PAUSED
    (lines 541-587). *)
Definition tick_playing (ndebug : bool) (s : LafStream) (obs : observation)
    : traced LafStream :=
  (update_positions s (offset obs) ;;;
   if 0 <? processed obs then
     '(numsamples, s1) <- lift (readChunk s) ;;
     s2 <- for_loop (length (mChannels s1))
             (fun i st =>
                load_channel ndebug numsamples (Unqueued i)
                  [alSourceUnqueueBuffers i]
                  [alSourceQueueBuffers i [Unqueued i]] i st) s1 ;;
     for_loop (length (mPosTracks s2))
       (fun i st => load_positions ndebug true true numsamples i st) s2
   else
     emit sleep_for_10ms ;;;
     tret s)%traced.

(** The branch taken in the state AL_STOPPED (lines 588-594). *)
Definition tick_stopped (s : LafStream) : traced LafStream :=
  (emit (alSourcePlayv (seq 0 (length (mChannels s)))) ;;;
   tret s)%traced.

(** The initial position of channel [i] (lines 631-640). *)
Definition initial_position (s : LafStream) (i : nat) : traced unit :=
  update_position 635 s (Z.land (Z.of_nat i) 15) i.

(** The branch taken in the state AL_INITIAL (lines 595-644). *)
Definition tick_initial (ndebug : bool) (s : LafStream) : traced LafStream :=
  ('(numsamples, s1) <- lift (readChunk s) ;;
   s2 <- for_loop (length (mChannels s1))
           (fun i st =>
              load_channel ndebug numsamples (ChannelBuffer i 0) [] [] i st) s1 ;;
   s3 <- for_loop (length (mPosTracks s2))
           (fun i st => load_positions ndebug false false numsamples i st) s2 ;;
   '(numsamples2, s4) <- lift (readChunk s3) ;;
   s5 <- for_loop (length (mChannels s4))
           (fun i st =>
              load_channel ndebug numsamples2 (ChannelBuffer i 1) []
                [alSourceQueueBuffers i [ChannelBuffer i 0; ChannelBuffer i 1]]
                i st) s4 ;;
   s6 <- for_loop (length (mPosTracks s5))
           (fun i st => load_positions ndebug false true numsamples2 i st) s5 ;;
   (match mPosTracks s6 with
    | [] => tret tt
    | _ :: _ =>
        for_loop (length (mChannels s6)) (fun i _ => initial_position s6 i) tt
    end) ;;;
   emit (alSourcePlayv (seq 0 (length (mChannels s6)))) ;;;
   tret s6)%traced.

(** One iteration of [while(!laf->isAtEnd())] (lines 525-647).  The boolean
    of the result tells whether the loop goes on ([false]: [break]). *)
Definition tick (ndebug : bool) (s : LafStream) (obs : observation)
    : traced (LafStream * bool) :=
  match mChannels s with
  | [] => ([], Fail (Undefined 537))      (* mChannels.back() *)
  | _ :: _ =>
      match state obs with
      | AL_PLAYING | AL_PAUSED =>
          (s' <- tick_playing ndebug s obs ;; tret (s', true))%traced
      | AL_STOPPED =>
          (s' <- tick_stopped s ;; tret (s', true))%traced
      | AL_INITIAL =>
          (s' <- tick_initial ndebug s ;; tret (s', true))%traced
      | AL_OTHER => tret (s, false)
      end
  end.

(** [PlayLAF] up to the end of its playback loop: the stream is loaded
    first, and the loop runs on the observations the sink supplies, one per
    iteration, while the stream is not at its end.  The allocation of the
    sink sources between the two ([alloc_channel], lines 498-523) places
    the channels with [sin] and [cos] and does not touch the stream; it is
    left out. *)
Fixpoint play_loop (ndebug : bool) (s : LafStream) (obss : list observation)
    : traced LafStream :=
  if isAtEnd s then tret s
  else
    match obss with
    | [] => tret s
    | obs :: rest =>
        ('(s', continue) <- tick ndebug s obs ;;
         if continue : bool then play_loop ndebug s' rest else tret s')%traced
    end.

Definition PlayLAF (ndebug : bool) (heap : allocator) (contents : list byte)
    (obss : list observation) : traced LafStream :=
  (laf <- lift (LoadLAF ndebug heap contents) ;;
   play_loop ndebug laf obss)%traced.

(** The drain phase after the loop (lines 649-674): position updates while
    the sink reports AL_PLAYING. *)
Fixpoint drain (s : LafStream) (obss : list observation) : traced unit :=
  match obss with
  | [] => tret tt
  | obs :: rest =>
      match state obs with
      | AL_PLAYING =>
          (update_positions s (offset obs) ;;;
           emit sleep_for_10ms ;;;
           drain s rest)%traced
      | _ => tret tt
      end
  end.

(** ** The container layout

    The fields of a file by their offsets in the layout table of the
    format, independently of how [LoadLAF] walks through them. *)

Definition file_magic (c : list byte) : list byte := slice 0 9 c.
Definition file_tag (c : list byte) : list byte := slice 9 4 c.
Definition file_quality_code (c : list byte) : Z := byte.unsigned (nth 13 c Byte.x00).
Definition file_mode_code (c : list byte) : Z := byte.unsigned (nth 14 c Byte.x00).
Definition file_track_count (c : list byte) : Z := le_combine (slice 15 4 c).
Definition file_track_record (c : list byte) (i : nat) : list byte :=
  slice (19 + 9 * i) 9 c.
Definition file_sample_rate (c : list byte) : Z :=
  le_combine (slice (19 + 9 * Z.to_nat (file_track_count c)) 4 c).
Definition file_sample_count (c : list byte) : Z :=
  le_combine (slice (23 + 9 * Z.to_nat (file_track_count c)) 8 c).

(** Elevation and azimuth of a 9-byte track record. *)
Definition record_elevation (rec : list byte) : spec_float := read_float (slice 0 4 rec).
Definition record_azimuth (rec : list byte) : spec_float := read_float (slice 4 4 rec).

Definition is_nan (x : spec_float) : bool :=
  match x with S754_nan => true | _ => false end.

Definition is_infinite (x : spec_float) : bool :=
  match x with S754_infinity _ => true | _ => false end.

(** A record that is neither a position marker nor a finite audio track. *)
Definition malformed_record (rec : list byte) : Prop :=
  (is_nan (record_elevation rec) = true /\ float_is_zero (record_azimuth rec) = false)
  \/ is_infinite (record_elevation rec) = true
  \/ is_infinite (record_azimuth rec) = true.

(** Building files for examples. *)
Definition track_record (elevation azimuth lfe : Z) : list byte :=
  le_split 4 elevation ++ le_split 4 azimuth ++ [byte.of_Z lfe].

Definition laf_file (quality mode tracks : Z) (records : list byte)
    (rate count : Z) (chunks : list byte) : list byte :=
  LIMITLESS ++ HEAD ++ [byte.of_Z quality; byte.of_Z mode] ++ le_split 4 tracks
  ++ records ++ le_split 4 rate ++ le_split 8 count ++ chunks.

(** The stream [LoadLAF] makes of a file in a build with [assert] enabled
    when every request for memory is granted, for examples. *)
Definition stream_of (contents : list byte) : LafStream :=
  match LoadLAF false plenty contents with
  | Ok laf => laf
  | Fail _ => LafStream_default
  end.

(** ** Notions used in the statements *)

(** Elevation and azimuth of a channel are finite. *)
Definition finite_channel (ch : Channel) : Prop :=
  isfinite (mElevation ch) = true /\ isfinite (mAzimuth ch) = true.

(** The condition of line 433: the record marks a position track. *)
Definition is_marker (rec : list byte) : bool :=
  float_ne (record_elevation rec) (record_elevation rec)
  && float_is_zero (record_azimuth rec).

(** The track records as the loop of [LoadLAF] sees them: under NDEBUG the
    read at line 414 is compiled out and [chandata] stays zero. *)
Definition chandata_of (ndebug : bool) (c : list byte) : list byte :=
  let n := Z.to_nat (file_track_count c * 9) in
  if ndebug then zeros n else slice 19 n c.

(** The 12 bytes read as the footer. *)
Definition footer_of (ndebug : bool) (c : list byte) : list byte :=
  slice (if ndebug then 19 else 19 + Z.to_nat (file_track_count c * 9)) 12 c.

(** What a successful [LoadLAF] tells about the file and the stream. *)
Record loaded (ndebug : bool) (c : list byte) (laf : LafStream) : Prop := {
  loaded_magic : file_magic c = LIMITLESS;
  loaded_tag : file_tag c = HEAD;
  loaded_quality : 0 <= file_quality_code c <= 3;
  loaded_mode :
    (file_mode_code c = 0 /\ mMode laf = Channels)
    \/ (file_mode_code c = 1 /\ mMode laf = Objects);
  loaded_numtracks : mNumTracks laf = file_track_count c;
  loaded_numtracks_le : 0 <= mNumTracks laf <= 256;
  loaded_loop :
    exists postracks,
      load_tracks (mMode laf) (chandata_of ndebug c) 0
                  (Z.to_nat (mNumTracks laf)) ([], [])
      = Ok (mChannels laf, postracks)
      /\ mPosTracks laf = map (fun _ => empty_window (mSampleRate laf)) postracks;
  loaded_objects :
    mMode laf = Objects ->
    Z.shiftr (u64 (Z.of_nat (length (mChannels laf)) - 1)) 4
    = u64 (Z.of_nat (length (mPosTracks laf)) - 1);
  loaded_footer : length (footer_of ndebug c) = 12%nat;
  loaded_rate : mSampleRate laf = le_combine (slice 0 4 (footer_of ndebug c));
  loaded_count : mSampleCount laf = le_combine (slice 4 8 (footer_of ndebug c));
  loaded_rate_48 : mMode laf = Channels \/ mSampleRate laf mod 48 = 0;
  loaded_current : mCurrentSample laf = 0;
  loaded_enabled : mEnabledTracks laf = zeros 32;
  loaded_numenabled : mNumEnabled laf = 0;
  loaded_chunk :
    mSampleChunk laf
    = zeros (Z.to_nat (mSampleRate laf * BytesFromQuality (mQuality laf)
                       * (mNumTracks laf + 1)));
  loaded_line :
    mSampleLine laf
    = (Z.to_nat (mSampleRate laf * BytesFromQuality (mQuality laf) * mNumTracks laf),
       Z.to_nat (mSampleRate laf * BytesFromQuality (mQuality laf)))
}.

(** The allocator refuses one of the two kinds of requests that [LoadLAF]
    makes for the stream [laf]: the window of a position track (line 484)
    or the sample buffer (line 486). *)
Definition refused (heap : allocator) (laf : LafStream) : Prop :=
  (exists i, (i < length (mPosTracks laf))%nat /\ mSampleRate laf <> 0 /\
             heap i (mSampleRate laf * 2 * 4) = false)
  \/ (mSampleChunk laf <> [] /\
      heap (length (mPosTracks laf)) (Z.of_nat (length (mSampleChunk laf))) = false).

(** Audio and position tracks of a file, counted on its records. *)
Definition file_records (c : list byte) : list (list byte) :=
  map (file_track_record c) (seq 0 (Z.to_nat (file_track_count c))).
Definition file_position_tracks (c : list byte) : Z :=
  Z.of_nat (length (filter is_marker (file_records c))).
Definition file_audio_tracks (c : list byte) : Z :=
  Z.of_nat (length (filter (fun r => negb (is_marker r)) (file_records c))).

(** The records [i, i+n) of the loop's [chandata]. *)
Definition loop_records (chandata : list byte) (i : Z) (n : nat) : list (list byte) :=
  map (fun k => slice (Z.to_nat ((i + Z.of_nat k) * 9)) 9 chandata) (seq 0 n).

(** The record of track [i] as the loop of [LoadLAF] reads it. *)
Definition parsed_record (ndebug : bool) (c : list byte) (i : nat) : list byte :=
  slice (i * 9) 9 (chandata_of ndebug c).

(** What [readChunk] leaves unchanged. *)
Definition same_stream (s s' : LafStream) : Prop :=
  mQuality s' = mQuality s /\ mMode s' = mMode s /\
  mSampleRate s' = mSampleRate s /\ mSampleCount s' = mSampleCount s /\
  mNumTracks s' = mNumTracks s /\ mSampleLine s' = mSampleLine s /\
  mChannels s' = mChannels s /\ mPosTracks s' = mPosTracks s.

(** The bitmap of the next chunk as [readChunk] will store it. *)
Definition next_bitmap (s : LafStream) : list byte :=
  overwrite (fst (ifstream_read (mInFile s) (Z.shiftr (mNumTracks s + 7) 3)))
            (zeros 32).

(** The assertion of line 269 on a stored bitmap. *)
Definition bitmap_accepted (tracks : Z) (bitmap : list byte) : bool :=
  match nth_error bitmap (Z.to_nat (u64 (Z.shiftr (tracks + 7) 3 - 1))) with
  | None => false
  | Some b => byte.unsigned b <? u32 (Z.shiftl 1 (Z.land tracks 7))
  end.

(** The ranges [(first sample, count)] of [rs] follow one another from
    sample [a] to sample [b], and none of them is empty. *)
Fixpoint tiles (a b : Z) (rs : list (Z * Z)) : Prop :=
  match rs with
  | [] => a = b
  | (start, n) :: rest => start = a /\ 0 < n /\ tiles (a + n) b rest
  end.

(** A stream with one track and no samples per second: 1 sample long. *)
Definition zero_rate_file : list byte :=
  laf_file 0 0 1 (track_record 0 0 0) 0 1 [].

(** Track [t] is enabled: bit [t mod 8] of byte [t / 8]. *)
Definition track_enabled (bitmap : list byte) (t : nat) : bool :=
  Z.testbit (byte.unsigned (nth (t / 8) bitmap Byte.x00)) (Z.of_nat (t mod 8)).

(** The number of enabled tracks with an index below [t]. *)
Definition rank (bitmap : list byte) (t : nat) : nat :=
  length (filter (track_enabled bitmap) (seq 0 t)).

(** Only tracks that exist are enabled. *)
Definition well_formed_bitmap (tracks : nat) (bitmap : list byte) : Prop :=
  forall t, track_enabled bitmap t = true -> (t < tracks)%nat.

(** The set bits of a byte value below bit [r]. *)
Definition bits_below (v : Z) (r : nat) : nat :=
  length (filter (fun i => Z.testbit v (Z.of_nat i)) (seq 0 r)).

(** [count_enabled] is the sum of the population counts: the [unsigned]
    accumulator cannot wrap on a bitmap of 32 bytes. *)
Definition bits_set (bitmap : list byte) : nat :=
  fold_right (fun b acc => (bits_below (byte.unsigned b) 8 + acc)%nat) 0%nat bitmap.

(** What [LoadLAF] and [readChunk] establish and [prepareTrack] relies on:
    the bitmap, the count of enabled tracks, and the layout of the sample
    buffer with the mono line behind the room for the chunk. *)
Record chunk_ready (s : LafStream) : Prop := {
  ready_tracks : 0 <= mNumTracks s <= 256;
  ready_rate : 0 <= mSampleRate s < 2 ^ 32;
  ready_bitmap : length (mEnabledTracks s) = 32%nat;
  ready_enabled : mNumEnabled s = count_enabled (mEnabledTracks s);
  ready_enabled_le : mNumEnabled s <= mNumTracks s;
  ready_line :
    mSampleLine s
    = (Z.to_nat (mSampleRate s * BytesFromQuality (mQuality s) * mNumTracks s),
       Z.to_nat (mSampleRate s * BytesFromQuality (mQuality s)));
  ready_chunk :
    length (mSampleChunk s)
    = Z.to_nat (mSampleRate s * BytesFromQuality (mQuality s) * (mNumTracks s + 1))
}.

(** The silence of a disabled track. *)
Definition silence (quality : Quality) : byte :=
  match quality with s8 => Byte.x80 | _ => Byte.x00 end.

(** The interleaved block of [frames] frames made from one sample sequence
    per enabled track, in track order: frame [k] holds sample [k] of each
    sequence. *)
Definition interleave (seqs : list (list (list byte))) (frames : nat) : list byte :=
  concat (flat_map (fun k => map (fun sq => nth k sq []) seqs) (seq 0 frames)).

(** Every sequence has [frames] samples of [sz] bytes. *)
Definition sequences_ok (sz frames : nat) (seqs : list (list (list byte))) : Prop :=
  Forall (fun sq => length sq = frames /\ Forall (fun x => length x = sz) sq) seqs.

(** The triple index (o / 48) * 16 + i mod 16 of channel [i] at the
    offset [o]. *)
Definition triple_index (o : Z) (i : nat) : Z := o / 48 * 16 + Z.of_nat i mod 16.

(** The position update of channel [i] at the offset [o]: the triple of
    its group's window at [triple_index], the last coordinate negated. *)
Definition position_call (s : LafStream) (o : Z) (i : nat) : sink_call :=
  let window := nth (i / 16) (mPosTracks s) [] in
  let e := Z.to_nat (triple_index o i * 3) in
  alSource3f_POSITION i (nth e window S754_nan) (nth (e + 1) window S754_nan)
                      (SFopp (nth (e + 2) window S754_nan)).

(** The windows as [LoadLAF] allocates them and the loop keeps them: two
    seconds each, one for every 16 channels, at a positive rate that is a
    multiple of 48. *)
Record positions_ready (s : LafStream) : Prop := {
  ready_pos_rate : 0 < mSampleRate s;
  ready_pos_48 : mSampleRate s mod 48 = 0;
  ready_windows :
    Forall (fun w => length w = Z.to_nat (mSampleRate s * 2)) (mPosTracks s);
  ready_groups : (length (mChannels s) <= 16 * length (mPosTracks s))%nat
}.

(** The position update of every channel stays inside its window. *)
Definition lookups_in_bounds (s : LafStream) (o : Z) : Prop :=
  forall i, (i < length (mChannels s))%nat ->
    (Z.to_nat (triple_index o i * 3 + 2)
     < length (nth (i / 16) (mPosTracks s) []))%nat.

(** The invariant of the playback loop: the state [prepareTrack] relies
    on, every track either a channel or a position track, and the windows
    as [LoadLAF] allocated them. *)
Record stream_ready (s : LafStream) : Prop := {
  sr_chunk : chunk_ready s;
  sr_split :
    Z.of_nat (length (mChannels s)) + Z.of_nat (length (mPosTracks s))
    = mNumTracks s;
  sr_windows :
    Forall (fun w => length w = Z.to_nat (mSampleRate s * 2)) (mPosTracks s);
  sr_groups :
    mPosTracks s <> [] ->
    mSampleRate s mod 48 = 0
    /\ (length (mChannels s) <= 16 * length (mPosTracks s))%nat
}.

(** What an operation of the loop never changes. *)
Definition same_shape (s s' : LafStream) : Prop :=
  mQuality s' = mQuality s /\ mSampleRate s' = mSampleRate s /\
  mNumTracks s' = mNumTracks s /\ mChannels s' = mChannels s /\
  length (mPosTracks s') = length (mPosTracks s).

(** The bytes [0, 1, ..., n-1]. *)
Definition ramp (n : nat) : list byte := map (fun k => byte.of_Z (Z.of_nat k)) (seq 0 n).

(** Two seconds in Objects mode at 48 Hz: an audio track and its position
    track, both enabled in both chunks, 8-bit samples. *)
Definition objects_file : list byte :=
  laf_file 0 1 2 (track_record 0 0 0 ++ track_record 0x7FC00000 0 0) 48 96
           ([Byte.x03] ++ ramp 96 ++ [Byte.x03] ++ ramp 96).

(** The two sample sequences interleaved in a chunk of [objects_file]. *)
Definition objects_sequences : list (list (list byte)) :=
  [map (fun k => [byte.of_Z (Z.of_nat (2 * k))]) (seq 0 48);
   map (fun k => [byte.of_Z (Z.of_nat (2 * k + 1))]) (seq 0 48)].

(** [objects_file] after its first [readChunk]. *)
Definition objects_first_chunk : LafStream :=
  match readChunk (stream_of objects_file) with
  | Ok (_, s) => s
  | Fail _ => LafStream_default
  end.

(** Eight audio tracks in Channels mode, one sample long; the chunk
    enables track 0 only. *)
Definition eight_track_file : list byte :=
  laf_file 0 0 8 (zeros 72) 1 1 [Byte.x01; Byte.x2a].

(** One track of 24-bit samples. *)
Definition int24_file : list byte :=
  laf_file 3 0 1 (track_record 0 0 0) 1 1 [Byte.x01; Byte.x01; Byte.x02; Byte.x03].

(** [int24_file] after its first [readChunk]. *)
Definition int24_first_chunk : LafStream :=
  match readChunk (stream_of int24_file) with
  | Ok (_, s) => s
  | Fail _ => LafStream_default
  end.

(** Headers that must be rejected. *)
Definition bad_magic_file : list byte :=
  list_byte_of_string "LIMITLESX" ++ skipn 9 objects_file.
Definition bad_quality_file : list byte :=
  laf_file 4 0 1 (track_record 0 0 0) 48 48 [].
Definition bad_mode_file : list byte :=
  laf_file 0 2 1 (track_record 0 0 0) 48 48 [].
Definition too_many_tracks_file : list byte :=
  laf_file 0 0 257 (zeros (257 * 9)) 48 48 [].
Definition bad_rate_file : list byte :=
  laf_file 0 1 2 (track_record 0 0 0 ++ track_record 0x7FC00000 0 0) 44100 44100 [].

(** An Objects file without any track. *)
Definition empty_objects_file : list byte := laf_file 0 1 0 [] 48 0 [].

(** An Objects file with an audio track and no position track. *)
Definition no_position_file : list byte :=
  laf_file 0 1 1 (track_record 0 0 0) 48 48 [].

(** A record with a NaN elevation and the azimuth 1.0. *)
Definition nan_record_file : list byte :=
  laf_file 0 0 1 (track_record 0x7FC00000 0x3F800000 0) 48 48 [].

Definition playing (processed offset : Z) : observation :=
  {| processed := processed; offset := offset; state := AL_PLAYING |}.

Definition initial : observation :=
  {| processed := 0; offset := 0; state := AL_INITIAL |}.

(** [zero_rate_file] after its first [readChunk]. *)
Definition zero_rate_stalled : LafStream :=
  match readChunk (stream_of zero_rate_file) with
  | Ok (_, s) => s
  | Fail _ => LafStream_default
  end.

(** One audio track in Channels mode whose azimuth is +infinity. *)
Definition infinite_azimuth_file : list byte :=
  laf_file 0 0 1 (track_record 0 0x7F800000 0) 48 48 [].

(** The channel the loop of [LoadLAF] makes of an audio track record
    (lines 443-446). *)
Definition channel_of_record (rec : list byte) : Channel :=
  {| mAzimuth := record_azimuth rec;
     mElevation := record_elevation rec;
     mIsLfe := negb (char_to_int (nth 8 rec Byte.x00) =? 0) |}.

(** The values of the enumerators of [Quality] and [Mode]. *)
Definition quality_code (q : Quality) : Z :=
  match q with s8 => 0 | s16 => 1 | f32 => 2 | s24 => 3 end.

Definition mode_code (m : Mode) : Z :=
  match m with Channels => 0 | Objects => 1 end.

(** An LFE track at azimuth 1.0 whose elevation has the bit pattern 2, in
    a stream of one sample at 1 Hz. *)
Definition lfe_file : list byte :=
  laf_file 0 0 1 (track_record 2 0x3F800000 1) 1 1 [].

(** Elevation and azimuth of a track record are finite. *)
Definition finite_record (rec : list byte) : Prop :=
  isfinite (record_elevation rec) = true /\ isfinite (record_azimuth rec) = true.

(** Two tracks of 16-bit samples, 96 samples at 48 Hz, without any
    chunk. *)
Definition truncated_file : list byte :=
  laf_file 1 0 2 (track_record 0 0 0 ++ track_record 0 0 0) 48 96 [].

(** A stream that differs from [s] in the mono line only. *)
Definition same_chunk (s st : LafStream) : Prop :=
  st = set_chunk s (mSampleChunk st) /\
  length (mSampleChunk st) = length (mSampleChunk s) /\
  firstn (fst (mSampleLine s)) (mSampleChunk st)
  = firstn (fst (mSampleLine s)) (mSampleChunk s).

(** The failures the playback loop can end in on a well-formed stream of
    the given quality: the assertion on the bitmap of a chunk (line 269),
    and for 24-bit samples their refusal (lines 176 and 358). *)
Definition expected_failure (quality : Quality) (f : failure) : Prop :=
  f = Abort 269 \/ (f = Throw SamplesNotSupported24 /\ quality = s24).

(** A computation returns a result that satisfies [P], or ends in an
    expected failure. *)
Definition safely {A} (quality : Quality) (P : A -> Prop) (m : traced A) : Prop :=
  match snd m with
  | Ok a => P a
  | Fail f => expected_failure quality f
  end.

(** The sink reports an offset inside the two seconds that are queued. *)
Definition offset_in_window (s : LafStream) (obs : observation) : Prop :=
  mPosTracks s <> [] ->
  0 < mSampleRate s /\ 0 <= offset obs < 2 * mSampleRate s /\ offset obs < 2 ^ 31.

(** A Channels file without tracks, 48 samples at 48 Hz. *)
Definition no_tracks_file : list byte := laf_file 0 0 0 [] 48 48 [].

(** The bytes [prepareTrack] returns for track [t] of the chunk held by
    [s]. *)
Definition track_samples (ndebug : bool) (s : LafStream) (t : nat) (count : Z)
    : list byte :=
  match prepareTrack ndebug s (Z.of_nat t) count with
  | Ok (sp, s') => span_bytes sp s'
  | Fail _ => []
  end.

(** The calls by which the loop refills the processed buffer of channel
    [i] (lines 570-573). *)
Definition refill_calls (format : ALformat) (data : nat -> list byte)
    (size rate : Z) (i : nat) : list sink_call :=
  [alSourceUnqueueBuffers i;
   alBufferData (Unqueued i) format (data i) size rate;
   alSourceQueueBuffers i [Unqueued i]].

(** The conversion of an 8-bit position sample (line 288). *)
Definition position_of_int8 (b : byte) : spec_float :=
  float_div (float_of_int (char_to_int b)) (float_of_int 127).

(** Two streams that differ in the mono line and in the position windows
    only. *)
Definition same_source (s st : LafStream) : Prop :=
  mInFile st = mInFile s /\ mQuality st = mQuality s /\ mMode st = mMode s /\
  mSampleRate st = mSampleRate s /\ mSampleCount st = mSampleCount s /\
  mNumTracks st = mNumTracks s /\ mCurrentSample st = mCurrentSample s /\
  mEnabledTracks st = mEnabledTracks s /\ mNumEnabled st = mNumEnabled s /\
  mSampleLine st = mSampleLine s /\ mChannels st = mChannels s /\
  length (mSampleChunk st) = length (mSampleChunk s) /\
  firstn (fst (mSampleLine s)) (mSampleChunk st)
  = firstn (fst (mSampleLine s)) (mSampleChunk s).

(** The calls that fill the first buffer of channel [i] (lines 601-603)
    and those that fill and queue the second one (lines 615-619). *)
Definition first_buffer_calls (format : ALformat) (data : nat -> list byte)
    (size rate : Z) (i : nat) : list sink_call :=
  [alBufferData (ChannelBuffer i 0) format (data i) size rate].

Definition second_buffer_calls (format : ALformat) (data : nat -> list byte)
    (size rate : Z) (i : nat) : list sink_call :=
  [alBufferData (ChannelBuffer i 1) format (data i) size rate;
   alSourceQueueBuffers i [ChannelBuffer i 0; ChannelBuffer i 1]].

Definition is_position_call (c : sink_call) : bool :=
  match c with
  | alSource3f_POSITION _ _ _ _ => true
  | _ => false
  end.

(** A well-formed file of 40 bytes that asks for much memory: one track of
    32-bit float samples at a sample rate of 2^32 - 1. *)
Definition huge_rate_file : list byte :=
  laf_file 2 0 1 (track_record 0 0 0) 0xFFFFFFFF 1 [].

(** An allocator that grants requests of up to 2^30 bytes. *)
Definition one_gigabyte : allocator := fun _ bytes => bytes <=? 2 ^ 30.

(** Modelled after the claim: the playback offset within the current
    one-second window, for an offset that the sink counts over the two
    queued seconds. *)
Definition offset_within_second (rate o : Z) : Z := o mod rate.

(** The position update that the claim describes for channel [i]. *)
Definition claimed_position_call (s : LafStream) (o : Z) (i : nat) : sink_call :=
  position_call s (offset_within_second (mSampleRate s) o) i.

(** Three seconds in Objects mode at 48 Hz, an audio track and its
    position track, 8-bit samples; the second chunk differs from the
    first. *)
Definition moving_file : list byte :=
  laf_file 0 1 2 (track_record 0 0 0 ++ track_record 0x7FC00000 0 0) 48 144
           ([Byte.x03] ++ ramp 96 ++ [Byte.x03] ++ rev (ramp 96)
            ++ [Byte.x03] ++ ramp 96).

(** [moving_file] after the iteration that observes AL_INITIAL: two seconds
    are queued, one is left to read. *)
Definition moving_stream : LafStream :=
  match snd (play_loop false (stream_of moving_file) [initial]) with
  | Ok s => s
  | Fail _ => LafStream_default
  end.

(** * Proofs *)

(** ** Outcomes and streams *)

Lemma alassert_Ok line cond u : alassert line cond = Ok u -> cond = true.
Proof. unfold alassert. destruct cond; [reflexivity | discriminate]. Qed.

Lemma alassert_Fail line cond f :
  alassert line cond = Fail f -> f = Abort line /\ cond = false.
Proof. unfold alassert. destruct cond; [discriminate | intros H; inversion H; auto]. Qed.

Lemma bind_Ok {A B} (r : result A) (k : A -> result B) b :
  bind r k = Ok b -> exists a, r = Ok a /\ k a = Ok b.
Proof. destruct r; cbn; [eauto | discriminate]. Qed.

Lemma bind_Fail {A B} (r : result A) (k : A -> result B) f :
  bind r k = Fail f -> r = Fail f \/ exists a, r = Ok a /\ k a = Fail f.
Proof. destruct r; cbn; [eauto | intros H; inversion H; auto]. Qed.

Lemma bytes_eqb_eq a b : bytes_eqb a b = true -> a = b.
Proof. unfold bytes_eqb. destruct (list_eq_dec _ a b); [auto | discriminate]. Qed.

Lemma bytes_eqb_neq a b : a <> b -> bytes_eqb a b = false.
Proof. unfold bytes_eqb. destruct (list_eq_dec _ a b); [contradiction | auto]. Qed.

Lemma ifstream_read_good f n got f' :
  ifstream_read f n = (got, f') -> good f' = true ->
  good f = true /\ (Z.to_nat n <= length (remaining f))%nat /\
  got = firstn (Z.to_nat n) (remaining f) /\
  remaining f' = skipn (Z.to_nat n) (remaining f).
Proof.
  unfold ifstream_read. destruct (good f) eqn:G.
  - destruct (Nat.leb_spec (Z.to_nat n) (length (remaining f))); intros E; inversion E; subst; cbn.
    + auto.
    + discriminate.
  - intros E; inversion E; subst. congruence.
Qed.

Lemma ifstream_read_length f n got f' :
  ifstream_read f n = (got, f') -> (length got <= Z.to_nat n)%nat.
Proof.
  unfold ifstream_read. destruct (good f).
  - destruct (Nat.leb_spec (Z.to_nat n) (length (remaining f))); intros E; inversion E; subst.
    + rewrite length_firstn. lia.
    + lia.
  - intros E; inversion E; subst. cbn. lia.
Qed.

Lemma char_to_int_small b k :
  0 <= k < 128 -> (char_to_int b =? k) = (byte.unsigned b =? k).
Proof.
  intros Hk. unfold char_to_int. pose proof (byte.unsigned_range b) as Hb.
  destruct (Z.ltb_spec (byte.unsigned b) 128); [reflexivity|].
  destruct (Z.eqb_spec (byte.unsigned b - 256) k), (Z.eqb_spec (byte.unsigned b) k); try reflexivity; lia.
Qed.

Lemma quality_of_stype_Ok b q :
  quality_of_stype (char_to_int b) = Ok q -> 0 <= byte.unsigned b <= 3.
Proof.
  unfold quality_of_stype. rewrite !char_to_int_small by lia.
  repeat match goal with |- context [?a =? ?b] => destruct (Z.eqb_spec a b) end;
    try discriminate; lia.
Qed.

Lemma quality_of_stype_Fail z f :
  quality_of_stype z = Fail f -> is_FormatError f = true.
Proof.
  unfold quality_of_stype.
  repeat match goal with |- context [?a =? ?b] => destruct (Z.eqb_spec a b) end;
    try discriminate. intros H; inversion H; reflexivity.
Qed.

Lemma mode_of_code_Ok b m :
  mode_of_code (char_to_int b) = Ok m ->
  (byte.unsigned b = 0 /\ m = Channels) \/ (byte.unsigned b = 1 /\ m = Objects).
Proof.
  unfold mode_of_code. rewrite !char_to_int_small by lia.
  repeat match goal with |- context [?a =? ?b] => destruct (Z.eqb_spec a b) end;
    try discriminate; intros H; inversion H; auto.
Qed.

Lemma mode_of_code_Fail z f :
  mode_of_code z = Fail f -> is_FormatError f = true.
Proof.
  unfold mode_of_code.
  repeat match goal with |- context [?a =? ?b] => destruct (Z.eqb_spec a b) end;
    try discriminate. intros H; inversion H; reflexivity.
Qed.

(** ** Slices *)

Lemma slice_length {A} off len (l : list A) :
  (off + len <= length l)%nat -> length (slice off len l) = len.
Proof. intros H. unfold slice. rewrite length_firstn, length_skipn. lia. Qed.

Lemma slice_length_le {A} off len (l : list A) :
  (length (slice off len l) <= len)%nat.
Proof. unfold slice. rewrite length_firstn. lia. Qed.

Lemma slice_slice {A} a n b m (l : list A) :
  (a + n <= m)%nat -> slice a n (slice b m l) = slice (b + a) n l.
Proof.
  intros H. unfold slice.
  rewrite skipn_firstn_comm, firstn_firstn, skipn_skipn.
  f_equal; [lia | f_equal; lia].
Qed.

Lemma nth_slice {A} k b m (l : list A) d :
  (k < m)%nat -> nth k (slice b m l) d = nth (b + k) l d.
Proof.
  intros H. unfold slice. rewrite nth_firstn.
  destruct (Nat.ltb_spec k m); [| lia].
  rewrite nth_skipn. reflexivity.
Qed.

Lemma slice_0_firstn {A} n (l : list A) : firstn n l = slice 0 n l.
Proof. reflexivity. Qed.

Lemma slice_skipn {A} a b n (l : list A) :
  slice a n (skipn b l) = slice (b + a) n l.
Proof. unfold slice. rewrite skipn_skipn. f_equal. f_equal. lia. Qed.

(** ** The track loop of LoadLAF *)

Lemma load_track_Ok mode i rec chs pos chs' pos' :
  load_track mode i rec (chs, pos) = Ok (chs', pos') ->
  (is_marker rec = true /\ mode = Objects /\ i <> 0 /\
   chs' = chs /\ pos' = pos ++ [[]])
  \/ (is_marker rec = false /\ pos = [] /\ pos' = [] /\
      exists ch, finite_channel ch /\ chs' = chs ++ [ch]).
Proof.
  unfold load_track, is_marker, record_elevation, record_azimuth.
  destruct (_ && _) eqn:M.
  - intros H. apply bind_Ok in H as (? & H1 & H).
    apply bind_Ok in H as (? & H2 & H). inversion H; subst.
    apply alassert_Ok in H1, H2. left. repeat split; auto.
    + destruct mode; [discriminate | reflexivity].
    + intros ->. discriminate.
  - intros H. apply bind_Ok in H as (? & H1 & H).
    apply bind_Ok in H as (? & H2 & H). inversion H; subst.
    apply alassert_Ok in H1, H2. right.
    destruct pos' as [|? ?]; [| discriminate].
    apply andb_true_iff in H2 as [Hx Hy].
    repeat split; auto. eexists; split; [| reflexivity]. split; cbn; assumption.
Qed.

Lemma load_track_Fail mode i rec acc f :
  load_track mode i rec acc = Fail f -> exists line, f = Abort line.
Proof.
  unfold load_track. destruct acc as [chs pos].
  destruct (_ && _).
  - intros H. apply bind_Fail in H as [H | (? & _ & H)].
    + apply alassert_Fail in H as [-> _]; eauto.
    + apply bind_Fail in H as [H | (? & _ & H)]; [| discriminate].
      apply alassert_Fail in H as [-> _]; eauto.
  - intros H. apply bind_Fail in H as [H | (? & _ & H)].
    + apply alassert_Fail in H as [-> _]; eauto.
    + apply bind_Fail in H as [H | (? & _ & H)]; [| discriminate].
      apply alassert_Fail in H as [-> _]; eauto.
Qed.

Lemma is_nan_float_ne x : float_ne x x = is_nan x.
Proof.
  unfold float_ne, SFeqb, SFcompare.
  destruct x as [s | s | | s m e]; try (destruct s; reflexivity); [reflexivity |].
  assert (Hm : PosDef.Pos.compare_cont Eq m m = Eq) by apply Pos.compare_refl.
  destruct s; cbn; rewrite Z.compare_refl, Hm; reflexivity.
Qed.

Lemma malformed_record_rejected mode i rec acc :
  malformed_record rec -> exists line, load_track mode i rec acc = Fail (Abort line).
Proof.
  intros Hbad. unfold load_track. destruct acc as [chs pos].
  fold (record_elevation rec). fold (record_azimuth rec).
  rewrite is_nan_float_ne.
  assert (Hm : is_nan (record_elevation rec) && float_is_zero (record_azimuth rec) = false).
  { destruct Hbad as [[Hn Hz] | [Hi | Hi]].
    - rewrite Hz. apply andb_false_r.
    - destruct (record_elevation rec); try discriminate; reflexivity.
    - destruct (record_azimuth rec) as [| [|] | |]; try discriminate;
        cbn; apply andb_false_r. }
  rewrite Hm.
  assert (Hf : isfinite (record_elevation rec) && isfinite (record_azimuth rec) = false).
  { destruct Hbad as [[Hn Hz] | [Hi | Hi]].
    - destruct (record_elevation rec); try discriminate; reflexivity.
    - destruct (record_elevation rec); try discriminate; reflexivity.
    - destruct (record_azimuth rec); try discriminate; apply andb_false_r. }
  rewrite Hf.
  destruct pos; cbn; eauto.
Qed.

Lemma load_tracks_Fail mode chandata n : forall i acc f,
  load_tracks mode chandata i n acc = Fail f -> exists line, f = Abort line.
Proof.
  induction n as [|n IH]; intros i acc f; cbn [load_tracks].
  - discriminate.
  - intros H. apply bind_Fail in H as [H | (acc' & _ & H)].
    + eapply load_track_Fail; eauto.
    + eapply IH; eauto.
Qed.

(** What a successful run of the loop leaves behind. *)
Lemma load_tracks_Ok mode chandata n : forall i chs pos chs' pos',
  load_tracks mode chandata i n (chs, pos) = Ok (chs', pos') ->
  Forall finite_channel chs ->
  (pos <> [] -> mode = Objects) ->
  (length chs' + length pos' = length chs + length pos + n)%nat /\
  Forall finite_channel chs' /\
  (pos' <> [] -> mode = Objects) /\
  (forall k, (k < n)%nat ->
     ~ malformed_record (slice (Z.to_nat ((i + Z.of_nat k) * 9)) 9 chandata)).
Proof.
  induction n as [|n IH]; intros i chs pos chs' pos'; cbn [load_tracks].
  - intros H; inversion H; subst. intros. repeat split; auto; try (intros; lia).
  - intros H Hfin Hmode. apply bind_Ok in H as ([chs1 pos1] & H1 & H).
    assert (Hrec : ~ malformed_record (slice (Z.to_nat (i * 9)) 9 chandata)).
    { intros Hbad.
      destruct (malformed_record_rejected mode i _ (chs, pos) Hbad) as [line E].
      congruence. }
    apply load_track_Ok in H1.
    assert (Hfin1 : Forall finite_channel chs1).
    { destruct H1 as [(_ & _ & _ & -> & _) | (_ & _ & _ & ch & Hch & ->)]; auto.
      apply Forall_app; auto. }
    assert (Hmode1 : pos1 <> [] -> mode = Objects).
    { destruct H1 as [(_ & -> & _) | (_ & _ & -> & _)]; auto. }
    assert (Hlen1 : (length chs1 + length pos1 = length chs + length pos + 1)%nat).
    { destruct H1 as [(_ & _ & _ & -> & ->) | (_ & -> & -> & ch & _ & ->)];
        rewrite length_app; cbn; lia. }
    destruct (IH _ _ _ _ _ H Hfin1 Hmode1) as (L & F & M & R).
    repeat split; auto; [lia |].
    intros k Hk. destruct k as [|k].
    + replace (i + Z.of_nat 0) with i by lia. exact Hrec.
    + replace (i + Z.of_nat (S k)) with (i + 1 + Z.of_nat k) by lia.
      apply R. lia.
Qed.

Ltac walk_Ok H :=
  repeat first
    [ match type of H with
      | (let '(_, _) := ?p in _) = _ => destruct p eqn:?
      end
    | let a := fresh "a" in let E := fresh "E" in
      apply bind_Ok in H as (a & E & H) ].

Lemma read_uint_bound bs n :
  length bs = n -> 0 <= read_uint bs < 2 ^ (8 * Z.of_nat n).
Proof. intros <-. apply le_combine_bound. Qed.

Lemma BytesFromQuality_range q : 1 <= BytesFromQuality q <= 4.
Proof. destruct q; cbn; lia. Qed.

Lemma resize_Ok heap k bytes :
  resize heap k bytes = Ok tt <-> bytes = 0 \/ heap k bytes = true.
Proof.
  unfold resize. destruct (Z.eqb_spec bytes 0) as [-> | Hb]; cbn [orb].
  - split; auto.
  - destruct (heap k bytes); split; intros H; auto; try discriminate.
    destruct H; [contradiction | discriminate].
Qed.

Lemma resize_Fail heap k bytes f :
  resize heap k bytes = Fail f ->
  f = Throw bad_alloc /\ bytes <> 0 /\ heap k bytes = false.
Proof.
  unfold resize. destruct (Z.eqb_spec bytes 0); cbn [orb]; [discriminate |].
  destruct (heap k bytes); [discriminate |].
  intros H. inversion H. auto.
Qed.

Lemma resize_plenty k bytes : resize plenty k bytes = Ok tt.
Proof. apply resize_Ok. right. reflexivity. Qed.

(** The windows the loop of lines 483-484 leaves when every request is
    granted. *)
Lemma resize_windows_Ok heap rate : forall postracks i windows,
  resize_windows heap rate i postracks = Ok windows ->
  windows = map (fun _ => empty_window rate) postracks.
Proof.
  induction postracks as [|w rest IH]; intros i windows; cbn [resize_windows map].
  - intros H. inversion H. reflexivity.
  - intros H. apply bind_Ok in H as (? & _ & H).
    apply bind_Ok in H as (rest' & Hr & H). inversion H; subst.
    f_equal. eapply IH. exact Hr.
Qed.

Lemma resize_windows_Fail heap rate : forall postracks i f,
  resize_windows heap rate i postracks = Fail f -> f = Throw bad_alloc.
Proof.
  induction postracks as [|w rest IH]; intros i f; cbn [resize_windows].
  - discriminate.
  - intros H. apply bind_Fail in H as [H | (? & _ & H)].
    + apply resize_Fail in H. apply H.
    + apply bind_Fail in H as [H | (? & _ & H)]; [| discriminate].
      eapply IH. exact H.
Qed.

(** Which request the loop of lines 483-484 was refused, and that a loop
    that came through was refused none. *)
Lemma resize_windows_refused heap rate : forall postracks i f,
  resize_windows heap rate i postracks = Fail f ->
  exists k, (k < length postracks)%nat /\ rate <> 0 /\
            heap (i + k)%nat (rate * 2 * 4) = false.
Proof.
  induction postracks as [|w rest IH]; intros i f; cbn [resize_windows].
  - discriminate.
  - intros H. apply bind_Fail in H as [H | (? & _ & H)].
    + apply resize_Fail in H as (_ & Hn & Hh). exists 0%nat.
      rewrite Nat.add_0_r. cbn [length]. repeat split; [lia | lia | exact Hh].
    + apply bind_Fail in H as [H | (? & _ & H)]; [| discriminate].
      destruct (IH _ _ H) as (k & Hk & Hr & Hh). exists (S k).
      replace (i + S k)%nat with (S i + k)%nat by lia.
      cbn [length]. repeat split; [lia | exact Hr | exact Hh].
Qed.

Lemma resize_windows_granted heap rate : forall postracks i windows,
  resize_windows heap rate i postracks = Ok windows ->
  forall k, (k < length postracks)%nat ->
    rate = 0 \/ heap (i + k)%nat (rate * 2 * 4) = true.
Proof.
  induction postracks as [|w rest IH]; intros i windows; cbn [resize_windows length].
  - intros _ k Hk. lia.
  - intros H k Hk. apply bind_Ok in H as ([] & Hr & H).
    apply bind_Ok in H as (rest' & Hrest & _).
    destruct k as [|k].
    + rewrite Nat.add_0_r. apply resize_Ok in Hr as [Hr | Hr]; [left; lia | right; exact Hr].
    + replace (i + S k)%nat with (S i + k)%nat by lia.
      apply (IH _ _ Hrest). lia.
Qed.

Lemma resize_windows_plenty rate : forall postracks i,
  resize_windows plenty rate i postracks
  = Ok (map (fun _ => empty_window rate) postracks).
Proof.
  induction postracks as [|w rest IH]; intros i; cbn [resize_windows map].
  - reflexivity.
  - rewrite resize_plenty. cbn [bind]. rewrite IH. reflexivity.
Qed.

Lemma LoadLAF_Ok ndebug heap c laf :
  LoadLAF ndebug heap c = Ok laf -> loaded ndebug c laf.
Proof.
  unfold LoadLAF. intros H. walk_Ok H.
  apply alassert_Ok in E, E0, E1, E2, E9, E10.
  apply resize_windows_Ok in E11. subst a11.
  destruct (ifstream_read_good _ _ _ _ Heqp E) as (_ & L9 & -> & R9).
  destruct (ifstream_read_good _ _ _ _ Heqp0 E1) as (_ & L10 & -> & R10).
  destruct (ifstream_read_good _ _ _ _ Heqp3 E9) as (_ & L12 & -> & R12).
  cbn [ifstream_open remaining] in *. rewrite R9 in *.
  change (Z.to_nat 9) with 9%nat in *. change (Z.to_nat 10) with 10%nat in *.
  change (Z.to_nat 12) with 12%nat in *.
  apply bytes_eqb_eq in E0, E2.
  change (firstn 10 (skipn 9 c)) with (slice 9 10 c) in *.
  rewrite slice_slice in E2 by lia.
  rewrite !(slice_slice 6 4 9 10) in * by lia.
  rewrite !nth_slice in E3, E4 by lia.
  cbn [Nat.add] in *. unfold read_uint in *.
  fold (file_track_count c) in *.
  assert (HN : 0 <= file_track_count c <= 256).
  { unfold file_track_count. pose proof (le_combine_bound (slice 15 4 c)).
    fold (file_track_count c) in *. cbn [length] in *. revert E5.
    destruct (Z.ltb_spec 256 (file_track_count c)); [discriminate | lia]. }
  (* the track records and the footer *)
  assert (Hdata : l1 = chandata_of ndebug c /\ firstn 12 (remaining i1) = footer_of ndebug c).
  { unfold chandata_of, footer_of. destruct ndebug.
    - inversion E6; subst. rewrite R10. unfold slice. rewrite skipn_skipn.
      split; reflexivity.
    - destruct (ifstream_read i0 _) as [got f3] eqn:R.
      apply bind_Ok in E6 as (? & G & E6). inversion E6; subst.
      apply alassert_Ok in G.
      destruct (ifstream_read_good _ _ _ _ R G) as (_ & _ & -> & ->).
      rewrite R10. unfold slice. rewrite !skipn_skipn. split.
      + reflexivity.
      + do 2 f_equal. lia. }
  destruct Hdata as [-> Hfoot]. rewrite Hfoot in *.
  assert (Hflen : length (footer_of ndebug c) = 12%nat).
  { rewrite <- Hfoot. rewrite length_firstn. lia. }
  assert (HR : 0 <= le_combine (slice 0 4 (footer_of ndebug c)) < 2 ^ 32).
  { apply (read_uint_bound _ 4). apply slice_length. lia. }
  inversion H; subst; clear H.
  pose proof (BytesFromQuality_range a3) as HB.
  constructor; cbn [mMode mNumTracks mChannels mPosTracks mSampleRate mSampleCount
                    mCurrentSample mEnabledTracks mNumEnabled mSampleChunk mSampleLine mQuality].
  - exact E0.
  - exact E2.
  - eapply quality_of_stype_Ok; exact E3.
  - apply mode_of_code_Ok in E4. exact E4.
  - reflexivity.
  - exact HN.
  - exists l3. split; [exact E7 | reflexivity].
  - intros ->. cbn in E8. apply alassert_Ok in E8.
    rewrite length_map. apply Z.eqb_eq. exact E8.
  - exact Hflen.
  - reflexivity.
  - reflexivity.
  - destruct a4; [left; reflexivity | right].
    cbn in E10. apply Z.eqb_eq in E10. exact E10.
  - reflexivity.
  - reflexivity.
  - reflexivity.
  - unfold u64. rewrite Z.mod_small; [reflexivity | nia].
  - unfold u64. rewrite Z.mod_small by nia. f_equal. nia.
Qed.

(** [LoadLAF] fails on a check of the format, or for want of memory. *)
Lemma LoadLAF_Fail ndebug heap c f :
  LoadLAF ndebug heap c = Fail f ->
  is_FormatError f = true \/ f = Throw bad_alloc.
Proof.
  unfold LoadLAF. intros H.
  repeat first
    [ match type of H with
      | (let '(_, _) := ?p in _) = _ => destruct p eqn:?
      end
    | let E := fresh "E" in
      apply bind_Fail in H as [E | (? & _ & H)];
      [ first [ apply alassert_Fail in E as [-> _]; left; reflexivity
              | apply quality_of_stype_Fail in E; left; exact E
              | apply mode_of_code_Fail in E; left; exact E
              | apply resize_windows_Fail in E; right; exact E
              | apply resize_Fail in E as [-> _]; right; reflexivity
              | idtac ] | ] ];
    try discriminate.
  - destruct (256 <? _); [inversion E; left; reflexivity | discriminate].
  - destruct ndebug; [discriminate |].
    destruct (ifstream_read i0 _).
    apply bind_Fail in E as [E | (? & _ & E)]; [| discriminate].
    apply alassert_Fail in E as [-> _]; left; reflexivity.
  - apply load_tracks_Fail in E as [line ->]. left. reflexivity.
  - destruct (Mode_eqb _ _); [| discriminate].
    apply alassert_Fail in E as [-> _]; left; reflexivity.
Qed.

Ltac close_format Hf :=
  match type of Hf with
  | is_FormatError ?f = true =>
      destruct f as [? | [] | ?]; try discriminate Hf; reflexivity
  end.

(** The allocator decides nothing but whether [LoadLAF] runs out of memory:
    a stream that is returned is the one returned when every request is
    granted, a failure of the format is the same under every allocator, and
    [std::bad_alloc] is thrown exactly for a file that passes every check
    and a request that is refused. *)
Lemma LoadLAF_plenty ndebug heap c :
  match LoadLAF ndebug heap c with
  | Ok laf => LoadLAF ndebug plenty c = Ok laf /\ ~ refused heap laf
  | Fail (Throw bad_alloc) =>
      exists laf, LoadLAF ndebug plenty c = Ok laf /\ refused heap laf
  | Fail f => LoadLAF ndebug plenty c = Fail f
  end.
Proof.
  unfold LoadLAF.
  repeat first
    [ match goal with
      | |- context [let '(_, _) := ifstream_read ?f ?n in _] =>
          destruct (ifstream_read f n)
      end
    | match goal with
      | |- match bind ?r _ with _ => _ end =>
          lazymatch r with
          | resize_windows _ _ _ _ => fail
          | _ =>
            let E := fresh "E" in
            destruct r as [? | ?f] eqn:E; cbn [bind];
            [ | first [ apply alassert_Fail in E as [-> _]; reflexivity
                      | apply quality_of_stype_Fail in E; close_format E
                      | apply mode_of_code_Fail in E; close_format E
                      | apply load_tracks_Fail in E as [? ->]; reflexivity
                      | idtac ] ]
          end
      end
    | match goal with
      | |- context [let '(_, _) := ?p in _] => is_var p; destruct p
      end ].
  - rewrite resize_windows_plenty, resize_plenty. cbn [bind].
    destruct (resize_windows heap _ 0 l5) as [w | f] eqn:Ew; cbn [bind].
    + pose proof (resize_windows_granted _ _ _ _ _ Ew) as Hg.
      apply resize_windows_Ok in Ew. subst w.
      destruct (resize heap _ _) as [[] | f] eqn:Er; cbn [bind].
      * split; [reflexivity |]. apply resize_Ok in Er.
        unfold refused. cbn [mPosTracks mSampleRate mSampleChunk].
        rewrite length_map. unfold zeros. rewrite repeat_length.
        rewrite Z2Nat.id by (unfold u64; apply Z.mod_pos_bound; lia).
        intros [(j & Hj & Hr & Hh) | (Hne & Hh)].
        -- destruct (Hg j Hj) as [H0 | H1]; [contradiction |].
           cbn [Nat.add] in H1. congruence.
        -- destruct Er as [Er | Er]; [| congruence].
           apply Hne. rewrite Er. reflexivity.
      * apply resize_Fail in Er as (-> & Hn & Hh). eexists. split; [reflexivity |].
        right. cbn [mPosTracks mSampleChunk]. rewrite length_map.
        unfold zeros. rewrite repeat_length.
        rewrite Z2Nat.id by (unfold u64; apply Z.mod_pos_bound; lia).
        split; [| exact Hh].
        intros Hz. apply Hn.
        pose proof (Z.mod_pos_bound
                      (read_uint (slice 0 4 l3) * BytesFromQuality a3
                       * (read_uint (slice 6 4 l0) + 1)) (2 ^ 64) ltac:(lia)) as Hb.
        fold (u64 (read_uint (slice 0 4 l3) * BytesFromQuality a3
                   * (read_uint (slice 6 4 l0) + 1))) in Hb.
        match type of Hz with
        | repeat _ (Z.to_nat ?n) = [] =>
            destruct (Z.to_nat n) eqn:En; [lia | discriminate Hz]
        end.
    + pose proof (resize_windows_Fail _ _ _ _ _ Ew). subst f.
      apply resize_windows_refused in Ew as (k & Hk & Hr & Hh).
      eexists. split; [reflexivity |]. left.
      cbn [mPosTracks mSampleRate]. rewrite length_map. exists k. auto.
  - destruct (Mode_eqb _ _); [| discriminate E8].
    apply alassert_Fail in E8 as [-> _]. reflexivity.
  - destruct ndebug; [discriminate E6 |].
    apply bind_Fail in E6 as [E6 | (? & _ & E6)]; [| discriminate E6].
    apply alassert_Fail in E6 as [-> _]. reflexivity.
  - destruct (256 <? _); [inversion E5; subst; reflexivity | discriminate E5].
Qed.

Lemma LoadLAF_Ok_plenty ndebug heap c laf :
  LoadLAF ndebug heap c = Ok laf -> LoadLAF ndebug plenty c = Ok laf.
Proof.
  intros E. pose proof (LoadLAF_plenty ndebug heap c) as H.
  rewrite E in H. apply H.
Qed.

Lemma LoadLAF_bad_alloc ndebug heap c :
  LoadLAF ndebug heap c = Fail (Throw bad_alloc) ->
  exists laf, LoadLAF ndebug plenty c = Ok laf /\ refused heap laf.
Proof.
  intros E. pose proof (LoadLAF_plenty ndebug heap c) as H.
  rewrite E in H. exact H.
Qed.

(** A file that does not load when every request is granted fails on a check
    of the format under every allocator. *)
Lemma LoadLAF_rejected ndebug heap c :
  (forall laf, LoadLAF ndebug plenty c <> Ok laf) ->
  exists f, LoadLAF ndebug heap c = Fail f /\ is_FormatError f = true.
Proof.
  intros Hno. destruct (LoadLAF ndebug heap c) as [laf | f] eqn:E.
  - apply LoadLAF_Ok_plenty in E. destruct (Hno _ E).
  - exists f. split; [reflexivity |].
    destruct (LoadLAF_Fail _ _ _ _ E) as [Hf | ->]; [exact Hf |].
    apply LoadLAF_bad_alloc in E as (laf & E & _). destruct (Hno _ E).
Qed.

Lemma LoadLAF_plenty_Fail ndebug heap c f :
  LoadLAF ndebug plenty c = Fail f -> LoadLAF ndebug heap c = Fail f.
Proof.
  intros E. pose proof (LoadLAF_plenty ndebug heap c) as H.
  destruct (LoadLAF ndebug heap c) as [laf | g].
  - destruct H as [H _]. congruence.
  - destruct g as [line | e | line]; try congruence.
    destruct e; try congruence. destruct H as (laf & H & _). congruence.
Qed.

(** A file that loads when every request is granted loads under an
    allocator exactly when it refuses none of them; otherwise
    [std::bad_alloc] is thrown. *)
Lemma LoadLAF_heap ndebug heap c laf :
  LoadLAF ndebug plenty c = Ok laf ->
  (LoadLAF ndebug heap c = Ok laf /\ ~ refused heap laf)
  \/ (LoadLAF ndebug heap c = Fail (Throw bad_alloc) /\ refused heap laf).
Proof.
  intros E. pose proof (LoadLAF_plenty ndebug heap c) as H.
  destruct (LoadLAF ndebug heap c) as [laf' | g].
  - destruct H as [H Hr]. left. rewrite E in H. inversion H; subst. auto.
  - destruct g as [line | e | line]; try congruence.
    destruct e; try congruence. destruct H as (laf' & H & Hr).
    right. rewrite E in H. inversion H; subst. auto.
Qed.

Lemma loop_records_S chandata i n :
  loop_records chandata i (S n)
  = slice (Z.to_nat (i * 9)) 9 chandata :: loop_records chandata (i + 1) n.
Proof.
  unfold loop_records. cbn [seq map]. f_equal.
  - do 3 f_equal. lia.
  - rewrite <- seq_shift, map_map. apply map_ext. intros k.
    do 3 f_equal. lia.
Qed.

Lemma load_tracks_counts mode chandata n : forall i chs pos chs' pos',
  load_tracks mode chandata i n (chs, pos) = Ok (chs', pos') ->
  length pos' = (length pos + length (filter is_marker (loop_records chandata i n)))%nat /\
  length chs' = (length chs
                 + length (filter (fun r => negb (is_marker r))
                                  (loop_records chandata i n)))%nat.
Proof.
  induction n as [|n IH]; intros i chs pos chs' pos'.
  - cbn. intros H; inversion H; subst. lia.
  - rewrite loop_records_S. cbn [load_tracks filter].
    intros H. apply bind_Ok in H as ([chs1 pos1] & H1 & H).
    apply IH in H as [HP HA]. apply load_track_Ok in H1.
    destruct H1 as [(M & _ & _ & -> & ->) | (M & -> & -> & ch & _ & ->)];
      rewrite M; cbn [negb length]; rewrite ?length_app in *; cbn [length] in *; lia.
Qed.

Lemma file_records_loop c :
  file_records c = loop_records (chandata_of false c) 0 (Z.to_nat (file_track_count c)).
Proof.
  unfold file_records, loop_records, chandata_of, file_track_record.
  apply map_ext_in. intros k Hk. apply in_seq in Hk.
  rewrite slice_slice by lia. f_equal. lia.
Qed.

Lemma skip_repeat {A} (a : A) n : forall m, skipn n (repeat a m) = repeat a (m - n).
Proof.
  induction n as [|n IH]; intros [|m]; cbn; auto.
Qed.

Lemma first_repeat {A} (a : A) n : forall m, firstn n (repeat a m) = repeat a (Nat.min n m).
Proof.
  induction n as [|n IH]; intros [|m]; cbn; auto. f_equal. apply IH.
Qed.

(** Under NDEBUG every record the loop sees is zero: an audio track. *)
Lemma zeros_record n k :
  (k < n)%nat -> slice (k * 9) 9 (zeros (n * 9)) = zeros 9.
Proof.
  intros H. unfold slice, zeros. rewrite skip_repeat, first_repeat.
  f_equal. lia.
Qed.

Lemma loop_records_zeros n :
  filter is_marker (loop_records (zeros (n * 9)) 0 n) = [].
Proof.
  unfold loop_records.
  assert (H : forall l, (forall k, In k l -> (k < n)%nat) ->
            filter is_marker
              (map (fun k => slice (Z.to_nat ((0 + Z.of_nat k) * 9)) 9 (zeros (n * 9))) l) = []).
  { induction l as [|k l IH]; intros Hl; [reflexivity |].
    cbn [map filter].
    replace (Z.to_nat ((0 + Z.of_nat k) * 9)) with (k * 9)%nat by lia.
    rewrite zeros_record by (apply Hl; left; reflexivity).
    cbn. apply IH. intros; apply Hl; right; assumption. }
  apply H. intros k Hk. apply in_seq in Hk. lia.
Qed.

Lemma shiftr4_bound x : 0 <= x < 2 ^ 64 -> 0 <= Z.shiftr x 4 < 2 ^ 60.
Proof.
  intros H. rewrite Z.shiftr_div_pow2 by lia. split.
  - apply Z.div_pos; lia.
  - apply Z.div_lt_upper_bound; lia.
Qed.

(** Line 455 in 64-bit [size_t] arithmetic, for track counts that fit. *)
Lemma objects_check A P :
  0 <= A < 2 ^ 64 -> 0 <= P < 2 ^ 60 ->
  Z.shiftr (u64 (A - 1)) 4 = u64 (P - 1) ->
  1 <= A /\ P = (A + 15) / 16.
Proof.
  unfold u64. intros HA HP H.
  assert (Hs := shiftr4_bound ((A - 1) mod 2 ^ 64) ltac:(apply Z.mod_pos_bound; lia)).
  destruct (Z.eq_dec P 0) as [-> | HP0].
  { change ((0 - 1) mod 2 ^ 64) with (2 ^ 64 - 1) in H. lia. }
  rewrite (Z.mod_small (P - 1)) in H by lia.
  destruct (Z.eq_dec A 0) as [-> | HA0].
  { change (Z.shiftr ((0 - 1) mod 2 ^ 64) 4) with (2 ^ 60 - 1) in H. lia. }
  rewrite Z.mod_small in H by lia. rewrite Z.shiftr_div_pow2 in H by lia.
  change (2 ^ 4) with 16 in H. split; [lia |].
  replace (A + 15) with ((A - 1) + 1 * 16) by lia.
  rewrite Z.div_add by lia. lia.
Qed.

(** A file passes the checks of [LoadLAF], and is then loaded unless the
    memory runs out, or it fails one of them. *)
Lemma LoadLAF_cases ndebug heap c :
  (exists laf, loaded ndebug c laf /\
     (LoadLAF ndebug heap c = Ok laf \/ LoadLAF ndebug heap c = Fail (Throw bad_alloc)))
  \/ (exists f, LoadLAF ndebug heap c = Fail f /\ is_FormatError f = true).
Proof.
  destruct (LoadLAF ndebug heap c) as [laf | f] eqn:E.
  - left. exists laf. split; [eapply LoadLAF_Ok; exact E | left; reflexivity].
  - destruct (LoadLAF_Fail _ _ _ _ E) as [Hf | ->].
    + right. exists f. split; [reflexivity | exact Hf].
    + left. destruct (LoadLAF_bad_alloc _ _ _ E) as (laf & El & _).
      exists laf. split; [eapply LoadLAF_Ok; exact El | right; reflexivity].
Qed.

Lemma loaded_track_total ndebug c laf :
  loaded ndebug c laf ->
  Z.of_nat (length (mChannels laf)) + Z.of_nat (length (mPosTracks laf))
  = mNumTracks laf.
Proof.
  intros L. destruct (loaded_loop _ _ _ L) as (pos & Hl & ->).
  apply load_tracks_Ok in Hl as (Hlen & _); [| constructor | congruence].
  pose proof (loaded_numtracks_le _ _ _ L). rewrite length_map. cbn in Hlen. lia.
Qed.

Lemma loaded_counts c laf :
  loaded false c laf ->
  Z.of_nat (length (mChannels laf)) = file_audio_tracks c /\
  Z.of_nat (length (mPosTracks laf)) = file_position_tracks c.
Proof.
  intros L. destruct (loaded_loop _ _ _ L) as (pos & Hl & ->).
  apply load_tracks_counts in Hl as [HP HA].
  unfold file_audio_tracks, file_position_tracks.
  rewrite file_records_loop, <- (loaded_numtracks _ _ _ L), length_map, HP, HA.
  cbn. split; reflexivity.
Qed.

Lemma loaded_ndebug_no_positions c laf :
  loaded true c laf -> mPosTracks laf = [].
Proof.
  intros L. destruct (loaded_loop _ _ _ L) as (pos & Hl & ->).
  apply load_tracks_counts in Hl as [HP _].
  unfold chandata_of in HP. rewrite <- (loaded_numtracks _ _ _ L) in HP.
  pose proof (loaded_numtracks_le _ _ _ L).
  replace (Z.to_nat (mNumTracks laf * 9)) with (Z.to_nat (mNumTracks laf) * 9)%nat in HP by lia.
  rewrite loop_records_zeros in HP. destruct pos; [reflexivity | discriminate].
Qed.

Lemma loaded_objects_count ndebug c laf :
  loaded ndebug c laf -> mMode laf = Objects ->
  1 <= Z.of_nat (length (mChannels laf)) /\
  Z.of_nat (length (mPosTracks laf)) = (Z.of_nat (length (mChannels laf)) + 15) / 16.
Proof.
  intros L M. pose proof (loaded_track_total _ _ _ L).
  pose proof (loaded_numtracks_le _ _ _ L).
  apply objects_check; [lia | lia |]. apply (loaded_objects _ _ _ L M).
Qed.

Lemma loaded_ndebug_channels c laf :
  loaded true c laf -> mMode laf = Channels.
Proof.
  intros L. destruct (mMode laf) eqn:M; [reflexivity |].
  destruct (loaded_objects_count _ _ _ L M) as [HA HP].
  rewrite (loaded_ndebug_no_positions _ _ L) in HP. cbn [length] in HP.
  assert (1 <= (Z.of_nat (length (mChannels laf)) + 15) / 16).
  { apply Z.div_le_lower_bound; lia. }
  lia.
Qed.

(** In an assert-enabled build the footer is where the layout puts it. *)
Lemma loaded_sample_rate c laf :
  loaded false c laf -> mSampleRate laf = file_sample_rate c.
Proof.
  intros L. rewrite (loaded_rate _ _ _ L). unfold footer_of, file_sample_rate.
  rewrite slice_slice by lia. pose proof (loaded_numtracks_le _ _ _ L).
  rewrite (loaded_numtracks _ _ _ L) in *. do 2 f_equal. lia.
Qed.

(** C3: a file whose magic bytes differ from the literal, whose quality
    code is not one of 0-3, whose mode code is not 0 or 1, whose track
    count exceeds 256, or which is in Objects mode with a sample rate that
    is not a multiple of 48, is rejected by [LoadLAF] with a FormatError;
    [PlayLAF] then fails with it before any sink call or chunk read. *)
Theorem LoadLAF_rejects_malformed_header (ndebug : bool) (heap : allocator)
    (c : list byte) :
  file_magic c <> LIMITLESS
  \/ ~ (0 <= file_quality_code c <= 3)
  \/ ~ (0 <= file_mode_code c <= 1)
  \/ 256 < file_track_count c
  \/ (file_mode_code c = 1 /\ file_sample_rate c mod 48 <> 0) ->
  exists f, LoadLAF ndebug heap c = Fail f /\ is_FormatError f = true /\
            forall obss, PlayLAF ndebug heap c obss = ([], Fail f).
Proof.
  intros Hbad.
  destruct (LoadLAF_cases ndebug heap c) as [(laf & L & _) | (f & E & F)].
  - exfalso.
    destruct Hbad as [H | [H | [H | [H | [Hm Hr]]]]].
    + apply H. apply (loaded_magic _ _ _ L).
    + apply H. apply (loaded_quality _ _ _ L).
    + destruct (loaded_mode _ _ _ L) as [[Hc _] | [Hc _]]; lia.
    + pose proof (loaded_numtracks_le _ _ _ L).
      rewrite (loaded_numtracks _ _ _ L) in *. lia.
    + destruct (loaded_mode _ _ _ L) as [[Hc _] | [_ Hobj]]; [lia |].
      destruct ndebug.
      * rewrite (loaded_ndebug_channels _ _ L) in Hobj. discriminate.
      * destruct (loaded_rate_48 _ _ _ L) as [Hch | H48]; [congruence |].
        rewrite (loaded_sample_rate _ _ L) in H48. contradiction.
  - exists f. repeat split; auto.
    intros obss. unfold PlayLAF, lift, tbind. rewrite E. reflexivity.
Qed.

(** C5: a file in Objects mode is loaded only if its number of position
    tracks is ceil(A/16) for its number A of audio tracks; with any other
    number it is rejected with a FormatError. *)
Theorem LoadLAF_objects_position_tracks (ndebug : bool) (heap : allocator)
    (c : list byte) :
  file_mode_code c = 1 ->
  (forall laf, LoadLAF ndebug heap c = Ok laf ->
     mMode laf = Objects /\
     Z.of_nat (length (mChannels laf)) = file_audio_tracks c /\
     Z.of_nat (length (mPosTracks laf)) = file_position_tracks c /\
     file_position_tracks c = (file_audio_tracks c + 15) / 16)
  /\ (file_position_tracks c <> (file_audio_tracks c + 15) / 16 ->
      exists f, LoadLAF ndebug heap c = Fail f /\ is_FormatError f = true).
Proof.
  intros Hmode.
  assert (Hok : forall laf, loaded ndebug c laf ->
     mMode laf = Objects /\
     Z.of_nat (length (mChannels laf)) = file_audio_tracks c /\
     Z.of_nat (length (mPosTracks laf)) = file_position_tracks c /\
     file_position_tracks c = (file_audio_tracks c + 15) / 16).
  { intros laf L.
    destruct (loaded_mode _ _ _ L) as [[Hc _] | [_ Hobj]]; [lia |].
    destruct ndebug.
    - rewrite (loaded_ndebug_channels _ _ L) in Hobj. discriminate.
    - destruct (loaded_counts _ _ L) as [HA HP].
      destruct (loaded_objects_count _ _ _ L Hobj) as [_ H].
      repeat split; auto. congruence. }
  split; [intros laf E; apply Hok; eapply LoadLAF_Ok; exact E |].
  intros Hne.
  destruct (LoadLAF_cases ndebug heap c) as [(laf & L & _) | Hf]; [| exact Hf].
  exfalso. apply Hne. apply (Hok laf L).
Qed.

Lemma parsed_record_file c i :
  Z.of_nat i < file_track_count c ->
  parsed_record false c i = file_track_record c i.
Proof.
  intros H. unfold parsed_record, chandata_of, file_track_record.
  rewrite slice_slice by lia. f_equal. lia.
Qed.

Lemma loaded_records_wellformed ndebug c laf i :
  loaded ndebug c laf -> Z.of_nat i < file_track_count c ->
  ~ malformed_record (parsed_record ndebug c i).
Proof.
  intros L Hi. destruct (loaded_loop _ _ _ L) as (pos & Hl & _).
  apply load_tracks_Ok in Hl as (_ & _ & _ & R); [| constructor | congruence].
  rewrite (loaded_numtracks _ _ _ L) in R.
  specialize (R i ltac:(lia)). unfold parsed_record.
  replace (Z.to_nat ((0 + Z.of_nat i) * 9)) with (i * 9)%nat in R by lia.
  exact R.
Qed.

Lemma loaded_channels_finite ndebug c laf :
  loaded ndebug c laf -> Forall finite_channel (mChannels laf).
Proof.
  intros L. destruct (loaded_loop _ _ _ L) as (pos & Hl & _).
  apply load_tracks_Ok in Hl as (_ & F & _); [exact F | constructor | congruence].
Qed.

(** The checks of lines 441-442 work on the records the loop reads: a file
    with a malformed one among them is rejected with a fatal error under
    every allocator. *)
Lemma malformed_parsed_record_rejected ndebug heap c i :
  Z.of_nat i < file_track_count c ->
  malformed_record (parsed_record ndebug c i) ->
  exists f, LoadLAF ndebug heap c = Fail f /\ is_FormatError f = true.
Proof.
  intros Hi Hbad.
  destruct (LoadLAF_cases ndebug heap c) as [(laf & L & _) | Hf]; [| exact Hf].
  exfalso. exact (loaded_records_wellformed _ _ _ _ L Hi Hbad).
Qed.

(** X21: in a build with [assert] enabled, a file with a track record
    whose elevation is NaN while its azimuth is not zero, or whose
    elevation or azimuth is infinite, is rejected by [LoadLAF] with a fatal
    error, whatever the allocator does; and in both builds every channel of
    a stream that [LoadLAF] returns has a finite elevation and a finite
    azimuth (lines 433-447). *)
Theorem LoadLAF_rejects_malformed_record (heap : allocator) (c : list byte) :
  (forall ndebug laf,
     LoadLAF ndebug heap c = Ok laf -> Forall finite_channel (mChannels laf))
  /\ (forall i, Z.of_nat i < file_track_count c ->
        malformed_record (file_track_record c i) ->
        exists f, LoadLAF false heap c = Fail f /\ is_FormatError f = true).
Proof.
  split.
  - intros ndebug laf E. apply (loaded_channels_finite ndebug c).
    eapply LoadLAF_Ok. exact E.
  - intros i Hi Hbad. apply (malformed_parsed_record_rejected false heap c i Hi).
    rewrite parsed_record_file by exact Hi. exact Hbad.
Qed.

(** ** readChunk *)

Lemma readChunk_Ok s n s' :
  readChunk s = Ok (n, s') ->
  same_stream s s' /\
  n = u32 (Z.min (mSampleRate s) (u64 (mSampleCount s - mCurrentSample s))) /\
  mCurrentSample s'
  = u64 (mCurrentSample s
         + Z.min (mSampleRate s) (u64 (mSampleCount s - mCurrentSample s))) /\
  mEnabledTracks s' = next_bitmap s /\
  mNumEnabled s' = count_enabled (mEnabledTracks s') /\
  bitmap_accepted (mNumTracks s) (mEnabledTracks s') = true /\
  (length (fst (ifstream_read (mInFile s) (Z.shiftr (mNumTracks s + 7) 3))) <= 32)%nat /\
  length (mSampleChunk s') = length (mSampleChunk s).
Proof.
  unfold readChunk, next_bitmap, bitmap_accepted.
  destruct (ifstream_read (mInFile s) _) as [got f1] eqn:R1. cbn [fst].
  intros H. apply bind_Ok in H as (? & L1 & H).
  destruct (nth_error _ _) as [b|] eqn:Nth; [| discriminate].
  apply bind_Ok in H as (? & A & H). apply alassert_Ok in A.
  destruct (ifstream_read f1 _) as [got2 f2] eqn:R2.
  apply bind_Ok in H as (? & L2 & H).
  inversion H; subst; clear H. unfold same_stream.
  cbn [mQuality mMode mSampleRate mSampleCount mNumTracks mSampleLine mChannels
       mPosTracks mCurrentSample mEnabledTracks mNumEnabled mSampleChunk].
  rewrite Nth.
  destruct (Nat.leb_spec (length got) 32); [| discriminate].
  destruct (Nat.leb_spec (length got2) (length (mSampleChunk s))); [| discriminate].
  repeat split; auto.
  unfold overwrite. rewrite length_app, length_skipn. lia.
Qed.

(** [readChunk] returns exactly when the bitmap it reads passes the
    assertion and the chunk it reads fits the buffer. *)
Lemma readChunk_returns s :
  (length (fst (ifstream_read (mInFile s) (Z.shiftr (mNumTracks s + 7) 3))) <= 32)%nat ->
  bitmap_accepted (mNumTracks s) (next_bitmap s) = true ->
  (Z.to_nat (u64 (mSampleRate s * BytesFromQuality (mQuality s)
                  * count_enabled (next_bitmap s)))
   <= length (mSampleChunk s))%nat ->
  exists n s', readChunk s = Ok (n, s').
Proof.
  unfold readChunk, next_bitmap, bitmap_accepted.
  destruct (ifstream_read (mInFile s) _) as [got f1] eqn:R1. cbn [fst].
  intros L1 A L2.
  destruct (Nat.leb_spec (length got) 32); [| lia]. cbn [bind].
  destruct (nth_error _ _) as [b|] eqn:Nth; [| discriminate].
  rewrite A. cbn [alassert bind].
  destruct (ifstream_read f1 _) as [got2 f2] eqn:R2.
  apply ifstream_read_length in R2.
  destruct (Nat.leb_spec (length got2) (length (mSampleChunk s))); [| lia].
  cbn [bind]. eauto.
Qed.

Lemma readChunk_abort s :
  (length (fst (ifstream_read (mInFile s) (Z.shiftr (mNumTracks s + 7) 3))) <= 32)%nat ->
  0 < mNumTracks s <= 256 ->
  bitmap_accepted (mNumTracks s) (next_bitmap s) = false ->
  readChunk s = Fail (Abort 269).
Proof.
  unfold readChunk, next_bitmap, bitmap_accepted.
  destruct (ifstream_read (mInFile s) _) as [got f1] eqn:R1. cbn [fst].
  intros L1 HN A.
  destruct (Nat.leb_spec (length got) 32); [| lia]. cbn [bind].
  destruct (nth_error _ _) as [b|] eqn:Nth.
  - rewrite A. reflexivity.
  - exfalso. apply nth_error_None in Nth.
    unfold overwrite, zeros in Nth. rewrite length_app, length_skipn, repeat_length in Nth.
    assert (0 <= Z.shiftr (mNumTracks s + 7) 3 - 1 < 32).
    { rewrite Z.shiftr_div_pow2 by lia. change (2 ^ 3) with 8.
      assert (1 <= (mNumTracks s + 7) / 8) by (apply Z.div_le_lower_bound; lia).
      assert ((mNumTracks s + 7) / 8 < 33) by (apply Z.div_lt_upper_bound; lia).
      lia. }
    unfold u64 in Nth. rewrite Z.mod_small in Nth by lia. lia.
Qed.

(** The counters, once the wrap-around is discharged. *)
Lemma readChunk_counters s n s' :
  readChunk s = Ok (n, s') ->
  0 <= mSampleRate s < 2 ^ 32 ->
  0 <= mCurrentSample s <= mSampleCount s -> mSampleCount s < 2 ^ 64 ->
  n = Z.min (mSampleRate s) (mSampleCount s - mCurrentSample s) /\
  mCurrentSample s' = mCurrentSample s + n /\
  mSampleRate s' = mSampleRate s /\ mSampleCount s' = mSampleCount s.
Proof.
  intros H HR Hc HT. apply readChunk_Ok in H as (S & -> & -> & _).
  destruct S as (_ & _ & -> & -> & _).
  unfold u32, u64. rewrite (Z.mod_small (_ - _)) by lia.
  rewrite !Z.mod_small by lia. auto.
Qed.

Lemma tiles_last a b rs :
  tiles a b rs -> rs <> [] ->
  fst (last rs (0, 0)) + snd (last rs (0, 0)) = b.
Proof.
  revert a. induction rs as [|[st n] rest IH]; intros a H Hne; [congruence |].
  cbn [tiles] in H. destruct H as (-> & Hn & H).
  destruct rest as [|r rest'].
  - cbn in *. lia.
  - change (last ((a, n) :: r :: rest') (0, 0)) with (last (r :: rest') (0, 0)).
    apply (IH _ H). discriminate.
Qed.

Lemma read_chunks_partition fuel : forall s,
  1 <= mSampleRate s < 2 ^ 32 ->
  0 <= mCurrentSample s <= mSampleCount s -> mSampleCount s < 2 ^ 64 ->
  mSampleCount s - mCurrentSample s <= Z.of_nat fuel ->
  read_chunks fuel s <> None /\
  forall rs s', read_chunks fuel s = Some (Ok (rs, s')) ->
    tiles (mCurrentSample s) (mSampleCount s) rs /\
    Forall (fun r => snd r = Z.min (mSampleRate s) (mSampleCount s - fst r)) rs /\
    mCurrentSample s' = mSampleCount s.
Proof.
  induction fuel as [|fuel IH]; intros s HR Hc HT Hfuel.
  - cbn [read_chunks]. unfold isAtEnd.
    destruct (Z.leb_spec (mSampleCount s) (mCurrentSample s)); [| lia].
    split; [discriminate |]. intros rs s' E; inversion E; subst.
    cbn. repeat split; auto; lia.
  - cbn [read_chunks]. unfold isAtEnd.
    destruct (Z.leb_spec (mSampleCount s) (mCurrentSample s)).
    + split; [discriminate |]. intros rs s' E; inversion E; subst.
      cbn. repeat split; auto; lia.
    + destruct (readChunk s) as [[n s1] | f] eqn:E1; [| split; [discriminate | intros ? ? E; discriminate E]].
      destruct (readChunk_counters _ _ _ E1 ltac:(lia) ltac:(lia) HT) as (Hn & Hc1 & HR1 & HT1).
      destruct (IH s1) as [Hfin Hok]; try lia.
      split.
      * destruct (read_chunks fuel s1) as [[[rs s2] | f] |]; congruence.
      * intros rs s' E.
        destruct (read_chunks fuel s1) as [[[rs1 s2] | f] |] eqn:E2; try discriminate.
        inversion E; subst rs s'; clear E.
        destruct (Hok _ _ eq_refl) as (Ht & Hall & Hend).
        rewrite Hc1, HT1 in Ht. rewrite HR1, HT1 in Hall. rewrite HT1 in Hend.
        repeat split; auto; try lia.
Qed.

(** C1 (amended): for a stream with a sample rate R >= 1, a [readChunk]
    call made while c < T that returns gives min(R, T - c) and advances the
    consumed counter by it; the calls made until the end of the stream
    are finitely many, and when none of them fails they return ranges
    that follow one another from c to T without gap or overlap, none
    empty, the last one ending at T with at most R samples; the counter
    never exceeds T. *)
Theorem readChunk_partitions_stream (s : LafStream) :
  1 <= mSampleRate s < 2 ^ 32 ->
  0 <= mCurrentSample s <= mSampleCount s -> mSampleCount s < 2 ^ 64 ->
  (forall n s', mCurrentSample s < mSampleCount s -> readChunk s = Ok (n, s') ->
     n = Z.min (mSampleRate s) (mSampleCount s - mCurrentSample s) /\
     0 < n /\
     mCurrentSample s' = mCurrentSample s + n /\
     mCurrentSample s' <= mSampleCount s')
  /\ (forall fuel, mSampleCount s - mCurrentSample s <= Z.of_nat fuel ->
        read_chunks fuel s <> None /\
        forall rs s', read_chunks fuel s = Some (Ok (rs, s')) ->
          tiles (mCurrentSample s) (mSampleCount s) rs /\
          Forall (fun r => snd r = Z.min (mSampleRate s) (mSampleCount s - fst r)) rs /\
          (rs <> [] ->
           fst (last rs (0, 0)) + snd (last rs (0, 0)) = mSampleCount s /\
           snd (last rs (0, 0)) <= mSampleRate s) /\
          mCurrentSample s' = mSampleCount s).
Proof.
  intros HR Hc HT. split.
  - intros n s' Hlt E.
    destruct (readChunk_counters _ _ _ E ltac:(lia) ltac:(lia) HT) as (Hn & Hc1 & HR1 & HT1).
    rewrite HT1. lia.
  - intros fuel Hfuel.
    destruct (read_chunks_partition fuel s HR Hc HT Hfuel) as [Hfin Hok].
    split; [exact Hfin |]. intros rs s' E.
    destruct (Hok _ _ E) as (Ht & Hall & Hend).
    repeat split; auto.
    + apply (tiles_last _ _ _ Ht H).
    + assert (Hin : In (last rs (0, 0)) rs).
      { destruct (exists_last H) as (l & a & ->). rewrite last_last.
        apply in_or_app. right. left. reflexivity. }
      rewrite Forall_forall in Hall. rewrite (Hall _ Hin). lia.
Qed.

(** ** The enabled-track bitmap, bit by bit *)

Lemma popcount_bits v : popcount v = Z.of_nat (bits_below v 8).
Proof.
  unfold popcount, bits_below. cbn -[Z.testbit Z.add].
  repeat match goal with
         | |- context [Z.testbit v ?i] => destruct (Z.testbit v i)
         end; reflexivity.
Qed.

Lemma bits_below_le v r : (bits_below v r <= r)%nat.
Proof.
  unfold bits_below. etransitivity; [apply filter_length_le |].
  rewrite length_seq. lia.
Qed.

Lemma bits_below_S v r :
  bits_below v (S r)
  = (bits_below v r + if Z.testbit v (Z.of_nat r) then 1 else 0)%nat.
Proof.
  unfold bits_below. rewrite seq_S, filter_app, length_app. cbn [filter Nat.add].
  destruct (Z.testbit v (Z.of_nat r)); reflexivity.
Qed.

Lemma bits_below_mono v r r' : (r <= r')%nat -> (bits_below v r <= bits_below v r')%nat.
Proof.
  induction 1; [lia |]. rewrite bits_below_S. lia.
Qed.

Lemma testbit_small v r i : 0 <= v < 2 ^ r -> r <= i -> Z.testbit v i = false.
Proof.
  intros Hv Hi.
  assert (0 <= r).
  { destruct (Z.le_gt_cases 0 r); [assumption |].
    rewrite Z.pow_neg_r in Hv by lia. lia. }
  rewrite <- (Z.mod_small v (2 ^ r)) by lia.
  apply Z.mod_pow2_bits_high. lia.
Qed.

Lemma bits_below_small v r k :
  0 <= v < 2 ^ Z.of_nat r -> bits_below v (r + k) = bits_below v r.
Proof.
  intros Hv. induction k as [|k IH].
  - f_equal. lia.
  - replace (r + S k)%nat with (S (r + k)) by lia.
    rewrite bits_below_S, IH, (testbit_small v (Z.of_nat r)) by lia. lia.
Qed.

Lemma popcount_small v r :
  (r <= 8)%nat -> 0 <= v < 2 ^ Z.of_nat r -> 0 <= popcount v <= Z.of_nat r.
Proof.
  intros Hr Hv. rewrite popcount_bits.
  replace 8%nat with (r + (8 - r))%nat by lia.
  rewrite bits_below_small by exact Hv.
  pose proof (bits_below_le v r). lia.
Qed.

Lemma popcount_byte b : 0 <= popcount (byte.unsigned b) <= 8.
Proof.
  apply (popcount_small _ 8); [lia |]. apply byte.unsigned_range.
Qed.

Lemma bits_below_land v r k :
  0 <= v -> (r <= k)%nat ->
  bits_below (Z.land v (2 ^ Z.of_nat r - 1)) k = bits_below v r.
Proof.
  intros Hv Hrk.
  assert (Hbit : forall i, Z.testbit (Z.land v (2 ^ Z.of_nat r - 1)) (Z.of_nat i)
                           = Z.testbit v (Z.of_nat i) && (i <? r)%nat).
  { intros i. rewrite Z.land_spec. f_equal.
    replace (2 ^ Z.of_nat r - 1) with (Z.ones (Z.of_nat r))
      by (rewrite Z.ones_equiv; lia).
    destruct (Nat.ltb_spec i r).
    - apply Z.ones_spec_low. lia.
    - apply Z.ones_spec_high. lia. }
  induction Hrk as [|k Hrk IH].
  - unfold bits_below. f_equal. apply filter_ext_in. intros i Hi.
    apply in_seq in Hi. rewrite Hbit.
    destruct (Nat.ltb_spec i r); [apply andb_true_r | lia].
  - rewrite bits_below_S, IH, Hbit.
    destruct (Nat.ltb_spec k r); [lia |]. rewrite andb_false_r. lia.
Qed.

Lemma bits_set_le bitmap : (bits_set bitmap <= 8 * length bitmap)%nat.
Proof.
  induction bitmap as [|b l IH]; cbn [bits_set fold_right length]; [lia |].
  fold (bits_set l). pose proof (bits_below_le (byte.unsigned b) 8). lia.
Qed.

Lemma count_enabled_from bitmap : forall val,
  0 <= val -> val + 8 * Z.of_nat (length bitmap) < 2 ^ 32 ->
  fold_left (fun val b => u32 (val + popcount (byte.unsigned b))) bitmap val
  = val + Z.of_nat (bits_set bitmap).
Proof.
  induction bitmap as [|b l IH]; intros val H0 H; cbn [fold_left bits_set fold_right].
  - lia.
  - fold (bits_set l). cbn [length] in H.
    pose proof (popcount_byte b) as Hp.
    unfold u32. rewrite Z.mod_small by lia.
    rewrite IH by lia. rewrite popcount_bits. lia.
Qed.

Lemma count_enabled_bits bitmap :
  (length bitmap <= 32)%nat -> count_enabled bitmap = Z.of_nat (bits_set bitmap).
Proof.
  intros H. unfold count_enabled. rewrite count_enabled_from; lia.
Qed.

Lemma rank_S bitmap t :
  rank bitmap (S t)
  = (rank bitmap t + if track_enabled bitmap t then 1 else 0)%nat.
Proof.
  unfold rank. rewrite seq_S, filter_app, length_app. cbn [filter Nat.add].
  destruct (track_enabled bitmap t); reflexivity.
Qed.

Lemma rank_mono bitmap t t' : (t <= t')%nat -> (rank bitmap t <= rank bitmap t')%nat.
Proof. induction 1; [lia |]. rewrite rank_S. lia. Qed.

Lemma rank_enabled_lt bitmap t t' :
  track_enabled bitmap t = true -> (t < t')%nat ->
  (rank bitmap t < rank bitmap t')%nat.
Proof.
  intros He Hlt. pose proof (rank_mono bitmap (S t) t' Hlt) as H.
  rewrite rank_S, He in H. lia.
Qed.

Lemma track_enabled_byte bitmap q r :
  (r < 8)%nat ->
  track_enabled bitmap (8 * q + r)
  = Z.testbit (byte.unsigned (nth q bitmap Byte.x00)) (Z.of_nat r).
Proof.
  intros Hr. unfold track_enabled.
  replace ((8 * q + r) / 8)%nat with q.
  - replace ((8 * q + r) mod 8)%nat with r; [reflexivity |].
    rewrite Nat.add_comm, Nat.mul_comm, Nat.Div0.mod_add.
    symmetry. apply Nat.mod_small. exact Hr.
  - rewrite Nat.add_comm, Nat.mul_comm, Nat.div_add by lia.
    rewrite Nat.div_small by exact Hr. reflexivity.
Qed.

Lemma rank_byte bitmap q r :
  (r <= 8)%nat ->
  rank bitmap (8 * q + r)
  = (rank bitmap (8 * q) + bits_below (byte.unsigned (nth q bitmap Byte.x00)) r)%nat.
Proof.
  induction r as [|r IH]; intros Hr.
  - rewrite Nat.add_0_r. unfold bits_below. cbn. lia.
  - replace (8 * q + S r)%nat with (S (8 * q + r)) by lia.
    rewrite rank_S, IH, bits_below_S, track_enabled_byte by lia. lia.
Qed.

Lemma bits_set_app l1 l2 : bits_set (l1 ++ l2) = (bits_set l1 + bits_set l2)%nat.
Proof.
  induction l1 as [|b l IH]; cbn [app bits_set fold_right]; [reflexivity |].
  fold (bits_set (l ++ l2)). fold (bits_set l). rewrite IH. lia.
Qed.

Lemma firstn_S_nth {A} (l : list A) q d :
  (q < length l)%nat -> firstn (S q) l = firstn q l ++ [nth q l d].
Proof.
  revert q. induction l as [|a l IH]; intros q H; cbn [length] in H; [lia |].
  destruct q as [|q]; [reflexivity |].
  cbn [firstn nth app]. f_equal. apply IH. lia.
Qed.

Lemma rank_bytes bitmap q :
  (q <= length bitmap)%nat -> rank bitmap (8 * q) = bits_set (firstn q bitmap).
Proof.
  induction q as [|q IH]; intros Hq; [reflexivity |].
  replace (8 * S q)%nat with (8 * q + 8)%nat by lia.
  rewrite rank_byte, IH by lia.
  rewrite (firstn_S_nth _ _ Byte.x00) by lia.
  rewrite bits_set_app. cbn [bits_set fold_right]. lia.
Qed.

Lemma rank_total bitmap :
  length bitmap = 32%nat -> Z.of_nat (rank bitmap 256) = count_enabled bitmap.
Proof.
  intros H. rewrite count_enabled_bits by lia.
  change 256%nat with (8 * 32)%nat. rewrite rank_bytes by lia.
  rewrite <- H, firstn_all. reflexivity.
Qed.

Lemma shiftr3_nat t : Z.shiftr (Z.of_nat t) 3 = Z.of_nat (t / 8).
Proof.
  rewrite Z.shiftr_div_pow2 by lia. change (2 ^ 3) with (Z.of_nat 8).
  symmetry. apply Nat2Z.inj_div.
Qed.

Lemma land7_nat t : Z.land (Z.of_nat t) 7 = Z.of_nat (t mod 8).
Proof.
  change 7 with (Z.ones 3). rewrite Z.land_ones by lia.
  change (2 ^ 3) with (Z.of_nat 8). symmetry. apply Nat2Z.inj_mod.
Qed.

Lemma bit_mask_nat t : u64 (Z.shiftl 1 (Z.land (Z.of_nat t) 7)) = 2 ^ Z.of_nat (t mod 8).
Proof.
  rewrite land7_nat, Z.shiftl_1_l.
  assert (t mod 8 < 8)%nat by (apply Nat.mod_upper_bound; lia).
  assert (0 < 2 ^ Z.of_nat (t mod 8) <= 2 ^ 7).
  { split; [apply Z.pow_pos_nonneg; lia | apply Z.pow_le_mono_r; lia]. }
  unfold u64. apply Z.mod_small. lia.
Qed.

(** The index lambda of [prepareTrack] computes the rank. *)
Lemma real_index_rank bitmap t b :
  (length bitmap <= 32)%nat -> nth_error bitmap (t / 8) = Some b ->
  real_index bitmap (Z.of_nat t) b = Z.of_nat (rank bitmap t).
Proof.
  intros Hlen Hb. unfold real_index.
  assert (Hq : (t / 8 < length bitmap)%nat) by (apply nth_error_Some; congruence).
  assert (Hr : (t mod 8 < 8)%nat) by (apply Nat.mod_upper_bound; lia).
  rewrite bit_mask_nat, shiftr3_nat, Nat2Z.id.
  rewrite count_enabled_bits by (rewrite length_firstn; lia).
  rewrite <- rank_bytes by lia.
  rewrite popcount_bits, bits_below_land
    by (try apply byte.unsigned_range; lia).
  rewrite (Nat.div_mod_eq t 8) at 3.
  rewrite rank_byte by lia.
  rewrite (nth_error_nth _ _ _ Hb).
  pose proof (bits_below_le (byte.unsigned b) (t mod 8)).
  pose proof (rank_mono bitmap (8 * (t / 8)) 256 ltac:(lia)).
  assert (rank bitmap 256 <= 256)%nat.
  { unfold rank. etransitivity; [apply filter_length_le |]. rewrite length_seq. lia. }
  unfold u32. rewrite (Z.mod_small (Z.of_nat _)) by lia.
  rewrite Z.mod_small by lia. lia.
Qed.

(** The bit test of [prepareTrack]. *)
Lemma bit_test_enabled bitmap t b :
  nth_error bitmap (t / 8) = Some b ->
  negb (Z.land (byte.unsigned b) (u64 (Z.shiftl 1 (Z.land (Z.of_nat t) 7))) =? 0)
  = track_enabled bitmap t.
Proof.
  intros Hb. unfold track_enabled. rewrite (nth_error_nth _ _ _ Hb), bit_mask_nat.
  set (v := byte.unsigned b). set (r := Z.of_nat (t mod 8)).
  assert (Hr : 0 <= r) by (unfold r; lia).
  destruct (Z.testbit v r) eqn:Hbit.
  - destruct (Z.eqb_spec (Z.land v (2 ^ r)) 0) as [E | E]; [| reflexivity].
    exfalso. assert (Z.testbit (Z.land v (2 ^ r)) r = true).
    { rewrite Z.land_spec, Hbit, Z.pow2_bits_true by lia. reflexivity. }
    rewrite E, Z.bits_0 in H. discriminate.
  - destruct (Z.eqb_spec (Z.land v (2 ^ r)) 0) as [E | E]; [reflexivity |].
    exfalso. apply E. apply Z.bits_inj'. intros i Hi.
    rewrite Z.land_spec, Z.bits_0.
    destruct (Z.eq_dec i r) as [-> | Hne].
    + rewrite Hbit. reflexivity.
    + rewrite Z.pow2_bits_false by lia. apply andb_false_r.
Qed.

(** ** The assertion of readChunk on the last bitmap byte *)

Lemma last_index tracks :
  0 < tracks <= 256 ->
  Z.to_nat (u64 (Z.shiftr (tracks + 7) 3 - 1)) = (Z.to_nat ((tracks + 7) / 8) - 1)%nat
  /\ 1 <= (tracks + 7) / 8 <= 32.
Proof.
  intros H. rewrite Z.shiftr_div_pow2 by lia. change (2 ^ 3) with 8.
  assert (1 <= (tracks + 7) / 8) by (apply Z.div_le_lower_bound; lia).
  assert ((tracks + 7) / 8 < 33) by (apply Z.div_lt_upper_bound; lia).
  unfold u64. rewrite Z.mod_small by lia. lia.
Qed.

Lemma assert_bound tracks :
  0 <= tracks -> u32 (Z.shiftl 1 (Z.land tracks 7)) = 2 ^ (tracks mod 8).
Proof.
  intros H. change 7 with (Z.ones 3). rewrite Z.land_ones by lia.
  change (2 ^ 3) with 8. rewrite Z.shiftl_1_l.
  pose proof (Z.mod_pos_bound tracks 8 ltac:(lia)).
  assert (0 < 2 ^ (tracks mod 8) <= 2 ^ 7).
  { split; [apply Z.pow_pos_nonneg; lia | apply Z.pow_le_mono_r; lia]. }
  unfold u32. apply Z.mod_small. lia.
Qed.

(** With a track count that is a multiple of 8 the assertion demands a
    zero last byte. *)
Lemma bitmap_accepted_multiple_of_8 tracks bitmap :
  0 < tracks <= 256 -> tracks mod 8 = 0 -> length bitmap = 32%nat ->
  bitmap_accepted tracks bitmap = true ->
  nth (Z.to_nat (tracks / 8) - 1) bitmap Byte.x00 = Byte.x00.
Proof.
  intros HN Hm Hlen. unfold bitmap_accepted.
  destruct (last_index tracks HN) as [-> Hq].
  assert (Hdiv : (tracks + 7) / 8 = tracks / 8).
  { rewrite (Z.div_mod tracks 8) at 1 by lia. rewrite Hm, Z.add_0_r.
    rewrite Z.mul_comm, Z.div_add_l by lia. change (7 / 8) with 0. lia. }
  rewrite Hdiv in *. rewrite assert_bound, Hm by lia.
  destruct (nth_error bitmap _) as [b|] eqn:Nth; [| discriminate].
  rewrite (nth_error_nth _ _ _ Nth). intros H. apply Z.ltb_lt in H.
  pose proof (byte.unsigned_range b).
  apply byte.unsigned_inj. change (byte.unsigned Byte.x00) with 0. lia.
Qed.

Lemma next_bitmap_length s :
  0 <= mNumTracks s <= 256 ->
  length (next_bitmap s) = 32%nat /\
  (length (fst (ifstream_read (mInFile s) (Z.shiftr (mNumTracks s + 7) 3))) <= 32)%nat.
Proof.
  intros HN. unfold next_bitmap.
  destruct (ifstream_read _ _) as [got f1] eqn:R. cbn [fst].
  apply ifstream_read_length in R.
  assert (Z.shiftr (mNumTracks s + 7) 3 <= 32).
  { rewrite Z.shiftr_div_pow2 by lia. change (2 ^ 3) with 8.
    assert ((mNumTracks s + 7) / 8 < 33) by (apply Z.div_lt_upper_bound; lia). lia. }
  unfold overwrite, zeros. rewrite length_app, length_skipn, repeat_length. lia.
Qed.

(** C8 on the code: when the track count is a multiple of 8, [readChunk]
    aborts on every bitmap whose last byte enables a track. *)
Theorem readChunk_aborts_on_last_byte (s : LafStream) :
  0 < mNumTracks s <= 256 -> mNumTracks s mod 8 = 0 ->
  nth (Z.to_nat (mNumTracks s / 8) - 1) (next_bitmap s) Byte.x00 <> Byte.x00 ->
  readChunk s = Fail (Abort 269).
Proof.
  intros HN Hm Hlast.
  destruct (next_bitmap_length s ltac:(lia)) as [Hlen Hgot].
  apply readChunk_abort; [exact Hgot | exact HN |].
  destruct (bitmap_accepted _ _) eqn:A; [| reflexivity].
  exfalso. apply Hlast. apply bitmap_accepted_multiple_of_8; assumption.
Qed.

(** Bits of a byte at and above [r] are clear exactly when it is below
    [2^r]. *)
Lemma byte_below b r :
  0 <= r <= 8 ->
  (forall i, r <= i < 8 -> Z.testbit (byte.unsigned b) i = false) ->
  byte.unsigned b < 2 ^ r.
Proof.
  intros Hr Hbits. pose proof (byte.unsigned_range b) as Hb.
  assert (E : byte.unsigned b mod 2 ^ r = byte.unsigned b).
  { apply Z.bits_inj'. intros i Hi.
    destruct (Z_lt_ge_dec i r).
    - apply Z.mod_pow2_bits_low. lia.
    - rewrite Z.mod_pow2_bits_high by lia. symmetry.
      destruct (Z_lt_ge_dec i 8); [apply Hbits; lia |].
      apply (testbit_small _ 8); lia. }
  rewrite <- E. apply Z.mod_pos_bound. apply Z.pow_pos_nonneg; lia.
Qed.

(** With any other track count every well-formed bitmap passes. *)
Lemma bitmap_accepted_wellformed tracks bitmap :
  0 < tracks <= 256 -> tracks mod 8 <> 0 -> length bitmap = 32%nat ->
  well_formed_bitmap (Z.to_nat tracks) bitmap ->
  bitmap_accepted tracks bitmap = true.
Proof.
  intros HN Hm Hlen Hwf. unfold bitmap_accepted.
  destruct (last_index tracks HN) as [-> Hq].
  pose proof (Z.mod_pos_bound tracks 8 ltac:(lia)) as Hr.
  assert (Hdiv : (tracks + 7) / 8 = tracks / 8 + 1).
  { rewrite (Z.div_mod tracks 8) at 1 by lia.
    replace (8 * (tracks / 8) + tracks mod 8 + 7)
      with ((tracks mod 8 - 1) + (tracks / 8 + 1) * 8) by lia.
    rewrite Z.div_add by lia. rewrite Z.div_small by lia. lia. }
  rewrite Hdiv. assert (0 <= tracks / 8) by (apply Z.div_pos; lia).
  replace (Z.to_nat (tracks / 8 + 1) - 1)%nat with (Z.to_nat (tracks / 8)) by lia.
  destruct (nth_error bitmap _) as [b|] eqn:Nth.
  - rewrite assert_bound by lia. apply Z.ltb_lt. apply byte_below; [lia |].
    intros i Hi. destruct (Z.testbit (byte.unsigned b) i) eqn:Hbit; [| reflexivity].
    exfalso.
    assert (He : track_enabled bitmap (8 * Z.to_nat (tracks / 8) + Z.to_nat i) = true).
    { rewrite track_enabled_byte by lia. rewrite (nth_error_nth _ _ _ Nth).
      rewrite Z2Nat.id by lia. exact Hbit. }
    apply Hwf in He.
    pose proof (Z.div_mod tracks 8 ltac:(lia)). lia.
  - apply nth_error_None in Nth. lia.
Qed.

(** ** Stores into a buffer *)

Lemma blit_length {A} off (src l : list A) :
  (off + length src <= length l)%nat -> length (blit off src l) = length l.
Proof.
  intros H. unfold blit. rewrite !length_app, length_firstn, length_skipn. lia.
Qed.

Lemma blit_firstn {A} m off (src l : list A) :
  (m <= off)%nat -> (off <= length l)%nat ->
  firstn m (blit off src l) = firstn m l.
Proof.
  intros H Hl. unfold blit. rewrite firstn_app, length_firstn.
  replace (m - Nat.min off (length l))%nat with 0%nat by lia.
  rewrite firstn_firstn. cbn [firstn]. rewrite app_nil_r. f_equal. lia.
Qed.

Lemma blit_skipn {A} m off (src l : list A) :
  (off + length src <= m)%nat -> (off <= length l)%nat ->
  skipn m (blit off src l) = skipn m l.
Proof.
  intros H Hl. unfold blit. rewrite !skipn_app, length_firstn.
  rewrite (skipn_all2 (firstn off l)) by (rewrite length_firstn; lia).
  rewrite (skipn_all2 src) by lia.
  rewrite skipn_skipn. cbn [app]. f_equal. lia.
Qed.

Lemma blit_slice {A} off (src l : list A) :
  (off <= length l)%nat -> slice off (length src) (blit off src l) = src.
Proof.
  intros Hl. unfold slice, blit. rewrite skipn_app, length_firstn.
  rewrite (skipn_all2 (firstn off l)) by (rewrite length_firstn; lia).
  replace (off - Nat.min off (length l))%nat with 0%nat by lia.
  cbn [skipn app]. rewrite firstn_app, Nat.sub_diag, firstn_all. cbn [firstn].
  apply app_nil_r.
Qed.

Lemma slice_of_firstn {A} a n m (l l' : list A) :
  (a + n <= m)%nat -> firstn m l' = firstn m l -> slice a n l' = slice a n l.
Proof.
  intros H E. unfold slice.
  assert (forall x : list A, firstn n (skipn a x) = firstn n (skipn a (firstn m x))) as F.
  { intros x. rewrite skipn_firstn_comm, firstn_firstn. f_equal. lia. }
  rewrite (F l'), (F l), E. reflexivity.
Qed.

Lemma firstn_of_firstn {A} m m' (l l' : list A) :
  (m <= m')%nat -> firstn m' l' = firstn m' l -> firstn m l' = firstn m l.
Proof.
  intros H E.
  assert (forall x : list A, firstn m x = firstn m (firstn m' x)) as F.
  { intros x. rewrite firstn_firstn. f_equal. lia. }
  rewrite (F l'), (F l), E. reflexivity.
Qed.

(** ** The loop of copySamples

When every element it reads lies below the destination, the loop
    returns, leaves everything below the destination as it was, and output
    element [k + j] is input element [inptr + j * step + idx]. *)
Lemma copySamples_loop_spec sz step idx dst : forall n inptr k mem,
  ((inptr + n * step) * sz <= dst)%nat -> (idx < step)%nat ->
  (dst + (k + n) * sz <= length mem)%nat ->
  exists mem',
    copySamples_loop sz step idx dst inptr k n mem = Ok mem' /\
    length mem' = length mem /\
    firstn (dst + k * sz) mem' = firstn (dst + k * sz) mem /\
    forall j, (j < n)%nat ->
      slice (dst + (k + j) * sz) sz mem'
      = slice ((inptr + j * step + idx) * sz) sz mem.
Proof.
  induction n as [|n IH]; intros inptr k mem Hsrc Hidx Hdst; cbn [copySamples_loop].
  - exists mem. repeat split; auto. intros; lia.
  - set (rd := ((inptr + idx) * sz)%nat). set (wr := (dst + k * sz)%nat).
    assert (Hrd : (rd + sz <= dst)%nat) by (unfold rd; nia).
    assert (Hwr : (wr + sz <= length mem)%nat) by (unfold wr; nia).
    destruct (Nat.leb_spec (rd + sz) (length mem)); [| lia].
    destruct (Nat.leb_spec (wr + sz) (length mem)); [| lia].
    cbn [andb].
    assert (Hlen : length (slice rd sz mem) = sz) by (apply slice_length; lia).
    set (mem1 := blit wr (slice rd sz mem) mem).
    assert (Hlen1 : length mem1 = length mem).
    { unfold mem1. apply blit_length. lia. }
    assert (Hlow : firstn wr mem1 = firstn wr mem).
    { unfold mem1. apply blit_firstn; lia. }
    destruct (IH (inptr + step)%nat (S k) mem1) as (mem' & E & L & F & HS);
      [nia | exact Hidx | rewrite Hlen1; nia |].
    exists mem'. split; [exact E |]. split; [congruence |]. split.
    + rewrite <- Hlow. apply (firstn_of_firstn _ (dst + S k * sz)); [unfold wr; nia | exact F].
    + intros j Hj. destruct j as [|j].
      * replace (k + 0)%nat with k by lia. replace (inptr + 0 * step + idx)%nat with (inptr + idx)%nat by lia.
        fold wr. fold rd.
        rewrite (slice_of_firstn wr sz (dst + S k * sz) mem1 mem') by (try exact F; unfold wr; nia).
        pose proof (blit_slice wr (slice rd sz mem) mem ltac:(lia)) as B.
        rewrite Hlen in B. exact B.
      * replace (k + S j)%nat with (S k + j)%nat by lia.
        rewrite HS by lia.
        replace (inptr + step + j * step + idx)%nat with (inptr + S j * step + idx)%nat by lia.
        apply (slice_of_firstn _ _ wr); [| exact Hlow].
        unfold wr. nia.
Qed.

(** ** The state between readChunk and prepareTrack *)

Lemma loaded_bounds ndebug c laf :
  loaded ndebug c laf ->
  0 <= mSampleRate laf < 2 ^ 32 /\ 0 <= mSampleCount laf < 2 ^ 64.
Proof.
  intros L. rewrite (loaded_rate _ _ _ L), (loaded_count _ _ _ L).
  pose proof (loaded_footer _ _ _ L). split.
  - apply (read_uint_bound _ 4). apply slice_length. lia.
  - apply (read_uint_bound _ 8). apply slice_length. lia.
Qed.

Lemma loaded_chunk_ready ndebug c laf : loaded ndebug c laf -> chunk_ready laf.
Proof.
  intros L. destruct (loaded_bounds _ _ _ L) as [HR _].
  constructor.
  - apply (loaded_numtracks_le _ _ _ L).
  - exact HR.
  - rewrite (loaded_enabled _ _ _ L). reflexivity.
  - rewrite (loaded_enabled _ _ _ L), (loaded_numenabled _ _ _ L). reflexivity.
  - rewrite (loaded_numenabled _ _ _ L). apply (loaded_numtracks_le _ _ _ L).
  - apply (loaded_line _ _ _ L).
  - rewrite (loaded_chunk _ _ _ L). apply repeat_length.
Qed.

Lemma rank_le bitmap t : (rank bitmap t <= t)%nat.
Proof.
  unfold rank. etransitivity; [apply filter_length_le |]. rewrite length_seq. lia.
Qed.

Lemma rank_zero_tail bitmap q :
  (forall i, (q <= i)%nat -> nth i bitmap Byte.x00 = Byte.x00) ->
  forall k, rank bitmap (8 * q + k) = rank bitmap (8 * q).
Proof.
  intros Hz. induction k as [|k IH].
  - f_equal. lia.
  - replace (8 * q + S k)%nat with (S (8 * q + k)) by lia.
    rewrite rank_S, IH. unfold track_enabled.
    rewrite Hz by (apply Nat.div_le_lower_bound; lia).
    change (byte.unsigned Byte.x00) with 0. rewrite Z.bits_0. lia.
Qed.

Lemma overwrite_tail got i :
  (length got <= i)%nat -> nth i (overwrite got (zeros 32)) Byte.x00 = Byte.x00.
Proof.
  intros H. unfold overwrite. rewrite app_nth2 by lia.
  unfold zeros. rewrite skip_repeat.
  destruct (Nat.lt_ge_cases (i - length got) (32 - length got)).
  - apply nth_repeat_lt. assumption.
  - apply nth_overflow. rewrite repeat_length. assumption.
Qed.

(** A bitmap that passed the assertion enables at most as many tracks as
    the stream has. *)
Lemma accepted_count tracks bitmap :
  0 < tracks <= 256 -> length bitmap = 32%nat ->
  (forall i, (Z.to_nat ((tracks + 7) / 8) <= i)%nat -> nth i bitmap Byte.x00 = Byte.x00) ->
  bitmap_accepted tracks bitmap = true ->
  count_enabled bitmap <= tracks.
Proof.
  intros HN Hlen Hz. unfold bitmap_accepted.
  destruct (last_index tracks HN) as [-> Hq].
  destruct (nth_error bitmap _) as [b|] eqn:Nth; [| discriminate].
  rewrite assert_bound by lia. intros Hb. apply Z.ltb_lt in Hb.
  rewrite <- rank_total by exact Hlen.
  set (q := Z.to_nat ((tracks + 7) / 8)) in *.
  replace 256%nat with (8 * q + (256 - 8 * q))%nat by lia.
  rewrite rank_zero_tail by exact Hz.
  replace (8 * q)%nat with (8 * (q - 1) + 8)%nat by lia.
  rewrite rank_byte by lia. rewrite (nth_error_nth _ _ _ Nth).
  pose proof (rank_le bitmap (8 * (q - 1))).
  pose proof (Z.mod_pos_bound tracks 8 ltac:(lia)) as Hr.
  pose proof (popcount_small (byte.unsigned b) (Z.to_nat (tracks mod 8)) ltac:(lia)) as Hp.
  rewrite Z2Nat.id in Hp by lia. rewrite popcount_bits in Hp.
  pose proof (byte.unsigned_range b). specialize (Hp ltac:(lia)).
  pose proof (Z.div_mod tracks 8 ltac:(lia)).
  pose proof (Z.div_mod (tracks + 7) 8 ltac:(lia)).
  pose proof (Z.mod_pos_bound (tracks + 7) 8 ltac:(lia)).
  lia.
Qed.

Lemma next_bitmap_tail s i :
  0 <= mNumTracks s ->
  (Z.to_nat ((mNumTracks s + 7) / 8) <= i)%nat ->
  nth i (next_bitmap s) Byte.x00 = Byte.x00.
Proof.
  intros HN Hi. unfold next_bitmap. apply overwrite_tail.
  destruct (ifstream_read _ _) as [got f1] eqn:Rd. cbn [fst].
  apply ifstream_read_length in Rd.
  rewrite Z.shiftr_div_pow2 in Rd by lia. change (2 ^ 3) with 8 in Rd. lia.
Qed.

(** On a stream as [LoadLAF] and the loop leave it, [readChunk] returns
    exactly when the bitmap it reads passes the assertion of line 269. *)
Lemma readChunk_total s :
  chunk_ready s -> 0 < mNumTracks s ->
  bitmap_accepted (mNumTracks s) (next_bitmap s) = true ->
  exists n s', readChunk s = Ok (n, s').
Proof.
  intros R HN A. pose proof (ready_tracks _ R) as HN'.
  destruct (next_bitmap_length s HN') as [Hlen Hgot].
  apply readChunk_returns; [exact Hgot | exact A |].
  assert (Hc : count_enabled (next_bitmap s) <= mNumTracks s).
  { apply accepted_count; try assumption; try lia.
    intros i Hi. apply next_bitmap_tail; [lia | exact Hi]. }
  assert (H0 : 0 <= count_enabled (next_bitmap s)).
  { rewrite count_enabled_bits by lia. lia. }
  pose proof (ready_rate _ R). pose proof (BytesFromQuality_range (mQuality s)).
  set (rb := mSampleRate s * BytesFromQuality (mQuality s)) in *.
  assert (Hrb : 0 <= rb < 2 ^ 34) by (unfold rb; nia).
  assert (Hle : rb * count_enabled (next_bitmap s) <= rb * (mNumTracks s + 1))
    by (apply Z.mul_le_mono_nonneg_l; lia).
  assert (Hup : rb * (mNumTracks s + 1) <= 2 ^ 34 * 257)
    by (apply Z.mul_le_mono_nonneg; lia).
  assert (Hlo : 0 <= rb * count_enabled (next_bitmap s))
    by (apply Z.mul_nonneg_nonneg; lia).
  rewrite (ready_chunk _ R). fold rb. unfold u64. rewrite Z.mod_small by lia.
  apply Z2Nat.inj_le; lia.
Qed.

Lemma readChunk_chunk_ready s n s' :
  chunk_ready s -> readChunk s = Ok (n, s') -> chunk_ready s'.
Proof.
  intros R E. apply readChunk_Ok in E as (S & _ & _ & Hb & He & Ha & Hgot & Hlen).
  destruct S as (Sq & _ & Sr & _ & Sn & Sl & _).
  pose proof (ready_tracks _ R) as HN.
  destruct (next_bitmap_length s HN) as [Hblen _].
  assert (HN0 : 0 < mNumTracks s).
  { destruct (Z.eq_dec (mNumTracks s) 0) as [E0 | ]; [| lia].
    exfalso. unfold bitmap_accepted in Ha. rewrite E0 in Ha.
    change (Z.to_nat (u64 (Z.shiftr (0 + 7) 3 - 1))) with (Z.to_nat (2 ^ 64 - 1)) in Ha.
    destruct (nth_error _ _) eqn:Nth; [| discriminate].
    assert (Z.to_nat (2 ^ 64 - 1) < length (mEnabledTracks s'))%nat
      by (apply nth_error_Some; congruence).
    rewrite Hb, Hblen in H. lia. }
  constructor; rewrite ?Sq, ?Sr, ?Sn, ?Sl, ?Hlen.
  - exact HN.
  - apply (ready_rate _ R).
  - rewrite Hb. exact Hblen.
  - exact He.
  - rewrite He. apply accepted_count; try assumption; try lia.
    + rewrite Hb. exact Hblen.
    + intros i Hi. rewrite Hb. apply next_bitmap_tail; [lia | exact Hi].
  - apply (ready_line _ R).
  - apply (ready_chunk _ R).
Qed.

(** ** copySamples and prepareTrack *)

Lemma copySamples_spec ndebug sz step dst idx count mem :
  0 <= idx < step -> 0 <= count ->
  (Z.to_nat count * Z.to_nat step * sz <= dst)%nat ->
  (dst + Z.to_nat count * sz <= length mem)%nat ->
  exists mem',
    copySamples ndebug sz step dst idx count mem = Ok mem' /\
    length mem' = length mem /\
    firstn dst mem' = firstn dst mem /\
    forall k, (k < Z.to_nat count)%nat ->
      slice (dst + k * sz) sz mem'
      = slice ((k * Z.to_nat step + Z.to_nat idx) * sz) sz mem.
Proof.
  intros Hidx Hcount Hsrc Hdst. unfold copySamples, cassert, alassert.
  destruct (Z.ltb_spec idx step); [| lia].
  replace (if ndebug then Ok tt else Ok tt) with (Ok tt) by (destruct ndebug; reflexivity).
  cbn [bind].
  destruct (copySamples_loop_spec sz (Z.to_nat step) (Z.to_nat idx) dst
              (Z.to_nat count) 0 0 mem) as (mem' & E & L & F & S); try lia.
  rewrite Nat.add_0_r in F.
  exists mem'. split; [exact E |]. split; [exact L |]. split; [exact F |].
  intros k Hk. apply (S k Hk).
Qed.

Lemma prepareTrack_cases ndebug s t count :
  chunk_ready s -> (t < 256)%nat -> 0 <= count ->
  let sz := Z.to_nat (BytesFromQuality (mQuality s)) in
  let todo := Z.to_nat (Z.min (mSampleRate s) count) in
  let lineoff := fst (mSampleLine s) in
  (track_enabled (mEnabledTracks s) t = true /\ mQuality s = s24 /\
   prepareTrack ndebug s (Z.of_nat t) count = Fail (Throw SamplesNotSupported24))
  \/ exists mem',
       prepareTrack ndebug s (Z.of_nat t) count
       = Ok ((lineoff, (todo * sz)%nat), set_chunk s mem') /\
       length mem' = length (mSampleChunk s) /\
       (lineoff + todo * sz <= length mem')%nat /\
       firstn lineoff mem' = firstn lineoff (mSampleChunk s) /\
       (track_enabled (mEnabledTracks s) t = true ->
        mQuality s <> s24 /\
        forall k, (k < todo)%nat ->
          slice (lineoff + k * sz) sz mem'
          = slice ((k * Z.to_nat (mNumEnabled s) + rank (mEnabledTracks s) t) * sz) sz
                  (mSampleChunk s)) /\
       (track_enabled (mEnabledTracks s) t = false ->
        mem' = blit lineoff (repeat (silence (mQuality s)) (snd (mSampleLine s)))
                    (mSampleChunk s)).
Proof.
  intros R Ht Hcount sz todo lineoff.
  pose proof (ready_tracks _ R) as HN. pose proof (ready_rate _ R) as HR.
  pose proof (ready_bitmap _ R) as Hlen. pose proof (ready_enabled _ R) as He.
  pose proof (ready_enabled_le _ R) as Hle. pose proof (ready_chunk _ R) as Hchunk.
  pose proof (BytesFromQuality_range (mQuality s)) as HB.
  assert (Hq : (t / 8 < 32)%nat) by (apply Nat.Div0.div_lt_upper_bound; lia).
  destruct (nth_error (mEnabledTracks s) (t / 8)) as [b|] eqn:Nth;
    [| apply nth_error_None in Nth; lia].
  assert (Hrank : Z.of_nat (rank (mEnabledTracks s) 256) = mNumEnabled s).
  { rewrite He. apply rank_total. exact Hlen. }
  set (r := Z.to_nat (mSampleRate s)).
  set (nt := Z.to_nat (mNumTracks s)).
  set (ne := Z.to_nat (mNumEnabled s)).
  assert (Hne : (ne <= nt)%nat) by (subst ne nt; lia).
  assert (Htodo_r : (todo <= r)%nat) by (subst todo r; lia).
  assert (Hsize : Z.to_nat (u64 (Z.min (mSampleRate s) count * BytesFromQuality (mQuality s)))
                  = (todo * sz)%nat).
  { unfold u64. rewrite Z.mod_small by nia. subst todo sz.
    apply Z2Nat.inj_mul; lia. }
  unfold prepareTrack. subst lineoff. rewrite (ready_line _ R). cbn [fst snd].
  rewrite shiftr3_nat, Nat2Z.id, Nth.
  rewrite (bit_test_enabled _ _ _ Nth).
  assert (Hls : Z.to_nat (mSampleRate s * BytesFromQuality (mQuality s)) = (r * sz)%nat).
  { subst r sz. apply Z2Nat.inj_mul; lia. }
  assert (Hl : Z.to_nat (mSampleRate s * BytesFromQuality (mQuality s) * mNumTracks s)
               = (r * sz * nt)%nat).
  { subst nt. rewrite Z2Nat.inj_mul by nia. rewrite Hls. reflexivity. }
  rewrite Hl, Hls.
  set (line := (r * sz * nt)%nat). set (linesize := (r * sz)%nat).
  assert (Hlayout : length (mSampleChunk s) = (line + linesize)%nat).
  { rewrite Hchunk.
    replace (mSampleRate s * BytesFromQuality (mQuality s) * (mNumTracks s + 1))
      with (mSampleRate s * BytesFromQuality (mQuality s) * mNumTracks s
            + mSampleRate s * BytesFromQuality (mQuality s)) by lia.
    rewrite Z2Nat.inj_add by nia. rewrite Hl, Hls. reflexivity. }
  assert (Htodo : (todo * sz <= linesize)%nat).
  { subst linesize. apply Nat.mul_le_mono_r. exact Htodo_r. }
  assert (Hsz : sz = Z.to_nat (BytesFromQuality (mQuality s))) by reflexivity.
  assert (Htd : Z.to_nat (Z.min (mSampleRate s) count) = todo) by reflexivity.
  assert (Hned : Z.to_nat (mNumEnabled s) = ne) by reflexivity.
  assert (Hline : line = (r * sz * nt)%nat) by reflexivity.
  clearbody line linesize sz todo ne r nt.
  destruct (track_enabled (mEnabledTracks s) t) eqn:En; cbn [negb].
  - rewrite (real_index_rank (mEnabledTracks s) t b ltac:(lia) Nth).
    pose proof (rank_enabled_lt _ _ 256 En Ht) as Hlt.
    assert (Hcopy : forall sz', sz' = sz ->
      exists mem',
        copySamples ndebug sz' (mNumEnabled s) line
                    (Z.of_nat (rank (mEnabledTracks s) t))
                    (Z.min (mSampleRate s) count) (mSampleChunk s) = Ok mem' /\
        length mem' = length (mSampleChunk s) /\
        firstn line mem' = firstn line (mSampleChunk s) /\
        forall k, (k < todo)%nat ->
          slice (line + k * sz) sz mem'
          = slice ((k * ne + rank (mEnabledTracks s) t) * sz) sz
                  (mSampleChunk s)).
    { intros sz' ->.
      destruct (copySamples_spec ndebug sz (mNumEnabled s) line
                  (Z.of_nat (rank (mEnabledTracks s) t))
                  (Z.min (mSampleRate s) count) (mSampleChunk s))
        as (mem' & E & L & F & S); try lia.
      - rewrite Htd, Hned, Hline.
        transitivity (r * nt * sz)%nat; [| lia].
        apply Nat.mul_le_mono_r. apply Nat.mul_le_mono; assumption.
      - exists mem'. rewrite Nat2Z.id, Htd, Hned in S. auto. }
    destruct (mQuality s) eqn:Q.
    1-3: right;
      match goal with
      | |- context [copySamples _ ?n _ _ _ _ _] =>
          destruct (Hcopy n) as (mem' & E & L & F & S); [rewrite Hsz; reflexivity |]
      end;
      exists mem'; rewrite E; cbn [bind]; rewrite Hsize;
      destruct (Nat.leb_spec (todo * sz) linesize); [| lia]; cbn [bind];
      repeat split; auto; try lia; try discriminate.
    left. repeat split; reflexivity.
  - right. eexists. cbn [bind]. rewrite Hsize.
    destruct (Nat.leb_spec (todo * sz) linesize); [| lia]. cbn [bind].
    assert (Hb : length (blit line (repeat (silence (mQuality s)) linesize) (mSampleChunk s))
                 = length (mSampleChunk s)).
    { apply blit_length. rewrite repeat_length. lia. }
    unfold silence in *.
    split; [reflexivity |]. split; [exact Hb |]. split; [lia |]. split.
    + apply blit_firstn; lia.
    + split; [discriminate | reflexivity].
Qed.

(** ** Interleaving *)

Lemma concat_slice sz (l : list (list byte)) : forall j,
  Forall (fun x => length x = sz) l -> (j < length l)%nat ->
  slice (j * sz) sz (concat l) = nth j l [].
Proof.
  induction l as [|x l IH]; intros j Hall Hj; cbn [length] in Hj; [lia |].
  inversion Hall as [|? ? Hx Hl]; subst. cbn [concat].
  destruct j as [|j].
  - cbn [Nat.mul nth]. unfold slice. cbn [skipn].
    rewrite firstn_app, Nat.sub_diag, firstn_all. cbn [firstn]. apply app_nil_r.
  - cbn [nth]. rewrite <- IH by (auto; lia). unfold slice.
    rewrite skipn_app. rewrite skipn_all2 by (cbn; lia).
    cbn [app]. do 2 f_equal. cbn. lia.
Qed.

Lemma flat_map_nth {A} (f : nat -> list A) n d : forall frames start k r,
  (forall i, length (f i) = n) -> (k < frames)%nat -> (r < n)%nat ->
  nth (k * n + r) (flat_map f (seq start frames)) d = nth r (f (start + k)%nat) d.
Proof.
  induction frames as [|frames IH]; intros start k r Hlen Hk Hr; [lia |].
  cbn [seq flat_map]. destruct k as [|k].
  - cbn [Nat.mul Nat.add]. rewrite app_nth1 by (rewrite Hlen; exact Hr).
    rewrite Nat.add_0_r. reflexivity.
  - rewrite app_nth2 by (rewrite Hlen; cbn; lia). rewrite Hlen.
    replace (S k * n + r - n)%nat with (k * n + r)%nat by (cbn; lia).
    rewrite IH by (auto; lia). f_equal. f_equal. lia.
Qed.

Lemma flat_map_length {A} (f : nat -> list A) n : forall frames start,
  (forall i, length (f i) = n) ->
  length (flat_map f (seq start frames)) = (frames * n)%nat.
Proof.
  induction frames as [|frames IH]; intros start Hlen; [reflexivity |].
  cbn [seq flat_map]. rewrite length_app, Hlen, IH by exact Hlen. cbn. lia.
Qed.

Lemma interleave_sample sz frames seqs k r :
  sequences_ok sz frames seqs -> (k < frames)%nat -> (r < length seqs)%nat ->
  slice ((k * length seqs + r) * sz) sz (interleave seqs frames)
  = nth k (nth r seqs []) [].
Proof.
  intros Hok Hk Hr. unfold interleave.
  set (f := fun k => map (fun sq : list (list byte) => nth k sq []) seqs).
  assert (Hlen : forall i, length (f i) = length seqs)
    by (intros; unfold f; apply length_map).
  rewrite concat_slice.
  - rewrite (flat_map_nth f (length seqs)) by assumption.
    unfold f. cbn [Nat.add].
    rewrite (nth_indep _ [] (nth k [] [])) by (rewrite length_map; exact Hr).
    rewrite (map_nth (fun sq : list (list byte) => nth k sq [])). reflexivity.
  - apply Forall_forall. intros x Hx. apply in_flat_map in Hx as (i & Hi & Hx).
    apply in_seq in Hi. unfold f in Hx. apply in_map_iff in Hx as (sq & <- & Hsq).
    unfold sequences_ok in Hok. rewrite Forall_forall in Hok.
    destruct (Hok _ Hsq) as [Hl Hs]. rewrite Forall_forall in Hs.
    apply Hs. apply nth_In. lia.
  - rewrite (flat_map_length f (length seqs)) by assumption. nia.
Qed.

Lemma chunks_of_length sz n : forall l, length (chunks_of sz n l) = n.
Proof. induction n as [|n IH]; intros l; cbn; auto. Qed.

Lemma chunks_of_nth sz n : forall l k,
  (k < n)%nat -> nth k (chunks_of sz n l) [] = slice (k * sz) sz l.
Proof.
  induction n as [|n IH]; intros l k Hk; [lia |].
  cbn [chunks_of]. destruct k as [|k].
  - reflexivity.
  - cbn [nth]. rewrite IH by lia. unfold slice. rewrite skipn_skipn.
    do 2 f_equal. cbn. lia.
Qed.

Lemma span_sample sz off size k (mem : list byte) :
  (k * sz + sz <= size)%nat ->
  slice (k * sz) sz (slice off size mem) = slice (off + k * sz) sz mem.
Proof. intros H. apply slice_slice. lia. Qed.

(** C2 (amended): for a stream of quality int8, int16 or float32 and an
    enabled track t, [prepareTrack] returns the first
    min(sampleRate, frameCount) samples of the track: output sample k is the chunk sample at interleaved
    index k*N + rank(t), with N the number of enabled tracks and rank(t) the
    number of enabled tracks below t; when the chunk is the interleaving
    of one sequence per enabled track, the output is that prefix of the
    sequence of track t. *)
Theorem prepareTrack_recovers_track (ndebug : bool) (s : LafStream) (t : nat)
    (count : Z) (seqs : list (list (list byte))) (frames : nat) :
  chunk_ready s -> (t < 256)%nat -> 0 <= count ->
  mQuality s <> s24 ->
  track_enabled (mEnabledTracks s) t = true ->
  let sz := Z.to_nat (BytesFromQuality (mQuality s)) in
  let N := Z.to_nat (mNumEnabled s) in
  let todo := Z.to_nat (Z.min (mSampleRate s) count) in
  length seqs = N -> (todo <= frames)%nat -> sequences_ok sz frames seqs ->
  firstn (frames * N * sz) (mSampleChunk s) = interleave seqs frames ->
  (1 <= N)%nat /\ (rank (mEnabledTracks s) t < N)%nat /\
  N = rank (mEnabledTracks s) 256 /\
  exists sp s',
    prepareTrack ndebug s (Z.of_nat t) count = Ok (sp, s') /\
    (forall k, (k < todo)%nat ->
       slice (k * sz) sz (span_bytes sp s')
       = slice ((k * N + rank (mEnabledTracks s) t) * sz) sz (mSampleChunk s)) /\
    chunks_of sz todo (span_bytes sp s')
    = firstn todo (nth (rank (mEnabledTracks s) t) seqs []).
Proof.
  intros R Ht Hcount Hq En sz N todo Hseqs Hframes Hok Hchunk.
  assert (HN : N = rank (mEnabledTracks s) 256).
  { subst N. rewrite (ready_enabled _ R), <- rank_total by apply (ready_bitmap _ R).
    apply Nat2Z.id. }
  pose proof (rank_enabled_lt _ _ 256 En Ht) as Hlt. rewrite <- HN in Hlt.
  split; [lia |]. split; [exact Hlt |]. split; [exact HN |].
  destruct (prepareTrack_cases ndebug s t count R Ht Hcount)
    as [(_ & Q & _) | (mem' & E & L & Hfit & F & Hen & _)]; [contradiction |].
  destruct (Hen En) as [_ S]. fold sz in E, S, Hfit. fold todo in E, S, Hfit. fold N in S.
  eexists. eexists. split; [exact E |].
  assert (Hidx : forall k, (k < todo)%nat ->
     slice (k * sz) sz (span_bytes (fst (mSampleLine s), (todo * sz)%nat) (set_chunk s mem'))
     = slice ((k * N + rank (mEnabledTracks s) t) * sz) sz (mSampleChunk s)).
  { intros k Hk. unfold span_bytes. cbn [fst snd set_chunk mSampleChunk].
    rewrite span_sample by nia. apply S. exact Hk. }
  split; [exact Hidx |].
  assert (Hsq : length (nth (rank (mEnabledTracks s) t) seqs []) = frames).
  { unfold sequences_ok in Hok. rewrite Forall_forall in Hok.
    apply Hok. apply nth_In. lia. }
  apply (nth_ext _ _ [] []).
  - rewrite chunks_of_length, length_firstn. lia.
  - intros k Hk. rewrite chunks_of_length in Hk.
    rewrite chunks_of_nth, Hidx by exact Hk.
    rewrite nth_firstn. destruct (Nat.ltb_spec k todo); [| lia].
    rewrite <- (interleave_sample sz frames seqs k) by (auto; lia).
    rewrite <- Hchunk, Hseqs. symmetry.
    apply (slice_of_firstn _ _ (frames * N * sz)).
    + clear - Hk Hframes Hlt. clearbody sz N todo.
      replace ((k * N + rank (mEnabledTracks s) t) * sz + sz)%nat
        with ((k * N + rank (mEnabledTracks s) t + 1) * sz)%nat by lia.
      apply Nat.mul_le_mono_r.
      transitivity ((k + 1) * N)%nat; [lia |].
      apply Nat.mul_le_mono_r. lia.
    + rewrite firstn_firstn. f_equal. lia.
Qed.

(** C7 (amended): the span [prepareTrack] returns has
    min(sampleRate, frameCount) * bytesPerSample(quality) bytes; the only
    call that returns no span is that for an enabled track of an int24
    stream, which throws. *)
Theorem prepareTrack_span_length (ndebug : bool) (s : LafStream) (t : nat) (count : Z) :
  chunk_ready s -> (t < 256)%nat -> 0 <= count ->
  (track_enabled (mEnabledTracks s) t = true /\ mQuality s = s24 /\
   prepareTrack ndebug s (Z.of_nat t) count = Fail (Throw SamplesNotSupported24))
  \/ exists sp s',
       prepareTrack ndebug s (Z.of_nat t) count = Ok (sp, s') /\
       Z.of_nat (length (span_bytes sp s'))
       = Z.min (mSampleRate s) count * BytesFromQuality (mQuality s).
Proof.
  intros R Ht Hcount.
  destruct (prepareTrack_cases ndebug s t count R Ht Hcount)
    as [H | (mem' & E & L & Hfit & _)]; [left; exact H | right].
  eexists. eexists. split; [exact E |].
  unfold span_bytes. cbn [fst snd set_chunk mSampleChunk].
  rewrite slice_length by exact Hfit.
  pose proof (ready_rate _ R). pose proof (BytesFromQuality_range (mQuality s)).
  rewrite Nat2Z.inj_mul, !Z2Nat.id by lia. reflexivity.
Qed.

(** [prepareTrack] keeps the stream ready for the next track. *)
Lemma prepareTrack_chunk_ready ndebug s t count sp s' :
  chunk_ready s -> (t < 256)%nat -> 0 <= count ->
  prepareTrack ndebug s (Z.of_nat t) count = Ok (sp, s') ->
  chunk_ready s' /\ mQuality s' = mQuality s /\ mChannels s' = mChannels s /\
  mPosTracks s' = mPosTracks s /\ mSampleRate s' = mSampleRate s.
Proof.
  intros R Ht Hcount E.
  destruct (prepareTrack_cases ndebug s t count R Ht Hcount)
    as [(_ & _ & F) | (mem' & E' & L & _)]; [congruence |].
  rewrite E' in E. inversion E; subst.
  split; [| cbn; repeat split; reflexivity].
  destruct R. constructor; cbn; auto. congruence.
Qed.

(** ** int24 streams *)

Lemma load_channel_int24 ndebug n buf after i s :
  chunk_ready s -> (i < 256)%nat -> 0 <= n -> mQuality s = s24 ->
  load_channel ndebug n buf [] after i s = ([], Fail (Throw SamplesNotSupported24)).
Proof.
  intros R Hi Hn Q. unfold load_channel, lift, tbind.
  destruct (prepareTrack ndebug s (Z.of_nat i) n) as [[sp s1] | f] eqn:E.
  - destruct (prepareTrack_chunk_ready _ _ _ _ _ _ R Hi Hn E) as (_ & Q1 & _).
    rewrite Q1, Q. reflexivity.
  - destruct (prepareTrack_cases ndebug s i n R Hi Hn)
      as [(_ & _ & F) | (mem' & E1 & _)]; congruence.
Qed.

Lemma readChunk_nonneg s n s' :
  chunk_ready s -> readChunk s = Ok (n, s') -> 0 <= n.
Proof.
  intros R E. apply readChunk_Ok in E as (_ & -> & _).
  unfold u32. apply Z.mod_pos_bound. lia.
Qed.

(** [prepareTrack] refuses an enabled track of an int24 stream before it
    touches the sample buffer. *)
Lemma prepareTrack_int24_enabled ndebug s t count :
  mQuality s = s24 -> track_enabled (mEnabledTracks s) t = true ->
  prepareTrack ndebug s (Z.of_nat t) count = Fail (Throw SamplesNotSupported24).
Proof.
  intros Q En. unfold prepareTrack. destruct (mSampleLine s) as [lineoff linesize].
  rewrite shiftr3_nat, Nat2Z.id.
  destruct (nth_error (mEnabledTracks s) (t / 8)) as [b|] eqn:Hb.
  - rewrite (bit_test_enabled _ _ _ Hb), En, Q. reflexivity.
  - exfalso. unfold track_enabled in En.
    rewrite nth_overflow in En by (apply nth_error_None; exact Hb).
    cbn in En. rewrite Z.bits_0 in En. discriminate En.
Qed.

(** C4 (amended): for a stream whose quality is int24, [convertPositions]
    attempts no conversion and raises no error: it returns with the
    destination unchanged, whatever the source bytes are.  The
    UnsupportedFeatureError for int24 is raised elsewhere: by
    [FormatFromQuality], and by [prepareTrack] for an enabled track. *)
Theorem convertPositions_int24 (s : LafStream) (dst : list spec_float)
    (src : list byte) :
  mQuality s = s24 ->
  convertPositions (mQuality s) dst src = Ok dst
  /\ FormatFromQuality (mQuality s) = Fail (Throw SamplesNotSupported24)
  /\ is_UnsupportedFeatureError (Throw SamplesNotSupported24) = true
  /\ forall ndebug t count,
       track_enabled (mEnabledTracks s) t = true ->
       prepareTrack ndebug s (Z.of_nat t) count
       = Fail (Throw SamplesNotSupported24).
Proof.
  intros Q. split; [rewrite Q; reflexivity |].
  split; [rewrite Q; reflexivity |]. split; [reflexivity |].
  intros ndebug t count En.
  apply prepareTrack_int24_enabled; assumption.
Qed.

(** ** Position updates *)

Lemma land15_nat i : Z.land (Z.of_nat i) 15 = Z.of_nat i mod 16.
Proof. change 15 with (Z.ones 4). rewrite Z.land_ones by lia. reflexivity. Qed.

Lemma shiftr4_nat i : Z.shiftr (Z.of_nat i) 4 = Z.of_nat (i / 16).
Proof.
  rewrite Z.shiftr_div_pow2 by lia. change (2 ^ 4) with (Z.of_nat 16).
  symmetry. apply Nat2Z.inj_div.
Qed.

Lemma triple_index_range o i : 0 <= o < 2 ^ 31 -> 0 <= triple_index o i < 2 ^ 36.
Proof.
  intros Ho. unfold triple_index.
  pose proof (Z.mod_pos_bound (Z.of_nat i) 16 ltac:(lia)).
  assert (0 <= o / 48) by (apply Z.div_pos; lia).
  assert (o / 48 <= o) by (apply Z.div_le_upper_bound; lia). lia.
Qed.

(** The element index of the code, free of its casts. *)
Lemma posoffset_triple_index o i j :
  0 <= o < 2 ^ 31 -> 0 <= j <= 2 ->
  u64 (posoffset o (Z.of_nat i) * 3 + j) = triple_index o i * 3 + j.
Proof.
  intros Ho Hj. pose proof (triple_index_range o i Ho).
  unfold posoffset, FramesPerPos, u32, u64. rewrite land15_nat.
  rewrite (Z.mod_small o) by lia. fold (triple_index o i).
  rewrite (Z.mod_small (triple_index o i)) by lia.
  apply Z.mod_small. lia.
Qed.

(** For a sample rate R that is a positive multiple of 48, an offset o
    with 0 <= o < 2R (an ALint) and a channel i, the three element indexes
    ((o / 48) * 16 + i mod 16) * 3 + {0, 1, 2} are below 2R, the length of
    a window as line 484 allocates it. *)
Lemma triple_index_in_window (R o : Z) (i : nat) (j : Z) :
  0 < R -> R mod 48 = 0 -> 0 <= o < 2 * R -> o < 2 ^ 31 -> 0 <= j <= 2 ->
  u64 (posoffset o (Z.of_nat i) * 3 + j) = triple_index o i * 3 + j
  /\ 0 <= triple_index o i * 3 + j < 2 * R
  /\ (Z.to_nat (u64 (posoffset o (Z.of_nat i) * 3 + j)) < length (empty_window R))%nat.
Proof.
  intros HR H48 Ho Hint Hj.
  assert (Hidx : 0 <= triple_index o i * 3 + j < 2 * R).
  { unfold triple_index.
    pose proof (Z.mod_pos_bound (Z.of_nat i) 16 ltac:(lia)).
    apply Z.mod_divide in H48; [| lia]. destruct H48 as [m Hm].
    assert (0 <= o / 48 < 2 * m).
    { split; [apply Z.div_pos; lia | apply Z.div_lt_upper_bound; lia]. }
    lia. }
  rewrite posoffset_triple_index by lia.
  split; [reflexivity |]. split; [exact Hidx |].
  unfold empty_window. rewrite repeat_length. lia.
Qed.

Lemma positions_ready_in_bounds s o :
  positions_ready s -> 0 <= o < 2 * mSampleRate s -> o < 2 ^ 31 ->
  lookups_in_bounds s o.
Proof.
  intros P Ho Hint i Hi.
  destruct (triple_index_in_window (mSampleRate s) o i 2
              (ready_pos_rate _ P) (ready_pos_48 _ P) Ho Hint ltac:(lia)) as (_ & B & _).
  pose proof (ready_groups _ P) as Hg.
  assert (Hq : (i / 16 < length (mPosTracks s))%nat)
    by (apply Nat.Div0.div_lt_upper_bound; lia).
  pose proof (ready_windows _ P) as Hw. rewrite Forall_forall in Hw.
  rewrite (Hw (nth (i / 16) (mPosTracks s) [])) by (apply nth_In; exact Hq).
  lia.
Qed.

Lemma for_each_emits {S} (g : nat -> sink_call) (body : nat -> S -> traced S) st :
  forall idxs,
  (forall i, In i idxs -> body i st = ([g i], Ok st)) ->
  for_each idxs body st = (map g idxs, Ok st).
Proof.
  induction idxs as [|i idxs IH]; intros H; [reflexivity |].
  cbn [for_each map]. rewrite (H i) by (left; reflexivity).
  cbn [tbind]. rewrite IH by (intros; apply H; right; assumption).
  reflexivity.
Qed.

Lemma pos_elem_Ok line s i e :
  (Z.to_nat e < length (nth (i / 16) (mPosTracks s) []))%nat ->
  pos_elem line s (Z.shiftr (Z.of_nat i) 4) e
  = Ok (nth (Z.to_nat e) (nth (i / 16) (mPosTracks s) []) S754_nan).
Proof.
  intros He. unfold pos_elem. rewrite shiftr4_nat, Nat2Z.id.
  destruct (nth_error (mPosTracks s) (i / 16)) as [w|] eqn:Nw.
  - rewrite (nth_error_nth _ _ _ Nw) in *.
    destruct (nth_error w (Z.to_nat e)) as [v|] eqn:Nv;
      [| apply nth_error_None in Nv; lia].
    rewrite (nth_error_nth _ _ _ Nv). reflexivity.
  - apply nth_error_None in Nw. rewrite nth_overflow in He by exact Nw.
    cbn in He. lia.
Qed.

Lemma update_positions_trace s o :
  mPosTracks s <> [] -> 0 <= o < 2 ^ 31 -> lookups_in_bounds s o ->
  update_positions s o
  = (alcSuspendContext
       :: map (position_call s o) (seq 0 (length (mChannels s)))
       ++ [alcProcessContext], Ok tt).
Proof.
  intros Hne Ho Hin. unfold update_positions.
  destruct (mPosTracks s) as [|w ws] eqn:Epos; [congruence |].
  unfold emit, for_loop. cbn [tbind].
  rewrite (for_each_emits (position_call s o)).
  - reflexivity.
  - intros i Hi. apply in_seq in Hi. unfold update_position, lift, emit.
    pose proof (triple_index_range o i Ho) as Hti.
    specialize (Hin i ltac:(lia)).
    rewrite !posoffset_triple_index by lia.
    rewrite !pos_elem_Ok by lia. cbn [tbind app].
    unfold position_call.
    replace (Z.to_nat (triple_index o i * 3 + 0)) with (Z.to_nat (triple_index o i * 3)) by lia.
    replace (Z.to_nat (triple_index o i * 3 + 1)) with (Z.to_nat (triple_index o i * 3) + 1)%nat by lia.
    replace (Z.to_nat (triple_index o i * 3 + 2)) with (Z.to_nat (triple_index o i * 3) + 2)%nat by lia.
    reflexivity.
Qed.

(** An iteration that observes AL_PLAYING or AL_PAUSED on a stream with
    position tracks starts with the position update of every channel,
    between a suspend and a process call, when the lookups stay inside the
    windows. *)
Lemma tick_position_calls (ndebug : bool) (s : LafStream) (obs : observation) :
  state obs = AL_PLAYING \/ state obs = AL_PAUSED ->
  mPosTracks s <> [] -> mChannels s <> [] ->
  0 <= offset obs < 2 ^ 31 -> lookups_in_bounds s (offset obs) ->
  exists rest r,
    tick ndebug s obs
    = (alcSuspendContext
         :: map (position_call s (offset obs)) (seq 0 (length (mChannels s)))
         ++ alcProcessContext :: rest, r).
Proof.
  intros St Hpos Hch Ho Hin. unfold tick.
  destruct (mChannels s) as [|ch chs] eqn:Ech; [congruence |].
  assert (Ht : exists rest r,
    tick_playing ndebug s obs
    = (alcSuspendContext
         :: map (position_call s (offset obs)) (seq 0 (length (mChannels s)))
         ++ alcProcessContext :: rest, r)).
  { unfold tick_playing.
    rewrite (update_positions_trace s (offset obs) Hpos Ho Hin).
    cbn [tbind].
    match goal with
    | |- exists rest r, (let '(_, _) := ?k in _) = _ =>
        destruct k as [more res]
    end.
    exists more, res. cbn [app]. rewrite <- app_assoc. reflexivity. }
  destruct Ht as (rest & r & Et). rewrite <- Ech.
  destruct St as [-> | ->]; rewrite Et; cbn [tbind];
    destruct r as [s' | f]; cbn [tret]; eexists; eexists;
    rewrite ?app_nil_r; reflexivity.
Qed.

Lemma loaded_positions_ready ndebug c laf :
  loaded ndebug c laf -> mPosTracks laf <> [] -> 0 < mSampleRate laf ->
  positions_ready laf.
Proof.
  intros L Hne HR.
  assert (Hobj : mMode laf = Objects).
  { destruct (loaded_loop _ _ _ L) as (pos & Hl & Hp).
    apply load_tracks_Ok in Hl as (_ & _ & M & _); [| constructor | congruence].
    apply M. intros ->. apply Hne. rewrite Hp. reflexivity. }
  constructor.
  - exact HR.
  - destruct (loaded_rate_48 _ _ _ L) as [Hc | H48]; [congruence | exact H48].
  - destruct (loaded_loop _ _ _ L) as (pos & _ & ->).
    apply Forall_forall. intros w Hw. apply in_map_iff in Hw as (? & <- & _).
    unfold empty_window. apply repeat_length.
  - destruct (loaded_objects_count _ _ _ L Hobj) as [_ H].
    pose proof (Z.div_mod (Z.of_nat (length (mChannels laf)) + 15) 16 ltac:(lia)).
    pose proof (Z.mod_pos_bound (Z.of_nat (length (mChannels laf)) + 15) 16 ltac:(lia)).
    lia.
Qed.

(** From a freshly loaded stream with a positive sample rate the reader
    comes to the end, and the ranges it returned cover [0, T). *)
Lemma loaded_read_chunks ndebug heap c laf fuel :
  LoadLAF ndebug heap c = Ok laf -> 1 <= mSampleRate laf ->
  mSampleCount laf <= Z.of_nat fuel ->
  read_chunks fuel laf <> None /\
  forall rs s', read_chunks fuel laf = Some (Ok (rs, s')) ->
    tiles 0 (mSampleCount laf) rs /\ mCurrentSample s' = mSampleCount laf.
Proof.
  intros E HR Hfuel. apply LoadLAF_Ok in E as L.
  destruct (loaded_bounds _ _ _ L) as [HR' HT].
  pose proof (loaded_current _ _ _ L) as Hc.
  destruct (read_chunks_partition fuel laf) as [Hfin Hok]; try lia.
  split; [exact Hfin |]. intros rs s' Er.
  destruct (Hok rs s' Er) as (Ht & _ & Hend). rewrite Hc in Ht. auto.
Qed.

(** ** The playback loop keeps the stream in shape *)

Lemma loaded_stream_ready ndebug c laf : loaded ndebug c laf -> stream_ready laf.
Proof.
  intros L. constructor.
  - apply (loaded_chunk_ready _ _ _ L).
  - apply (loaded_track_total _ _ _ L).
  - destruct (loaded_loop _ _ _ L) as (pos & _ & ->).
    apply Forall_forall. intros w Hw. apply in_map_iff in Hw as (? & <- & _).
    unfold empty_window. apply repeat_length.
  - intros Hne.
    assert (Hobj : mMode laf = Objects).
    { destruct (loaded_loop _ _ _ L) as (pos & Hl & Hp).
      apply load_tracks_Ok in Hl as (_ & _ & M & _); [| constructor | congruence].
      apply M. intros ->. apply Hne. rewrite Hp. reflexivity. }
    split.
    + destruct (loaded_rate_48 _ _ _ L) as [Hc | H48]; [congruence | exact H48].
    + destruct (loaded_objects_count _ _ _ L Hobj) as [_ H].
      pose proof (Z.div_mod (Z.of_nat (length (mChannels laf)) + 15) 16 ltac:(lia)).
      pose proof (Z.mod_pos_bound (Z.of_nat (length (mChannels laf)) + 15) 16 ltac:(lia)).
      lia.
Qed.

Lemma stream_ready_positions s :
  stream_ready s -> mPosTracks s <> [] -> 0 < mSampleRate s -> positions_ready s.
Proof.
  intros R Hne HR. destruct (sr_groups _ R Hne) as [H48 Hg].
  constructor; [exact HR | exact H48 | apply (sr_windows _ R) | exact Hg].
Qed.

Lemma same_shape_refl s : same_shape s s.
Proof. repeat split. Qed.

Lemma same_shape_trans s1 s2 s3 :
  same_shape s1 s2 -> same_shape s2 s3 -> same_shape s1 s3.
Proof.
  intros (A1 & A2 & A3 & A4 & A5) (B1 & B2 & B3 & B4 & B5).
  repeat split; congruence.
Qed.

Lemma set_chunk_ready s mem :
  stream_ready s -> length mem = length (mSampleChunk s) ->
  stream_ready (set_chunk s mem) /\ same_shape s (set_chunk s mem).
Proof.
  intros [C Sp W G] L. split; [| repeat split].
  constructor; cbn; auto.
  destruct C. constructor; cbn; auto. congruence.
Qed.

Lemma readChunk_stream_ready s n s' :
  stream_ready s -> readChunk s = Ok (n, s') ->
  stream_ready s' /\ same_shape s s' /\ 0 <= n.
Proof.
  intros R E. pose proof (readChunk_chunk_ready _ _ _ (sr_chunk _ R) E) as C.
  pose proof (readChunk_nonneg _ _ _ (sr_chunk _ R) E) as Hn.
  apply readChunk_Ok in E as (S & _).
  destruct S as (Sq & _ & Sr & _ & Sn & _ & Sc & Sp).
  destruct R as [_ Sp0 W G].
  split; [| split; [repeat split; congruence | exact Hn]].
  constructor; rewrite ?Sc, ?Sp, ?Sn, ?Sr; auto.
Qed.

Lemma prepareTrack_stream_ready ndebug s t count sp s' :
  stream_ready s -> (t < 256)%nat -> 0 <= count ->
  prepareTrack ndebug s (Z.of_nat t) count = Ok (sp, s') ->
  stream_ready s' /\ same_shape s s' /\ mPosTracks s' = mPosTracks s.
Proof.
  intros R Ht Hcount E.
  destruct (prepareTrack_cases ndebug s t count (sr_chunk _ R) Ht Hcount)
    as [(_ & _ & F) | (mem' & E' & L & _)]; [congruence |].
  rewrite E' in E. inversion E; subst.
  destruct (set_chunk_ready s mem' R L) as [R' S'].
  split; [exact R' |]. split; [exact S' | reflexivity].
Qed.

(** ** Inversion of traced computations *)

Lemma tbind_Ok {A B} (m : traced A) (k : A -> traced B) tr b :
  tbind m k = (tr, Ok b) ->
  exists t1 a t2, m = (t1, Ok a) /\ k a = (t2, Ok b) /\ tr = t1 ++ t2.
Proof.
  unfold tbind. destruct m as [t1 [a | f]]; [| discriminate].
  destruct (k a) as [t2 r] eqn:E. intros H; inversion H; subst.
  exists t1, a, t2. auto.
Qed.

Lemma lift_Ok {A} (r : result A) tr a : lift r = (tr, Ok a) -> r = Ok a.
Proof. unfold lift. intros H; inversion H; reflexivity. Qed.

Lemma for_each_invariant {S} (Inv : S -> Prop) (body : nat -> S -> traced S) :
  forall idxs st tr st',
  (forall i st t st', In i idxs -> Inv st -> body i st = (t, Ok st') -> Inv st') ->
  Inv st -> for_each idxs body st = (tr, Ok st') -> Inv st'.
Proof.
  induction idxs as [|i idxs IH]; intros st tr st' Hbody Hinv E; cbn [for_each] in E.
  - inversion E; subst. exact Hinv.
  - apply tbind_Ok in E as (t1 & st1 & t2 & E1 & E2 & _).
    apply (IH st1 t2 st'); [| | exact E2].
    + intros j st0 t st0' Hj. apply Hbody. right. exact Hj.
    + apply (Hbody i st t1 st1); [left; reflexivity | exact Hinv | exact E1].
Qed.

Lemma store_floats_length line vals dst out :
  store_floats line vals dst = Ok out -> length out = length dst.
Proof.
  unfold store_floats. destruct (Nat.leb_spec (length vals) (length dst)); [| discriminate].
  intros E; inversion E; subst. rewrite length_app, length_skipn. lia.
Qed.

Lemma convertPositions_length quality dst src out :
  convertPositions quality dst src = Ok out -> length out = length dst.
Proof.
  destruct quality; cbn [convertPositions]; intros E;
    try (eapply store_floats_length; exact E).
  inversion E; reflexivity.
Qed.

Lemma set_nth_length {A} i (v : A) l :
  (i < length l)%nat -> length (set_nth i v l) = length l.
Proof.
  intros H. unfold set_nth. rewrite length_app, length_firstn. cbn [length].
  rewrite length_skipn. lia.
Qed.

Lemma Forall_firstn_skipn {A} (P : A -> Prop) n (l : list A) :
  Forall P l -> Forall P (firstn n l) /\ Forall P (skipn n l).
Proof.
  intros H. rewrite <- (firstn_skipn n l) in H. apply Forall_app in H. exact H.
Qed.

Lemma set_nth_Forall {A} (P : A -> Prop) i v l :
  Forall P l -> P v -> Forall P (set_nth i v l).
Proof.
  intros Hl Hv. unfold set_nth. apply Forall_app. split.
  - apply (Forall_firstn_skipn P i l Hl).
  - constructor; [exact Hv |]. apply (Forall_firstn_skipn P (S i) l Hl).
Qed.

Lemma set_postracks_ready s pos :
  stream_ready s ->
  Forall (fun w => length w = Z.to_nat (mSampleRate s * 2)) pos ->
  length pos = length (mPosTracks s) ->
  stream_ready (set_postracks s pos) /\ same_shape s (set_postracks s pos).
Proof.
  intros [C Sp W G] Hall Hlen. split; [| repeat split; cbn; auto].
  constructor; cbn.
  - destruct C. constructor; cbn; auto.
  - rewrite Hlen. exact Sp.
  - exact Hall.
  - intros Hne. rewrite Hlen. apply G. intros E. apply Hne.
    rewrite E in Hlen. destruct pos; [reflexivity | discriminate].
Qed.

Lemma load_channel_stream_ready ndebug n buf before after i s tr s' :
  stream_ready s -> 0 <= n -> (i < length (mChannels s))%nat ->
  load_channel ndebug n buf before after i s = (tr, Ok s') ->
  stream_ready s' /\ same_shape s s'.
Proof.
  intros R Hn Hi E. unfold load_channel in E.
  apply tbind_Ok in E as (t1 & [sp s1] & t2 & E1 & E2 & _).
  apply lift_Ok in E1.
  assert (Ht : (i < 256)%nat).
  { pose proof (sr_split _ R). pose proof (ready_tracks _ (sr_chunk _ R)). lia. }
  destruct (prepareTrack_stream_ready _ _ _ _ _ _ R Ht Hn E1) as (R1 & S1 & _).
  apply tbind_Ok in E2 as (? & ? & ? & _ & E2 & _).
  apply tbind_Ok in E2 as (? & ? & ? & _ & E2 & _).
  apply tbind_Ok in E2 as (? & ? & ? & _ & E2 & _).
  apply tbind_Ok in E2 as (? & ? & ? & _ & E2 & _).
  inversion E2; subst. split; assumption.
Qed.

Lemma load_positions_stream_ready ndebug shift last n i s tr s' :
  stream_ready s -> 0 <= n -> (i < length (mPosTracks s))%nat ->
  load_positions ndebug shift last n i s = (tr, Ok s') ->
  stream_ready s' /\ same_shape s s'.
Proof.
  intros R Hn Hi E. unfold load_positions in E. apply lift_Ok in E.
  destruct (nth_error (mPosTracks s) i) as [track|] eqn:Nth; [| discriminate].
  apply bind_Ok in E as (? & Hrate & E).
  destruct (Nat.leb_spec (Z.to_nat (mSampleRate s)) (length track)) as [Hle |];
    [| discriminate].
  apply bind_Ok in E as ([positions s1] & E1 & E).
  apply bind_Ok in E as (dst & Ec & E). inversion E; subst; clear E.
  assert (Ht : (length (mChannels s) + i < 256)%nat).
  { pose proof (sr_split _ R). pose proof (ready_tracks _ (sr_chunk _ R)). lia. }
  destruct (prepareTrack_stream_ready _ _ _ _ _ _ R Ht Hn E1) as (R1 & S1 & P1).
  pose proof (sr_windows _ R) as W. rewrite Forall_forall in W.
  pose proof (W track (nth_error_In _ _ Nth)) as Hlen.
  set (rate := Z.to_nat (mSampleRate s)) in *.
  set (track1 := if shift then blit 0 (skipn rate track) track else track) in *.
  assert (Hlen1 : length track1 = length track).
  { unfold track1. destruct shift; [| reflexivity].
    apply blit_length. rewrite length_skipn. lia. }
  set (off := if last then (length track1 - rate)%nat else 0%nat) in *.
  assert (Hoff : (off + rate <= length track1)%nat) by (unfold off; destruct last; lia).
  apply convertPositions_length in Ec. rewrite slice_length in Ec by exact Hoff.
  destruct S1 as (Sq & Sr & Sn & Sc & Sp).
  destruct (set_postracks_ready s1
              (set_nth i (blit off dst track1) (mPosTracks s1)) R1) as [R2 S2].
  - apply set_nth_Forall; [apply (sr_windows _ R1) |].
    rewrite blit_length by lia. rewrite Sr. congruence.
  - apply set_nth_length. rewrite P1. exact Hi.
  - split; [exact R2 |].
    apply (same_shape_trans s s1); [repeat split; assumption | exact S2].
Qed.

(** A loop over [n] indexes whose body keeps the stream in shape. *)
Lemma for_loop_stream_ready s0 n (body : nat -> LafStream -> traced LafStream) s tr s' :
  (forall i st t st', (i < n)%nat ->
     stream_ready st -> same_shape s0 st -> body i st = (t, Ok st') ->
     stream_ready st' /\ same_shape st st') ->
  stream_ready s -> same_shape s0 s ->
  for_loop n body s = (tr, Ok s') ->
  stream_ready s' /\ same_shape s0 s'.
Proof.
  intros Hbody R S E. unfold for_loop in E.
  apply (for_each_invariant (fun st => stream_ready st /\ same_shape s0 st)
           body (seq 0 n) s tr s'); [| split; assumption | exact E].
  intros i st t st' Hi [Rst Sst] Eb. apply in_seq in Hi.
  destruct (Hbody i st t st' ltac:(lia) Rst Sst Eb) as [R' S'].
  split; [exact R' | apply (same_shape_trans _ st); assumption].
Qed.

Lemma channels_loop_ready ndebug n buf before after s tr s' :
  stream_ready s -> 0 <= n ->
  for_loop (length (mChannels s))
    (fun i st => load_channel ndebug n (buf i) (before i) (after i) i st) s
  = (tr, Ok s') ->
  stream_ready s' /\ same_shape s s'.
Proof.
  intros R Hn E.
  refine (for_loop_stream_ready s _ _ s tr s' _ R (same_shape_refl s) E).
  intros i st t st' Hi Rst (_ & _ & _ & Sc & _) Eb.
  refine (load_channel_stream_ready _ _ _ _ _ _ _ _ _ Rst Hn _ Eb).
  rewrite Sc. exact Hi.
Qed.

Lemma positions_loop_ready ndebug shift last n s tr s' :
  stream_ready s -> 0 <= n ->
  for_loop (length (mPosTracks s))
    (fun i st => load_positions ndebug shift last n i st) s
  = (tr, Ok s') ->
  stream_ready s' /\ same_shape s s'.
Proof.
  intros R Hn E.
  refine (for_loop_stream_ready s _ _ s tr s' _ R (same_shape_refl s) E).
  intros i st t st' Hi Rst (_ & _ & _ & _ & Sp) Eb.
  refine (load_positions_stream_ready _ _ _ _ _ _ _ _ Rst Hn _ Eb).
  rewrite Sp. exact Hi.
Qed.

Lemma tick_playing_stream_ready ndebug s obs tr s' :
  stream_ready s -> tick_playing ndebug s obs = (tr, Ok s') ->
  stream_ready s' /\ same_shape s s'.
Proof.
  intros R E. unfold tick_playing in E.
  apply tbind_Ok in E as (t0 & [] & t1 & _ & E & _).
  destruct (0 <? processed obs).
  - apply tbind_Ok in E as (? & [n s1] & ? & E1 & E & _). apply lift_Ok in E1.
    destruct (readChunk_stream_ready _ _ _ R E1) as (R1 & S1 & Hn).
    apply tbind_Ok in E as (? & s2 & ? & E2 & E & _).
    destruct (channels_loop_ready ndebug n Unqueued
                (fun i => [alSourceUnqueueBuffers i])
                (fun i => [alSourceQueueBuffers i [Unqueued i]])
                s1 _ s2 R1 Hn E2) as [R2 S2].
    destruct (positions_loop_ready _ _ _ _ _ _ _ R2 Hn E) as [R3 S3].
    split; [exact R3 |].
    apply (same_shape_trans _ s1); [exact S1 |].
    apply (same_shape_trans _ s2); assumption.
  - apply tbind_Ok in E as (? & ? & ? & _ & E & _). inversion E; subst.
    split; [exact R | apply same_shape_refl].
Qed.

Lemma tick_initial_stream_ready ndebug s tr s' :
  stream_ready s -> tick_initial ndebug s = (tr, Ok s') ->
  stream_ready s' /\ same_shape s s'.
Proof.
  intros R E. unfold tick_initial in E.
  apply tbind_Ok in E as (? & [n s1] & ? & E1 & E & _). apply lift_Ok in E1.
  destruct (readChunk_stream_ready _ _ _ R E1) as (R1 & S1 & Hn).
  apply tbind_Ok in E as (? & s2 & ? & E2 & E & _).
  destruct (channels_loop_ready ndebug n (fun i => ChannelBuffer i 0)
              (fun _ => []) (fun _ => []) s1 _ s2 R1 Hn E2) as [R2 S2].
  apply tbind_Ok in E as (? & s3 & ? & E3 & E & _).
  destruct (positions_loop_ready _ _ _ _ _ _ _ R2 Hn E3) as [R3 S3].
  apply tbind_Ok in E as (? & [n2 s4] & ? & E4 & E & _). apply lift_Ok in E4.
  destruct (readChunk_stream_ready _ _ _ R3 E4) as (R4 & S4 & Hn2).
  apply tbind_Ok in E as (? & s5 & ? & E5 & E & _).
  destruct (channels_loop_ready ndebug n2 (fun i => ChannelBuffer i 1)
              (fun _ => [])
              (fun i => [alSourceQueueBuffers i [ChannelBuffer i 0; ChannelBuffer i 1]])
              s4 _ s5 R4 Hn2 E5) as [R5 S5].
  apply tbind_Ok in E as (? & s6 & ? & E6 & E & _).
  destruct (positions_loop_ready _ _ _ _ _ _ _ R5 Hn2 E6) as [R6 S6].
  apply tbind_Ok in E as (? & ? & ? & _ & E & _).
  apply tbind_Ok in E as (? & ? & ? & _ & E & _).
  inversion E; subst. split; [exact R6 |].
  repeat (eapply same_shape_trans; [eassumption |]). apply same_shape_refl.
Qed.

(** Every iteration of the playback loop that returns leaves the stream
    in shape. *)
Lemma tick_stream_ready ndebug s obs tr s' continue :
  stream_ready s -> tick ndebug s obs = (tr, Ok (s', continue)) ->
  stream_ready s' /\ same_shape s s'.
Proof.
  intros R E. unfold tick in E.
  destruct (mChannels s) as [|ch chs]; [discriminate |].
  destruct (state obs).
  - apply tbind_Ok in E as (? & s1 & ? & E1 & E & _). inversion E; subst.
    apply (tick_initial_stream_ready _ _ _ _ R E1).
  - apply tbind_Ok in E as (? & s1 & ? & E1 & E & _). inversion E; subst.
    apply (tick_playing_stream_ready _ _ _ _ _ R E1).
  - apply tbind_Ok in E as (? & s1 & ? & E1 & E & _). inversion E; subst.
    apply (tick_playing_stream_ready _ _ _ _ _ R E1).
  - apply tbind_Ok in E as (? & s1 & ? & E1 & E & _). inversion E; subst.
    unfold tick_stopped in E1.
    apply tbind_Ok in E1 as (? & ? & ? & _ & E1 & _). inversion E1; subst.
    split; [exact R | apply same_shape_refl].
  - inversion E; subst. split; [exact R | apply same_shape_refl].
Qed.

(** The playback loop of a loaded stream keeps it in shape through all its
    iterations. *)
Lemma play_loop_stream_ready ndebug obss : forall s tr s',
  stream_ready s -> play_loop ndebug s obss = (tr, Ok s') ->
  stream_ready s' /\ same_shape s s'.
Proof.
  induction obss as [|obs rest IH]; intros s tr s' R E; cbn [play_loop] in E.
  - destruct (isAtEnd s); inversion E; subst; split; auto using same_shape_refl.
  - destruct (isAtEnd s); [inversion E; subst; split; auto using same_shape_refl |].
    apply tbind_Ok in E as (? & [s1 continue] & ? & E1 & E & _).
    destruct (tick_stream_ready _ _ _ _ _ _ R E1) as [R1 S1].
    destruct continue.
    + destruct (IH _ _ _ R1 E) as [R2 S2].
      split; [exact R2 | apply (same_shape_trans _ s1); assumption].
    + inversion E; subst. split; assumption.
Qed.

(** ** Example files *)

Ltac decide_by_computation :=
  vm_compute;
  repeat match goal with
         | |- _ /\ _ => split
         | |- _ <> _ => discriminate
         | |- ~ _ => let H := fresh in intros H; decompose [and or] H; clear H
         | |- _ = _ => reflexivity
         | H : ?x = ?x -> False |- _ => exact (H eq_refl)
         | |- _ -> _ => intro
         | H : _ = _ |- _ => discriminate H
         | |- (_ <= _)%nat => lia
         | |- (_ < _)%nat => lia
         end.

(** Examples for C3: each of the five defects, with the failure the
    loader ends in. *)
Example bad_magic_rejected : LoadLAF false plenty bad_magic_file = Fail (Abort 379).
Proof. vm_compute. reflexivity. Qed.

Example bad_quality_rejected :
  LoadLAF false plenty bad_quality_file = Fail (Throw (InvalidQualityType 4)).
Proof. vm_compute. reflexivity. Qed.

Example bad_mode_rejected :
  LoadLAF false plenty bad_mode_file = Fail (Throw (InvalidMode 2)).
Proof. vm_compute. reflexivity. Qed.

Example too_many_tracks_rejected :
  LoadLAF false plenty too_many_tracks_file = Fail (Throw (TooManyTracks 257)).
Proof. vm_compute. reflexivity. Qed.

Example bad_rate_rejected : LoadLAF false plenty bad_rate_file = Fail (Abort 481).
Proof. vm_compute. reflexivity. Qed.

(** Examples for C5: no position track for one audio track, and no track
    at all. *)
Example no_position_rejected : LoadLAF false plenty no_position_file = Fail (Abort 455).
Proof. vm_compute. reflexivity. Qed.

Example empty_objects_rejected : LoadLAF false plenty empty_objects_file = Fail (Abort 455).
Proof. vm_compute. reflexivity. Qed.

(** Under NDEBUG the track records are not read: the loader takes the
    bytes of the first record for the footer and rejects the file on the
    position tracks it did not see. *)
Example objects_file_ndebug : LoadLAF true plenty objects_file = Fail (Abort 455).
Proof. vm_compute. reflexivity. Qed.

Lemma LoadLAF_rejects_malformed_header_witness :
  exists f, LoadLAF false plenty bad_rate_file = Fail f /\ is_FormatError f = true /\
            forall obss, PlayLAF false plenty bad_rate_file obss = ([], Fail f).
Proof.
  apply (LoadLAF_rejects_malformed_header false plenty bad_rate_file).
  right. right. right. right. decide_by_computation.
Defined.

Lemma read_chunks_stall s n :
  isAtEnd s = false -> readChunk s = Ok (n, s) ->
  forall fuel, read_chunks fuel s = None.
Proof.
  intros He Er fuel. induction fuel as [|fuel IH]; cbn [read_chunks]; rewrite He.
  - reflexivity.
  - rewrite Er, IH. reflexivity.
Qed.

(** C1, counterexample: a stream with sample rate 0 loads and is not at
    its end, but every [readChunk] returns the empty range at sample 0 and
    leaves the counter there, so the ranges neither increase nor reach
    the end of the stream. *)
Lemma readChunk_zero_rate_stalls :
  LoadLAF false plenty zero_rate_file = Ok (stream_of zero_rate_file) /\
  mSampleRate (stream_of zero_rate_file) = 0 /\
  mSampleCount (stream_of zero_rate_file) = 1 /\
  isAtEnd (stream_of zero_rate_file) = false /\
  readChunk (stream_of zero_rate_file) = Ok (0, zero_rate_stalled) /\
  readChunk zero_rate_stalled = Ok (0, zero_rate_stalled) /\
  mCurrentSample zero_rate_stalled = 0 /\
  isAtEnd zero_rate_stalled = false /\
  forall fuel, read_chunks fuel zero_rate_stalled = None.
Proof.
  split; [vm_compute; reflexivity |].
  split; [vm_compute; reflexivity |].
  split; [vm_compute; reflexivity |].
  split; [vm_compute; reflexivity |].
  split; [vm_compute; reflexivity |].
  split; [vm_compute; reflexivity |].
  split; [vm_compute; reflexivity |].
  split; [vm_compute; reflexivity |].
  apply (read_chunks_stall _ 0); vm_compute; reflexivity.
Qed.

Lemma readChunk_partitions_stream_witness :
  exists rs s',
    read_chunks 96 (stream_of objects_file) = Some (Ok (rs, s')) /\
    tiles 0 96 rs /\
    Forall (fun r => snd r = Z.min 48 (96 - fst r)) rs /\
    mCurrentSample s' = 96.
Proof.
  destruct (readChunk_partitions_stream (stream_of objects_file))
    as [_ H]; [decide_by_computation .. |].
  destruct (H 96%nat) as [Hfin Hok]; [decide_by_computation |].
  destruct (read_chunks 96 (stream_of objects_file)) as [[[rs s'] | f] |] eqn:E;
    [| vm_compute in E; discriminate E | congruence].
  exists rs, s'. destruct (Hok rs s' eq_refl) as (Ht & Hall & _ & Hend).
  repeat split; assumption.
Defined.

(** C2, counterexample: a chunk of an int24 stream that interleaves the
    one sequence of its one enabled track; [prepareTrack] throws instead of
    returning the sequence. *)
Lemma prepareTrack_int24_throws :
  mQuality int24_first_chunk = s24 /\
  mNumEnabled int24_first_chunk = 1 /\
  track_enabled (mEnabledTracks int24_first_chunk) 0 = true /\
  firstn 3 (mSampleChunk int24_first_chunk)
  = interleave [[[Byte.x01; Byte.x02; Byte.x03]]] 1 /\
  prepareTrack false int24_first_chunk 0 1 = Fail (Throw SamplesNotSupported24).
Proof.
  split; [vm_compute; reflexivity |]. split; [vm_compute; reflexivity |].
  split; [vm_compute; reflexivity |]. split; [vm_compute; reflexivity |].
  vm_compute. reflexivity.
Qed.

Lemma prepareTrack_recovers_track_witness :
  exists sp s',
    prepareTrack false objects_first_chunk (Z.of_nat 1) 48 = Ok (sp, s') /\
    chunks_of 1 48 (span_bytes sp s') = nth 1 objects_sequences [].
Proof.
  assert (Esz : Z.to_nat (BytesFromQuality (mQuality objects_first_chunk)) = 1%nat)
    by (vm_compute; reflexivity).
  assert (Etodo : Z.to_nat (Z.min (mSampleRate objects_first_chunk) 48) = 48%nat)
    by (vm_compute; reflexivity).
  assert (Erank : rank (mEnabledTracks objects_first_chunk) 1 = 1%nat)
    by (vm_compute; reflexivity).
  assert (Eseq : firstn 48 (nth 1 objects_sequences []) = nth 1 objects_sequences [])
    by (vm_compute; reflexivity).
  destruct (prepareTrack_recovers_track false objects_first_chunk 1 48
              objects_sequences 48)
    as (_ & _ & _ & sp & s' & E & _ & H).
  - constructor; decide_by_computation.
  - lia.
  - lia.
  - vm_compute. discriminate.
  - vm_compute. reflexivity.
  - vm_compute. reflexivity.
  - rewrite Etodo. lia.
  - rewrite Esz. unfold sequences_ok, objects_sequences.
    repeat constructor; rewrite ?length_map, ?length_seq; try reflexivity;
      apply Forall_forall; intros x Hx; apply in_map_iff in Hx as (k & <- & _);
      reflexivity.
  - vm_compute. reflexivity.
  - rewrite Esz, Etodo, Erank, Eseq in H. exists sp, s'. split; [exact E | exact H].
Defined.

Lemma LoadLAF_objects_position_tracks_witness :
  exists laf,
    LoadLAF false plenty objects_file = Ok laf /\ mMode laf = Objects /\
    length (mChannels laf) = 1%nat /\ length (mPosTracks laf) = 1%nat /\
    file_position_tracks objects_file = (file_audio_tracks objects_file + 15) / 16
  /\ exists f, LoadLAF false plenty no_position_file = Fail f /\ is_FormatError f = true.
Proof.
  exists (stream_of objects_file).
  destruct (LoadLAF_objects_position_tracks false plenty objects_file) as [H _];
    [vm_compute; reflexivity |].
  destruct (H (stream_of objects_file)) as (M & _ & _ & P); [vm_compute; reflexivity |].
  split; [vm_compute; reflexivity |]. split; [exact M |].
  split; [vm_compute; reflexivity |]. split; [vm_compute; reflexivity |].
  split; [exact P |].
  destruct (LoadLAF_objects_position_tracks false plenty no_position_file) as [_ H'];
    [vm_compute; reflexivity |].
  apply H'. decide_by_computation.
Defined.

(** X21, witness: the channel of [objects_file] is finite, and
    [nan_record_file] is rejected. *)
Lemma LoadLAF_rejects_malformed_record_witness :
  Forall finite_channel (mChannels (stream_of objects_file))
  /\ exists f, LoadLAF false plenty nan_record_file = Fail f /\ is_FormatError f = true.
Proof.
  split.
  - destruct (LoadLAF_rejects_malformed_record plenty objects_file) as [H _].
    apply (H false). vm_compute. reflexivity.
  - destruct (LoadLAF_rejects_malformed_record plenty nan_record_file) as [_ H].
    apply (H 0%nat).
    + vm_compute. reflexivity.
    + left. vm_compute. split; reflexivity.
Defined.

(** C10: in a build with NDEBUG the read of the track records disappears
    together with the [assert] that holds it (line 414), so the checks of
    lines 441-442 see a zero-filled buffer instead of the records of the
    file: [LoadLAF] then accepts [infinite_azimuth_file], whose only record
    has an infinite azimuth, as a stream with one audio channel (at azimuth
    0.0), whatever the allocator does, where the build with [assert]
    enabled rejects the file at line 442. *)
Theorem LoadLAF_ndebug_accepts_infinite_azimuth :
  file_track_count infinite_azimuth_file = 1 /\
  is_infinite (record_azimuth (file_track_record infinite_azimuth_file 0)) = true /\
  (forall heap, LoadLAF false heap infinite_azimuth_file = Fail (Abort 442)) /\
  exists laf,
    (forall heap, LoadLAF true heap infinite_azimuth_file = Ok laf) /\
    map mAzimuth (mChannels laf) = [S754_zero false] /\ mPosTracks laf = [].
Proof.
  split; [vm_compute; reflexivity |]. split; [vm_compute; reflexivity |]. split.
  - intros heap. apply LoadLAF_plenty_Fail. vm_compute. reflexivity.
  - exists (match LoadLAF true plenty infinite_azimuth_file with
            | Ok laf => laf
            | Fail _ => LafStream_default
            end).
    split; [| split; vm_compute; reflexivity].
    intros heap. vm_compute. reflexivity.
Qed.

(** C4, counterexample: on an int24 stream [convertPositions] returns
    normally, leaves the destination as it was, and is no failure of any
    kind. *)
Lemma convertPositions_int24_returns :
  mQuality (stream_of int24_file) = s24 /\
  convertPositions (mQuality (stream_of int24_file))
                   [S754_finite false 8388608 (-23)]
                   [Byte.x01; Byte.x02; Byte.x03]
  = Ok [S754_finite false 8388608 (-23)] /\
  forall f, convertPositions s24 [S754_finite false 8388608 (-23)]
                             [Byte.x01; Byte.x02; Byte.x03] <> Fail f.
Proof.
  split; [vm_compute; reflexivity |]. split; [vm_compute; reflexivity |].
  intros f. discriminate.
Qed.

(** C4, witness: [int24_file] after its first [readChunk], which enables
    track 0. *)
Lemma convertPositions_int24_witness :
  convertPositions (mQuality int24_first_chunk) [S754_zero false] [Byte.x01]
  = Ok [S754_zero false]
  /\ prepareTrack false int24_first_chunk 0 1 = Fail (Throw SamplesNotSupported24).
Proof.
  assert (Q : mQuality int24_first_chunk = s24) by (vm_compute; reflexivity).
  destruct (convertPositions_int24 int24_first_chunk [S754_zero false] [Byte.x01] Q)
    as (H1 & _ & _ & H2).
  split; [exact H1 |].
  apply (H2 false 0%nat 1). vm_compute. reflexivity.
Defined.

(** C7, counterexample: at 48 Hz with 8-bit samples, a request for 100
    frames returns a span of 48 bytes, not of 100. *)
Lemma prepareTrack_clamps_frame_count :
  mSampleRate objects_first_chunk = 48 /\
  BytesFromQuality (mQuality objects_first_chunk) = 1 /\
  exists sp s',
    prepareTrack false objects_first_chunk 0 100 = Ok (sp, s') /\
    Z.of_nat (length (span_bytes sp s')) = 48 /\
    Z.of_nat (length (span_bytes sp s'))
    <> 100 * BytesFromQuality (mQuality objects_first_chunk).
Proof.
  split; [vm_compute; reflexivity |]. split; [vm_compute; reflexivity |].
  eexists. eexists. split; [vm_compute; reflexivity |].
  split; [vm_compute; reflexivity |]. vm_compute. discriminate.
Qed.

Lemma prepareTrack_span_length_witness :
  exists sp s',
    prepareTrack false objects_first_chunk (Z.of_nat 0) 100 = Ok (sp, s') /\
    Z.of_nat (length (span_bytes sp s')) = 48.
Proof.
  assert (Esize : Z.min (mSampleRate objects_first_chunk) 100
                  * BytesFromQuality (mQuality objects_first_chunk) = 48)
    by (vm_compute; reflexivity).
  destruct (prepareTrack_span_length false objects_first_chunk 0 100)
    as [(_ & Q & _) | (sp & s' & E & L)].
  - constructor; decide_by_computation.
  - lia.
  - lia.
  - vm_compute in Q. discriminate Q.
  - rewrite Esize in L. exists sp, s'. split; [exact E | exact L].
Defined.

(** C8, failing input: eight tracks, track 0 enabled.  The bitmap is well
    formed, and [readChunk] aborts on its assertion. *)
Lemma readChunk_aborts_on_last_byte_witness :
  mNumTracks (stream_of eight_track_file) = 8 /\
  next_bitmap (stream_of eight_track_file) = Byte.x01 :: zeros 31 /\
  well_formed_bitmap 8 (next_bitmap (stream_of eight_track_file)) /\
  readChunk (stream_of eight_track_file) = Fail (Abort 269).
Proof.
  assert (Eb : next_bitmap (stream_of eight_track_file) = Byte.x01 :: zeros 31)
    by (vm_compute; reflexivity).
  split; [vm_compute; reflexivity |]. split; [exact Eb |]. split.
  - rewrite Eb. intros t Ht.
    destruct (Nat.lt_ge_cases t 8) as [Hlt | Hge]; [exact Hlt | exfalso].
    unfold track_enabled in Ht.
    assert (Hq : (1 <= t / 8)%nat) by (apply Nat.div_le_lower_bound; lia).
    assert (Hz : nth (t / 8) (Byte.x01 :: zeros 31) Byte.x00 = Byte.x00).
    { destruct (t / 8)%nat as [|q]; [lia |]. cbn [nth].
      destruct (Nat.lt_ge_cases q 31).
      - apply nth_repeat_lt. assumption.
      - apply nth_overflow. unfold zeros. rewrite repeat_length. assumption. }
    rewrite Hz in Ht. change (byte.unsigned Byte.x00) with 0 in Ht.
    rewrite Z.bits_0 in Ht. discriminate Ht.
  - apply readChunk_aborts_on_last_byte.
    + vm_compute. split; [reflexivity | discriminate].
    + vm_compute. reflexivity.
    + vm_compute. discriminate.
Defined.

(** ** The track records of a loaded file *)

Lemma load_track_audio mode i rec chs pos chs' pos' :
  load_track mode i rec (chs, pos) = Ok (chs', pos') ->
  is_marker rec = false ->
  chs' = chs ++ [channel_of_record rec] /\ pos' = pos.
Proof.
  unfold load_track, is_marker, channel_of_record, record_elevation, record_azimuth.
  intros H M. rewrite M in H.
  apply bind_Ok in H as (? & _ & H). apply bind_Ok in H as (? & _ & H).
  inversion H; subst. split; reflexivity.
Qed.

Lemma load_tracks_layout mode chandata n : forall i chs pos chs' pos',
  load_tracks mode chandata i n (chs, pos) = Ok (chs', pos') ->
  exists a, (a <= n)%nat /\
    chs' = chs ++ map channel_of_record (firstn a (loop_records chandata i n)) /\
    forallb (fun r => negb (is_marker r)) (firstn a (loop_records chandata i n)) = true /\
    forallb is_marker (skipn a (loop_records chandata i n)) = true /\
    pos' = pos ++ repeat [] (n - a) /\
    (pos <> [] -> a = 0%nat).
Proof.
  induction n as [|n IH]; intros i chs pos chs' pos'.
  - cbn. intros H; inversion H; subst. exists 0%nat.
    rewrite !app_nil_r. repeat split; auto.
  - rewrite loop_records_S. cbn [load_tracks].
    intros H. apply bind_Ok in H as ([chs1 pos1] & H1 & H).
    apply IH in H as (a & Ha & Hc & Hf & Hm & Hp & H0).
    destruct (load_track_Ok _ _ _ _ _ _ _ H1)
      as [(M & _ & _ & -> & ->) | (M & -> & -> & _)].
    + assert (a = 0%nat) as -> by (apply H0; destruct pos; discriminate).
      exists 0%nat. cbn [firstn map skipn forallb] in *.
      rewrite M, Hm. rewrite app_nil_r in *. subst.
      repeat split; auto; try lia.
      rewrite <- app_assoc. cbn. rewrite Nat.sub_0_r. reflexivity.
    + apply load_track_audio in H1 as [-> _]; [| exact M].
      exists (S a). cbn [firstn map skipn forallb]. rewrite M, Hf, Hm.
      subst. rewrite <- app_assoc. cbn. repeat split; auto; try lia.
      intros C; contradiction C; reflexivity.
Qed.

Lemma forallb_firstn_nth {A} (p : A -> bool) d (l : list A) a k :
  forallb p (firstn a l) = true -> (k < a)%nat -> (k < length l)%nat ->
  p (nth k l d) = true.
Proof.
  intros H Hk Hl. rewrite forallb_forall in H. apply H.
  replace (nth k l d) with (nth k (firstn a l) d).
  - apply nth_In. rewrite length_firstn. lia.
  - rewrite nth_firstn. destruct (Nat.ltb_spec k a); [reflexivity | lia].
Qed.

Lemma quality_of_stype_code b q :
  quality_of_stype (char_to_int b) = Ok q -> byte.unsigned b = quality_code q.
Proof.
  unfold quality_of_stype. rewrite !char_to_int_small by lia.
  repeat match goal with |- context [?a =? ?b] => destruct (Z.eqb_spec a b) end;
    try discriminate; intros H; inversion H; subst; cbn; assumption.
Qed.

Lemma LoadLAF_file ndebug heap c laf :
  LoadLAF ndebug heap c = Ok laf ->
  let skipped := (31 + if ndebug then 0 else 9 * Z.to_nat (file_track_count c))%nat in
  file_quality_code c = quality_code (mQuality laf) /\
  good (mInFile laf) = true /\
  remaining (mInFile laf) = skipn skipped c /\
  (skipped <= length c)%nat.
Proof.
  unfold LoadLAF. intros H. walk_Ok H.
  apply alassert_Ok in E, E0, E1, E2, E9, E10.
  destruct (ifstream_read_good _ _ _ _ Heqp E) as (_ & L9 & -> & R9).
  destruct (ifstream_read_good _ _ _ _ Heqp0 E1) as (_ & L10 & -> & R10).
  destruct (ifstream_read_good _ _ _ _ Heqp3 E9) as (_ & L12 & -> & R12).
  cbn [ifstream_open remaining] in *. rewrite R9 in *.
  change (Z.to_nat 9) with 9%nat in *. change (Z.to_nat 10) with 10%nat in *.
  change (Z.to_nat 12) with 12%nat in *.
  change (firstn 10 (skipn 9 c)) with (slice 9 10 c) in *.
  rewrite !(slice_slice 6 4 9 10) in * by lia.
  rewrite !nth_slice in E3, E4 by lia.
  cbn [Nat.add] in * |-. unfold read_uint in *.
  fold (file_track_count c) in *.
  assert (HN : 0 <= file_track_count c <= 256).
  { unfold file_track_count. pose proof (le_combine_bound (slice 15 4 c)).
    fold (file_track_count c) in *. cbn [length] in *. revert E5.
    destruct (Z.ltb_spec 256 (file_track_count c)); [discriminate | lia]. }
  assert (Hrem : remaining i1 = skipn (19 + if ndebug then 0 else 9 * Z.to_nat (file_track_count c)) c
                 /\ (19 + (if ndebug then 0 else 9 * Z.to_nat (file_track_count c))
                     <= length c)%nat).
  { destruct ndebug.
    - inversion E6; subst. rewrite R10, skipn_skipn. rewrite length_skipn in L10.
      split; [reflexivity | lia].
    - destruct (ifstream_read i0 _) as [got f3] eqn:R.
      apply bind_Ok in E6 as (? & G & E6). inversion E6; subst.
      apply alassert_Ok in G.
      destruct (ifstream_read_good _ _ _ _ R G) as (_ & Ln & _ & ->).
      rewrite R10 in *. rewrite !skipn_skipn. rewrite !length_skipn in Ln.
      rewrite length_skipn in L10. split; [f_equal; lia | lia]. }
  destruct Hrem as [Hrem Hlen].
  inversion H; subst; clear H. cbn [mQuality mInFile].
  split; [apply quality_of_stype_code; exact E3 |].
  split; [exact E9 |].
  rewrite R12, Hrem, skipn_skipn. rewrite Hrem, length_skipn in L12.
  split; [f_equal; lia | lia].
Qed.

Lemma mode_of_code_code b m :
  mode_of_code (char_to_int b) = Ok m -> byte.unsigned b = mode_code m.
Proof.
  intros H. apply mode_of_code_Ok in H as [[-> ->] | [-> ->]]; reflexivity.
Qed.

Lemma file_records_nth c i :
  (i < Z.to_nat (file_track_count c))%nat ->
  nth i (file_records c) [] = file_track_record c i.
Proof.
  intros H. unfold file_records.
  rewrite (nth_indep _ [] (file_track_record c 0))
    by (rewrite length_map, length_seq; exact H).
  rewrite (map_nth (file_track_record c)), seq_nth by exact H. reflexivity.
Qed.

Lemma file_records_length c :
  length (file_records c) = Z.to_nat (file_track_count c).
Proof. unfold file_records. rewrite length_map, length_seq. reflexivity. Qed.

(** The track loop on a loaded file: the number of channels is the index of
    the first position marker. *)
Lemma loaded_layout c laf :
  loaded false c laf ->
  let A := length (mChannels laf) in
  let T := Z.to_nat (file_track_count c) in
  (A + length (mPosTracks laf) = T)%nat /\
  mChannels laf = map channel_of_record (firstn A (file_records c)) /\
  forallb (fun r => negb (is_marker r)) (firstn A (file_records c)) = true /\
  forallb is_marker (skipn A (file_records c)) = true.
Proof.
  intros L A T. destruct (loaded_loop _ _ _ L) as (pos & Hl & HP).
  apply load_tracks_layout in Hl as (a & Ha & Hc & Hf & Hm & -> & _).
  rewrite (loaded_numtracks _ _ _ L), <- file_records_loop in *.
  fold T in Ha, HP.
  assert (Ea : A = a).
  { unfold A. rewrite Hc. cbn [app]. rewrite length_map, length_firstn, file_records_length.
    fold T. lia. }
  rewrite Ea. cbn [app] in *. rewrite HP, length_map, repeat_length.
  repeat split; auto. lia.
Qed.

Lemma forallb_skipn_nth {A} (p : A -> bool) d (l : list A) a k :
  forallb p (skipn a l) = true -> (a <= k < length l)%nat ->
  p (nth k l d) = true.
Proof.
  intros H Hk. rewrite forallb_forall in H. apply H.
  replace k with (a + (k - a))%nat by lia. rewrite <- nth_skipn.
  apply nth_In. rewrite length_skipn. lia.
Qed.

(** X1: in a build with [assert] enabled, the track records of a file
    that [LoadLAF] accepts are the audio tracks first and the position
    markers last: with [A] channels loaded, the records below [A] are no
    markers and all records from [A] on are markers, one position track
    for each.  A Channels file has no position track, and the first track
    of an Objects file is an audio track (lines 433-447). *)
Theorem LoadLAF_position_tracks_last (heap : allocator) (c : list byte) (laf : LafStream) :
  LoadLAF false heap c = Ok laf ->
  let A := length (mChannels laf) in
  let T := Z.to_nat (file_track_count c) in
  (A + length (mPosTracks laf) = T)%nat /\
  (forall i, (i < A)%nat -> is_marker (file_track_record c i) = false) /\
  (forall i, (A <= i < T)%nat -> is_marker (file_track_record c i) = true) /\
  (mMode laf = Channels -> mPosTracks laf = []) /\
  (mMode laf = Objects -> (1 <= A)%nat).
Proof.
  intros H A T. apply LoadLAF_Ok in H.
  destruct (loaded_layout _ _ H) as (Hsum & _ & Hf & Hm). fold A T in Hsum, Hf, Hm.
  split; [exact Hsum |]. split; [| split; [| split]].
  - intros i Hi. rewrite <- file_records_nth by lia.
    apply negb_true_iff.
    apply (forallb_firstn_nth (fun r => negb (is_marker r)) [] _ A); auto.
    rewrite file_records_length. fold T. lia.
  - intros i Hi. rewrite <- file_records_nth by (fold T; lia).
    apply (forallb_skipn_nth is_marker [] _ A); auto.
    rewrite file_records_length. fold T. lia.
  - intros M. destruct (loaded_loop _ _ _ H) as (pos & Hl & ->).
    apply load_tracks_Ok in Hl as (_ & _ & Hmode & _); [| constructor | congruence].
    destruct pos; [reflexivity |].
    assert (mMode laf = Objects) by (apply Hmode; discriminate). congruence.
  - intros M. pose proof (loaded_objects_count _ _ _ H M). fold A in H0. lia.
Qed.

(** X1, witness: [objects_file] has the audio track 0 and the position
    track 1. *)
Lemma LoadLAF_position_tracks_last_witness :
  is_marker (file_track_record objects_file 0) = false /\
  is_marker (file_track_record objects_file 1) = true /\
  length (mChannels (stream_of objects_file)) = 1%nat.
Proof.
  assert (E : LoadLAF false plenty objects_file = Ok (stream_of objects_file))
    by (vm_compute; reflexivity).
  assert (EA : length (mChannels (stream_of objects_file)) = 1%nat)
    by (vm_compute; reflexivity).
  assert (ET : Z.to_nat (file_track_count objects_file) = 2%nat)
    by (vm_compute; reflexivity).
  destruct (LoadLAF_position_tracks_last plenty objects_file (stream_of objects_file) E)
    as (_ & Hlow & Hhigh & _).
  rewrite EA in Hlow, Hhigh. rewrite ET in Hhigh.
  split; [apply Hlow; lia |]. split; [apply Hhigh; lia | exact EA].
Defined.

(** X2: in a build with [assert] enabled, channel [i] of a loaded stream
    carries the fields of track record [i] of the file, which starts at
    byte [19 + 9 i]: the elevation is the float of its first four bytes, the
    azimuth the float of the next four, and the channel is an LFE channel
    when the ninth byte is not zero; both angles are finite
    (lines 426-446). *)
Theorem LoadLAF_channel_fields (heap : allocator) (c : list byte) (laf : LafStream) (i : nat) :
  LoadLAF false heap c = Ok laf -> (i < length (mChannels laf))%nat ->
  exists ch,
    nth_error (mChannels laf) i = Some ch /\
    mElevation ch = float_of_bits (le_combine (slice (19 + 9 * i) 4 c)) /\
    mAzimuth ch = float_of_bits (le_combine (slice (19 + 9 * i + 4) 4 c)) /\
    mIsLfe ch = negb (byte.unsigned (nth (19 + 9 * i + 8) c Byte.x00) =? 0) /\
    isfinite (mElevation ch) = true /\ isfinite (mAzimuth ch) = true.
Proof.
  intros H Hi. apply LoadLAF_Ok in H.
  assert (Hfin : Forall finite_channel (mChannels laf)).
  { destruct (loaded_loop _ _ _ H) as (pos & Hl & _).
    apply load_tracks_Ok in Hl as (_ & Hfin & _); [exact Hfin | constructor | congruence]. }
  destruct (loaded_layout _ _ H) as (Hsum & Hc & _ & _).
  exists (channel_of_record (file_track_record c i)).
  assert (Hnth : nth_error (mChannels laf) i
                 = Some (channel_of_record (file_track_record c i))).
  { rewrite Hc at 1. rewrite nth_error_map.
    rewrite nth_error_firstn. destruct (Nat.ltb_spec i (length (mChannels laf))); [| lia].
    rewrite (nth_error_nth' _ []) by (rewrite file_records_length; lia).
    rewrite file_records_nth by lia. reflexivity. }
  split; [exact Hnth |].
  unfold channel_of_record, record_elevation, record_azimuth, read_float, file_track_record.
  cbn [mElevation mAzimuth mIsLfe].
  rewrite !slice_slice by lia. rewrite nth_slice by lia.
  rewrite char_to_int_small by lia.
  rewrite Nat.add_0_r.
  repeat split.
  - rewrite Forall_forall in Hfin. apply nth_error_In in Hnth. apply Hfin in Hnth.
    destruct Hnth as [He _]. revert He.
    unfold channel_of_record, record_elevation, read_float, file_track_record.
    cbn [mElevation]. rewrite slice_slice by lia. rewrite Nat.add_0_r. auto.
  - rewrite Forall_forall in Hfin. apply nth_error_In in Hnth. apply Hfin in Hnth.
    destruct Hnth as [_ Ha]. revert Ha.
    unfold channel_of_record, record_azimuth, read_float, file_track_record.
    cbn [mAzimuth]. rewrite slice_slice by lia. auto.
Qed.

(** X2, witness: channel 0 of [objects_file]. *)
Lemma LoadLAF_channel_fields_witness :
  exists ch,
    nth_error (mChannels (stream_of objects_file)) 0 = Some ch /\
    mElevation ch = S754_zero false /\ mIsLfe ch = false.
Proof.
  assert (E : LoadLAF false plenty objects_file = Ok (stream_of objects_file))
    by (vm_compute; reflexivity).
  assert (L : (0 < length (mChannels (stream_of objects_file)))%nat)
    by (vm_compute; lia).
  destruct (LoadLAF_channel_fields plenty objects_file (stream_of objects_file) 0 E L)
    as (ch & Hn & He & _ & Hl & _).
  exists ch. split; [exact Hn |]. split.
  - rewrite He. vm_compute. reflexivity.
  - rewrite Hl. vm_compute. reflexivity.
Defined.

(** X3: in a build with [assert] enabled, a loaded stream carries the
    header and footer fields of the file at the offsets of the container
    layout: the quality and mode codes at bytes 13 and 14, the track count
    at byte 15, and behind the track records the sample rate and the sample
    count.  The file holds at least the 31 bytes of header and footer and 9
    bytes for each track, the stream stands at sample 0 with the input
    positioned behind the footer, and the sample buffer has room for one
    second of every track and of the mono line (lines 378-403, 457-489). *)
Theorem LoadLAF_header_fields (heap : allocator) (c : list byte) (laf : LafStream) :
  LoadLAF false heap c = Ok laf ->
  let T := Z.to_nat (file_track_count c) in
  file_quality_code c = quality_code (mQuality laf) /\
  file_mode_code c = mode_code (mMode laf) /\
  mNumTracks laf = file_track_count c /\
  mSampleRate laf = file_sample_rate c /\
  mSampleCount laf = file_sample_count c /\
  (31 + 9 * T <= length c)%nat /\
  good (mInFile laf) = true /\
  remaining (mInFile laf) = skipn (31 + 9 * T) c /\
  mCurrentSample laf = 0 /\
  Z.of_nat (length (mSampleChunk laf))
  = mSampleRate laf * BytesFromQuality (mQuality laf) * (mNumTracks laf + 1).
Proof.
  intros H T. destruct (LoadLAF_file _ _ _ _ H) as (Hq & Hg & Hr & Hl).
  apply LoadLAF_Ok in H. fold T in Hr, Hl.
  pose proof (loaded_numtracks_le _ _ _ H) as HN.
  pose proof (loaded_bounds _ _ _ H) as [HR _].
  pose proof (BytesFromQuality_range (mQuality laf)) as HB.
  assert (Hfoot : footer_of false c = slice (19 + 9 * T) 12 c).
  { unfold footer_of, T. f_equal. lia. }
  split; [exact Hq |]. split.
  { destruct (loaded_mode _ _ _ H) as [[-> ->] | [-> ->]]; reflexivity. }
  split; [apply (loaded_numtracks _ _ _ H) |].
  split; [apply (loaded_sample_rate _ _ H) |].
  split.
  { rewrite (loaded_count _ _ _ H), Hfoot, slice_slice by lia.
    unfold file_sample_count. fold T. do 2 f_equal. lia. }
  split; [exact Hl |]. split; [exact Hg |]. split; [exact Hr |].
  split; [apply (loaded_current _ _ _ H) |].
  rewrite (loaded_chunk _ _ _ H). unfold zeros. rewrite repeat_length. nia.
Qed.

(** X3, witness: the fields of [objects_file]. *)
Lemma LoadLAF_header_fields_witness :
  mQuality (stream_of objects_file) = s8 /\
  file_sample_rate objects_file = 48 /\
  file_sample_count objects_file = 96 /\
  Z.of_nat (length (mSampleChunk (stream_of objects_file))) = 144.
Proof.
  assert (E : LoadLAF false plenty objects_file = Ok (stream_of objects_file))
    by (vm_compute; reflexivity).
  assert (ER : mSampleRate (stream_of objects_file) = 48) by (vm_compute; reflexivity).
  assert (EC : mSampleCount (stream_of objects_file) = 96) by (vm_compute; reflexivity).
  assert (EN : mNumTracks (stream_of objects_file) = 2) by (vm_compute; reflexivity).
  assert (EQ : mQuality (stream_of objects_file) = s8) by (vm_compute; reflexivity).
  destruct (LoadLAF_header_fields plenty objects_file (stream_of objects_file) E)
    as (_ & _ & _ & Hr & Hc & _ & _ & _ & _ & Hb).
  rewrite ER in Hr. rewrite EC in Hc. rewrite ER, EN, EQ in Hb.
  split; [exact EQ |]. split; [symmetry; exact Hr |]. split; [symmetry; exact Hc |].
  exact Hb.
Defined.

Lemma loop_records_zeros_all n :
  loop_records (zeros (n * 9)) 0 n = repeat (zeros 9) n.
Proof.
  unfold loop_records.
  assert (H : forall l, (forall k, In k l -> (k < n)%nat) ->
            map (fun k => slice (Z.to_nat ((0 + Z.of_nat k) * 9)) 9 (zeros (n * 9))) l
            = repeat (zeros 9) (length l)).
  { induction l as [|k l IH]; intros Hl; [reflexivity |].
    cbn [map length repeat].
    replace (Z.to_nat ((0 + Z.of_nat k) * 9)) with (k * 9)%nat by lia.
    rewrite zeros_record by (apply Hl; left; reflexivity).
    f_equal. apply IH. intros; apply Hl; right; assumption. }
  rewrite H, length_seq; [reflexivity |].
  intros k Hk. apply in_seq in Hk. lia.
Qed.

(** X4: in a build with NDEBUG the read of the track records is compiled
    out with the [assert] that wraps it (line 414), and a file that
    [LoadLAF] accepts loads without a look at its records: the stream is in
    Channels mode without position tracks, every track is a channel at
    elevation and azimuth 0.0 that is no LFE channel, and the footer is
    taken from the 12 bytes at offset 19, where the records start. *)
Theorem LoadLAF_ndebug_skips_records (heap : allocator) (c : list byte) (laf : LafStream) :
  LoadLAF true heap c = Ok laf ->
  mMode laf = Channels /\ mPosTracks laf = [] /\
  mChannels laf
  = repeat {| mAzimuth := S754_zero false; mElevation := S754_zero false;
              mIsLfe := false |}
           (Z.to_nat (file_track_count c)) /\
  mSampleRate laf = le_combine (slice 19 4 c) /\
  mSampleCount laf = le_combine (slice 23 8 c) /\
  remaining (mInFile laf) = skipn 31 c.
Proof.
  intros H. destruct (LoadLAF_file _ _ _ _ H) as (_ & _ & Hr & _).
  apply LoadLAF_Ok in H.
  pose proof (loaded_numtracks_le _ _ _ H) as HN.
  pose proof (loaded_ndebug_no_positions _ _ H) as HP.
  split; [apply (loaded_ndebug_channels _ _ H) |]. split; [exact HP |].
  split.
  { destruct (loaded_loop _ _ _ H) as (pos & Hl & Hpos).
    rewrite HP in Hpos. destruct pos; [| discriminate].
    apply load_tracks_layout in Hl as (a & Ha & Hc & _ & _ & Hrep & _).
    rewrite (loaded_numtracks _ _ _ H) in *. unfold chandata_of in Hc.
    replace (Z.to_nat (file_track_count c * 9))
      with (Z.to_nat (file_track_count c) * 9)%nat in Hc by lia.
    rewrite loop_records_zeros_all in Hc.
    assert (a = Z.to_nat (file_track_count c)) as ->.
    { cbn [app] in Hrep. destruct (Z.to_nat (file_track_count c) - a)%nat eqn:D;
        [lia | discriminate]. }
    rewrite Hc. cbn [app]. rewrite first_repeat, Nat.min_id, map_repeat.
    reflexivity. }
  split.
  { rewrite (loaded_rate _ _ _ H). unfold footer_of. rewrite slice_slice by lia.
    reflexivity. }
  split.
  { rewrite (loaded_count _ _ _ H). unfold footer_of. rewrite slice_slice by lia.
    reflexivity. }
  rewrite Hr. f_equal.
Qed.

(** X4, witness: under NDEBUG the track of [lfe_file] loads as a channel at
    0.0 that is no LFE channel, and the sample rate is what the first four
    bytes of its record say, 2 instead of 1. *)
Lemma LoadLAF_ndebug_skips_records_witness :
  exists laf,
    LoadLAF true plenty lfe_file = Ok laf /\
    mChannels laf
    = [{| mAzimuth := S754_zero false; mElevation := S754_zero false;
          mIsLfe := false |}] /\
    mSampleRate laf = 2.
Proof.
  destruct (LoadLAF true plenty lfe_file) as [laf | f] eqn:E;
    [| vm_compute in E; discriminate E].
  exists laf. split; [reflexivity |].
  destruct (LoadLAF_ndebug_skips_records plenty lfe_file laf E) as (_ & _ & Hc & Hr & _).
  split; [exact Hc |]. rewrite Hr. vm_compute. reflexivity.
Defined.

(** ** Files that LoadLAF accepts *)

Lemma ifstream_read_enough f n :
  good f = true -> (Z.to_nat n <= length (remaining f))%nat ->
  ifstream_read f n
  = (firstn (Z.to_nat n) (remaining f),
     {| remaining := skipn (Z.to_nat n) (remaining f); good := true |}).
Proof.
  intros G L. unfold ifstream_read. rewrite G.
  destruct (Nat.leb_spec (Z.to_nat n) (length (remaining f))); [reflexivity | lia].
Qed.

Lemma load_track_marker i rec chs pos :
  is_marker rec = true -> i <> 0 ->
  load_track Objects i rec (chs, pos) = Ok (chs, pos ++ [[]]).
Proof.
  unfold load_track, is_marker, record_elevation, record_azimuth.
  intros -> Hi. cbn. destruct (Z.eqb_spec i 0); [contradiction | reflexivity].
Qed.

Lemma load_track_channel mode i rec chs :
  is_marker rec = false -> finite_record rec ->
  load_track mode i rec (chs, []) = Ok (chs ++ [channel_of_record rec], []).
Proof.
  unfold load_track, is_marker, finite_record, channel_of_record,
    record_elevation, record_azimuth.
  intros -> [-> ->]. reflexivity.
Qed.

Lemma load_tracks_markers mode chandata p : forall i chs pos,
  (forall k, (k < p)%nat ->
     is_marker (slice (Z.to_nat ((i + Z.of_nat k) * 9)) 9 chandata) = true) ->
  (p <> 0%nat -> mode = Objects /\ 0 < i) ->
  load_tracks mode chandata i p (chs, pos) = Ok (chs, pos ++ repeat [] p).
Proof.
  induction p as [|p IH]; intros i chs pos Hm Hp.
  - cbn. rewrite app_nil_r. reflexivity.
  - destruct Hp as [-> Hi]; [discriminate |].
    cbn [load_tracks]. rewrite load_track_marker; [| | lia].
    + cbn [bind]. rewrite IH.
      * rewrite <- app_assoc. reflexivity.
      * intros k Hk. specialize (Hm (S k) ltac:(lia)).
        rewrite <- Hm. do 3 f_equal. lia.
      * intros _. split; [reflexivity | lia].
    + specialize (Hm 0%nat ltac:(lia)). rewrite <- Hm. do 3 f_equal. lia.
Qed.

Lemma load_tracks_accepts mode chandata p a : forall i chs,
  (forall k, (k < a)%nat ->
     is_marker (slice (Z.to_nat ((i + Z.of_nat k) * 9)) 9 chandata) = false /\
     finite_record (slice (Z.to_nat ((i + Z.of_nat k) * 9)) 9 chandata)) ->
  (forall k, (a <= k < a + p)%nat ->
     is_marker (slice (Z.to_nat ((i + Z.of_nat k) * 9)) 9 chandata) = true) ->
  (p <> 0%nat -> mode = Objects /\ 0 < i + Z.of_nat a) ->
  exists chs',
    load_tracks mode chandata i (a + p) (chs, []) = Ok (chs', repeat [] p) /\
    length chs' = (length chs + a)%nat.
Proof.
  induction a as [|a IH]; intros i chs Ha Hm Hp.
  - exists chs. cbn [Nat.add]. rewrite load_tracks_markers.
    + split; [reflexivity | lia].
    + intros k Hk. apply Hm. lia.
    + intros Hp0. destruct (Hp Hp0). split; [assumption | lia].
  - cbn [Nat.add load_tracks].
    destruct (Ha 0%nat ltac:(lia)) as [M F].
    replace (Z.to_nat ((i + Z.of_nat 0) * 9)) with (Z.to_nat (i * 9)) in M, F
      by (f_equal; lia).
    rewrite load_track_channel by assumption. cbn [bind].
    destruct (IH (i + 1) (chs ++ [channel_of_record (slice (Z.to_nat (i * 9)) 9 chandata)]))
      as (chs' & E & L).
    + intros k Hk. specialize (Ha (S k) ltac:(lia)).
      replace ((i + 1 + Z.of_nat k) * 9) with ((i + Z.of_nat (S k)) * 9) by lia.
      exact Ha.
    + intros k Hk. specialize (Hm (S k) ltac:(lia)).
      replace ((i + 1 + Z.of_nat k) * 9) with ((i + Z.of_nat (S k)) * 9) by lia.
      exact Hm.
    + intros Hp0. destruct (Hp Hp0). split; [assumption | lia].
    + exists chs'. split; [exact E |]. rewrite L, length_app. cbn. lia.
Qed.

Lemma quality_of_stype_accepts b :
  0 <= byte.unsigned b <= 3 -> exists q, quality_of_stype (char_to_int b) = Ok q.
Proof.
  intros H. unfold quality_of_stype. rewrite !char_to_int_small by lia.
  repeat match goal with |- context [?a =? ?b] => destruct (Z.eqb_spec a b) end;
    eauto; lia.
Qed.

Lemma mode_of_code_accepts b :
  0 <= byte.unsigned b <= 1 ->
  mode_of_code (char_to_int b)
  = Ok (if byte.unsigned b =? 0 then Channels else Objects).
Proof.
  intros H. unfold mode_of_code. rewrite !char_to_int_small by lia.
  repeat match goal with |- context [?a =? ?b] => destruct (Z.eqb_spec a b) end;
    auto; lia.
Qed.

Lemma well_formed_loads_with_plenty (c : list byte) (A : nat) :
  let T := Z.to_nat (file_track_count c) in
  file_magic c = LIMITLESS -> file_tag c = HEAD ->
  0 <= file_quality_code c <= 3 -> 0 <= file_mode_code c <= 1 ->
  file_track_count c <= 256 ->
  (31 + 9 * T <= length c)%nat ->
  (A <= T)%nat ->
  (forall i, (i < A)%nat ->
     is_marker (file_track_record c i) = false /\
     finite_record (file_track_record c i)) ->
  (forall i, (A <= i < T)%nat -> is_marker (file_track_record c i) = true) ->
  (file_mode_code c = 0 -> A = T) ->
  (file_mode_code c = 1 ->
     (1 <= A)%nat /\ (T - A = (A + 15) / 16)%nat /\ file_sample_rate c mod 48 = 0) ->
  exists laf,
    LoadLAF false plenty c = Ok laf /\
    length (mChannels laf) = A /\ length (mPosTracks laf) = (T - A)%nat.
Proof.
  intros T Hmagic Htag Hq Hm HT Hlen HA Haudio Hmark Hch Hobj.
  assert (HT0 : 0 <= file_track_count c).
  { unfold file_track_count. pose proof (le_combine_bound (slice 15 4 c)). lia. }
  unfold LoadLAF.
  rewrite ifstream_read_enough;
    [| reflexivity | cbn [remaining ifstream_open]; change (Z.to_nat 9) with 9%nat; lia]. cbn [good remaining ifstream_open].
  change (Z.to_nat 9) with 9%nat.
  change (firstn 9 c) with (file_magic c). rewrite Hmagic.
  change (bytes_eqb LIMITLESS LIMITLESS) with true. cbn [alassert bind].
  rewrite ifstream_read_enough;
    [| reflexivity
     | cbn [remaining]; change (Z.to_nat 10) with 10%nat; rewrite length_skipn; lia].
  cbn [good remaining]. change (Z.to_nat 10) with 10%nat.
  change (firstn 10 (skipn 9 c)) with (slice 9 10 c).
  rewrite !slice_slice by lia. rewrite !nth_slice by lia.
  cbn [Nat.add].
  change (slice 9 4 c) with (file_tag c). rewrite Htag.
  change (bytes_eqb HEAD HEAD) with true. cbn [alassert bind].
  destruct (quality_of_stype_accepts (nth 13 c Byte.x00) Hq) as [q ->].
  rewrite (mode_of_code_accepts (nth 14 c Byte.x00) Hm).
  cbn [bind]. unfold read_uint. fold (file_track_count c).
  destruct (Z.ltb_spec 256 (file_track_count c)); [lia |]. cbn [bind].
  rewrite ifstream_read_enough;
    [| reflexivity | cbn [remaining]; rewrite !length_skipn; lia].
  cbn [good remaining alassert bind].
  rewrite skipn_skipn.
  change (firstn (Z.to_nat (file_track_count c * 9)) (skipn (10 + 9) c))
    with (chandata_of false c).
  set (mode := if byte.unsigned (nth 14 c Byte.x00) =? 0 then Channels else Objects).
  assert (Hrec : forall k, (k < T)%nat ->
            slice (Z.to_nat ((0 + Z.of_nat k) * 9)) 9 (chandata_of false c)
            = file_track_record c k).
  { intros k Hk. rewrite <- parsed_record_file by (unfold T in Hk; lia).
    unfold parsed_record. f_equal. lia. }
  destruct (load_tracks_accepts mode (chandata_of false c) (T - A) A 0 [])
    as (chs & E & L).
  { intros k Hk. rewrite Hrec by lia. apply Haudio. exact Hk. }
  { intros k Hk. rewrite Hrec by lia. apply Hmark. lia. }
  { intros Hp. unfold mode. fold (file_mode_code c).
    destruct (Z.eqb_spec (file_mode_code c) 0) as [E0 | E0].
    - specialize (Hch E0). lia.
    - split; [reflexivity |]. destruct Hobj as [? _]; lia. }
  replace (A + (T - A))%nat with T in E by lia.
  fold T. rewrite E. cbn [bind length Nat.add] in *. rewrite repeat_length.
  assert (Hcheck : (if Mode_eqb mode Objects
                    then alassert 455
                           (Z.shiftr (u64 (Z.of_nat (length chs) - 1)) 4
                            =? u64 (Z.of_nat (T - A) - 1))
                    else Ok tt) = Ok tt).
  { unfold mode. fold (file_mode_code c).
    destruct (Z.eqb_spec (file_mode_code c) 0) as [E0 | E0]; [reflexivity |].
    cbn [Mode_eqb]. destruct Hobj as (H1 & HP & _); [lia |].
    rewrite L. unfold u64. rewrite HP.
    assert (HA' : 1 <= Z.of_nat A <= 256) by lia.
    rewrite (Z.mod_small (Z.of_nat A - 1)) by lia.
    rewrite Z.shiftr_div_pow2 by lia. change (2 ^ 4) with 16.
    rewrite Nat2Z.inj_div. change (Z.of_nat 16) with 16.
    replace (Z.of_nat (A + 15)) with ((Z.of_nat A - 1) + 1 * 16) by lia.
    rewrite Z.div_add by lia.
    assert (0 <= (Z.of_nat A - 1) / 16 < 17).
    { split; [apply Z.div_pos; lia | apply Z.div_lt_upper_bound; lia]. }
    rewrite Z.mod_small by lia.
    replace ((Z.of_nat A - 1) / 16 + 1 - 1) with ((Z.of_nat A - 1) / 16) by lia.
    rewrite Z.eqb_refl. reflexivity. }
  rewrite Hcheck. cbn [bind].
  rewrite ifstream_read_enough;
    [| reflexivity
     | cbn [remaining]; change (Z.to_nat 12) with 12%nat; rewrite !length_skipn;
       unfold T in *; lia].
  cbn [good remaining alassert bind]. change (Z.to_nat 12) with 12%nat.
  rewrite skipn_skipn.
  assert (Hrate : le_combine
                    (slice 0 4 (firstn 12 (skipn (Z.to_nat (file_track_count c * 9) + 19) c)))
                  = file_sample_rate c).
  { unfold file_sample_rate. change (firstn 12 ?l) with (slice 0 12 l).
    rewrite slice_slice by lia. unfold slice. rewrite skipn_skipn.
    do 3 f_equal. lia. }
  rewrite Hrate.
  assert (H48 : Mode_eqb mode Channels || (file_sample_rate c mod FramesPerPos =? 0) = true).
  { unfold mode. fold (file_mode_code c).
    destruct (Z.eqb_spec (file_mode_code c) 0) as [E0 | E0]; [reflexivity |].
    cbn [Mode_eqb orb]. destruct Hobj as (_ & _ & H48); [lia |].
    unfold FramesPerPos. rewrite H48. reflexivity. }
  rewrite H48. cbn [bind].
  rewrite resize_windows_plenty, resize_plenty. cbn [bind].
  eexists. split; [reflexivity |].
  cbn [mChannels mPosTracks]. rewrite length_map, repeat_length.
  split; [exact L | reflexivity].
Qed.

(** X5: in a build with [assert] enabled a well-formed file passes every
    check of [LoadLAF]: the magic and the HEAD tag in place, a quality code
    from 0 to 3, a mode code 0 or 1, at most 256 tracks, room for the header,
    the records and the footer, the first [A] records finite audio tracks
    and all others position markers; in Channels mode no marker, and in
    Objects mode at least one audio track, one marker for every 16 audio
    tracks and a sample rate that is a multiple of 48.  What is left to
    decide is the memory: there is a stream with [A] channels, a position
    track for every marker, the quality and the sample rate of the file and
    a sample buffer of rate * bytes per sample * (tracks + 1) bytes, which
    [LoadLAF] returns
    when the allocator refuses neither a window (8 * rate bytes each) nor
    the sample buffer; when it refuses one, [std::bad_alloc] is thrown
    (lines 372-492). *)
Theorem LoadLAF_accepts_well_formed (heap : allocator) (c : list byte) (A : nat) :
  let T := Z.to_nat (file_track_count c) in
  file_magic c = LIMITLESS -> file_tag c = HEAD ->
  0 <= file_quality_code c <= 3 -> 0 <= file_mode_code c <= 1 ->
  file_track_count c <= 256 ->
  (31 + 9 * T <= length c)%nat ->
  (A <= T)%nat ->
  (forall i, (i < A)%nat ->
     is_marker (file_track_record c i) = false /\
     finite_record (file_track_record c i)) ->
  (forall i, (A <= i < T)%nat -> is_marker (file_track_record c i) = true) ->
  (file_mode_code c = 0 -> A = T) ->
  (file_mode_code c = 1 ->
     (1 <= A)%nat /\ (T - A = (A + 15) / 16)%nat /\ file_sample_rate c mod 48 = 0) ->
  exists laf,
    length (mChannels laf) = A /\ length (mPosTracks laf) = (T - A)%nat /\
    quality_code (mQuality laf) = file_quality_code c /\
    mSampleRate laf = file_sample_rate c /\
    length (mSampleChunk laf)
    = Z.to_nat (file_sample_rate c * BytesFromQuality (mQuality laf)
                * (file_track_count c + 1)) /\
    ((LoadLAF false heap c = Ok laf /\ ~ refused heap laf)
     \/ (LoadLAF false heap c = Fail (Throw bad_alloc) /\ refused heap laf)).
Proof.
  intros T Hmagic Htag Hq Hm HT Hlen HA Haudio Hmark Hch Hobj.
  destruct (well_formed_loads_with_plenty c A Hmagic Htag Hq Hm HT Hlen HA
              Haudio Hmark Hch Hobj) as (laf & E & LA & LP).
  exists laf. split; [exact LA |]. split; [exact LP |].
  split; [symmetry; apply (LoadLAF_file _ _ _ _ E) |].
  pose proof (LoadLAF_Ok _ _ _ _ E) as L.
  pose proof (loaded_sample_rate _ _ L) as ER.
  split; [exact ER |]. split.
  - rewrite (loaded_chunk _ _ _ L). unfold zeros. rewrite repeat_length.
    rewrite ER, (loaded_numtracks _ _ _ L). reflexivity.
  - apply LoadLAF_heap. exact E.
Qed.

(** X5, witness: [objects_file] with its one audio track, every request
    granted. *)
Lemma LoadLAF_accepts_well_formed_witness :
  exists laf,
    LoadLAF false plenty objects_file = Ok laf /\
    length (mChannels laf) = 1%nat /\ length (mPosTracks laf) = 1%nat.
Proof.
  assert (ET : Z.to_nat (file_track_count objects_file) = 2%nat)
    by (vm_compute; reflexivity).
  assert (EL : exists laf0, LoadLAF false plenty objects_file = Ok laf0)
    by (vm_compute; eexists; reflexivity).
  destruct EL as [laf0 EL].
  destruct (LoadLAF_accepts_well_formed plenty objects_file 1)
    as (laf & HA & HP & _ & _ & _ & H).
  - vm_compute. reflexivity.
  - vm_compute. reflexivity.
  - vm_compute. split; discriminate.
  - vm_compute. split; discriminate.
  - vm_compute. discriminate.
  - rewrite ET. vm_compute. lia.
  - rewrite ET. lia.
  - intros i Hi. assert (i = 0%nat) as -> by lia.
    vm_compute. repeat split; reflexivity.
  - rewrite ET. intros i Hi. assert (i = 1%nat) as -> by lia.
    vm_compute. reflexivity.
  - vm_compute. discriminate.
  - intros _. rewrite ET. split; [lia |]. split; vm_compute; reflexivity.
  - rewrite ET in HP. exists laf.
    destruct H as [[E _] | [E _]]; [| rewrite EL in E; discriminate E].
    split; [exact E |]. split; [exact HA | exact HP].
Defined.

(** ** readChunk on a stream of the playback loop *)

(** X6: on a stream as [LoadLAF] and the loop leave it, with at least one
    track, [readChunk] makes no access out of bounds, neither into the
    bitmap (lines 264 and 269) nor into the sample buffer (line 275): it
    returns, with the stream ready for [prepareTrack], when the bitmap it
    reads passes the assertion of line 269, and it aborts on that assertion
    otherwise. *)
Theorem readChunk_returns_or_aborts (s : LafStream) :
  chunk_ready s -> 0 < mNumTracks s ->
  (bitmap_accepted (mNumTracks s) (next_bitmap s) = true /\
   exists n s', readChunk s = Ok (n, s') /\ chunk_ready s' /\
                mEnabledTracks s' = next_bitmap s)
  \/ (bitmap_accepted (mNumTracks s) (next_bitmap s) = false /\
      readChunk s = Fail (Abort 269)).
Proof.
  intros R HN. pose proof (ready_tracks _ R) as HN'.
  destruct (bitmap_accepted (mNumTracks s) (next_bitmap s)) eqn:A.
  - left. split; [reflexivity |].
    destruct (readChunk_total s R HN A) as (n & s' & E).
    exists n, s'. split; [exact E |]. split.
    + eapply readChunk_chunk_ready; eassumption.
    + apply readChunk_Ok in E as (_ & _ & _ & Hb & _). exact Hb.
  - right. split; [reflexivity |].
    apply readChunk_abort; [| lia | exact A].
    apply next_bitmap_length. exact HN'.
Qed.

(** X6, witness: the first chunk of [objects_file] is read, and the chunk
    of [eight_track_file] aborts. *)
Lemma readChunk_returns_or_aborts_witness :
  (exists n s', readChunk (stream_of objects_file) = Ok (n, s') /\ chunk_ready s')
  /\ readChunk (stream_of eight_track_file) = Fail (Abort 269).
Proof.
  split.
  - destruct (readChunk_returns_or_aborts (stream_of objects_file))
      as [(_ & n & s' & E & R & _) | (A & _)].
    + constructor; decide_by_computation.
    + vm_compute. reflexivity.
    + exists n, s'. split; [exact E | exact R].
    + vm_compute in A. discriminate A.
  - destruct (readChunk_returns_or_aborts (stream_of eight_track_file))
      as [(A & _) | (_ & E)].
    + constructor; decide_by_computation.
    + vm_compute. reflexivity.
    + vm_compute in A. discriminate A.
    + exact E.
Defined.

Lemma accepted_wellformed tracks bitmap :
  0 < tracks <= 256 -> length bitmap = 32%nat ->
  (forall i, (Z.to_nat ((tracks + 7) / 8) <= i)%nat -> nth i bitmap Byte.x00 = Byte.x00) ->
  bitmap_accepted tracks bitmap = true ->
  well_formed_bitmap (Z.to_nat tracks) bitmap.
Proof.
  intros HN Hlen Hz. unfold bitmap_accepted.
  destruct (last_index tracks HN) as [-> Hq].
  destruct (nth_error bitmap _) as [b|] eqn:Nth; [| discriminate].
  rewrite assert_bound by lia. intros Hb. apply Z.ltb_lt in Hb.
  intros t Ht. destruct (Nat.lt_ge_cases t (Z.to_nat tracks)) as [| Hge]; [assumption |].
  exfalso. unfold track_enabled in Ht.
  destruct (Nat.le_gt_cases (Z.to_nat ((tracks + 7) / 8)) (t / 8)) as [Hq' | Hq'].
  - rewrite Hz in Ht by exact Hq'. change (byte.unsigned Byte.x00) with 0 in Ht.
    rewrite Z.bits_0 in Ht. discriminate.
  - pose proof (Nat.div_mod_eq t 8) as Dt.
    pose proof (Nat.mod_upper_bound t 8 ltac:(lia)) as Mt.
    pose proof (Z.div_mod tracks 8 ltac:(lia)) as DT.
    pose proof (Z.mod_pos_bound tracks 8 ltac:(lia)) as MT.
    pose proof (Z.div_mod (tracks + 7) 8 ltac:(lia)) as DT7.
    pose proof (Z.mod_pos_bound (tracks + 7) 8 ltac:(lia)) as MT7.
    assert (Et : (t / 8 = Z.to_nat ((tracks + 7) / 8) - 1)%nat) by lia.
    rewrite Et, (nth_error_nth _ _ _ Nth) in Ht.
    pose proof (byte.unsigned_range b).
    rewrite (testbit_small (byte.unsigned b) (tracks mod 8)) in Ht;
      [discriminate | lia | lia].
Qed.

Lemma rank_wellformed tracks bitmap :
  well_formed_bitmap tracks bitmap ->
  forall k, rank bitmap (tracks + k) = rank bitmap tracks.
Proof.
  intros W. induction k as [|k IH].
  - f_equal. lia.
  - replace (tracks + S k)%nat with (S (tracks + k)) by lia.
    rewrite rank_S, IH.
    destruct (track_enabled bitmap (tracks + k)) eqn:E; [| lia].
    apply W in E. lia.
Qed.

(** X7: after [readChunk] has returned on a stream of the loop, only
    tracks that exist are enabled: every enabled track has an index below
    the track count, and [mNumEnabled] is the number of enabled tracks, which
    is at most the track count (lines 263-269). *)
Theorem readChunk_enabled_tracks_exist (s : LafStream) (n : Z) (s' : LafStream) :
  chunk_ready s -> readChunk s = Ok (n, s') ->
  (forall t, track_enabled (mEnabledTracks s') t = true ->
             Z.of_nat t < mNumTracks s') /\
  mNumEnabled s'
  = Z.of_nat (rank (mEnabledTracks s') (Z.to_nat (mNumTracks s'))) /\
  mNumEnabled s' <= mNumTracks s'.
Proof.
  intros R E. pose proof (readChunk_chunk_ready _ _ _ R E) as R'.
  apply readChunk_Ok in E as (S & _ & _ & Hb & He & Ha & _).
  destruct S as (_ & _ & _ & _ & Sn & _).
  pose proof (ready_tracks _ R) as HN. rewrite Sn.
  assert (HN0 : 0 < mNumTracks s).
  { destruct (Z.eq_dec (mNumTracks s) 0) as [E0 | ]; [| lia].
    exfalso. unfold bitmap_accepted in Ha. rewrite E0 in Ha.
    change (Z.to_nat (u64 (Z.shiftr (0 + 7) 3 - 1))) with (Z.to_nat (2 ^ 64 - 1)) in Ha.
    destruct (nth_error _ _) eqn:Nth; [| discriminate].
    assert (Z.to_nat (2 ^ 64 - 1) < length (mEnabledTracks s'))%nat
      by (apply nth_error_Some; congruence).
    rewrite (ready_bitmap _ R') in H. lia. }
  assert (W : well_formed_bitmap (Z.to_nat (mNumTracks s)) (mEnabledTracks s')).
  { apply accepted_wellformed; [lia | apply (ready_bitmap _ R') | | exact Ha].
    intros i Hi. rewrite Hb. apply next_bitmap_tail; [lia | exact Hi]. }
  split; [| split].
  - intros t Ht. apply W in Ht. lia.
  - rewrite He, <- rank_total by apply (ready_bitmap _ R').
    replace 256%nat
      with (Z.to_nat (mNumTracks s) + (256 - Z.to_nat (mNumTracks s)))%nat by lia.
    rewrite rank_wellformed by exact W. reflexivity.
  - rewrite <- Sn. apply (ready_enabled_le _ R').
Qed.

(** X7, witness: the first chunk of [objects_file] enables its two
    tracks. *)
Lemma readChunk_enabled_tracks_exist_witness :
  mNumEnabled objects_first_chunk = 2 /\
  forall t, track_enabled (mEnabledTracks objects_first_chunk) t = true ->
            Z.of_nat t < 2.
Proof.
  assert (E : readChunk (stream_of objects_file) = Ok (48, objects_first_chunk))
    by (vm_compute; reflexivity).
  assert (EN : mNumTracks objects_first_chunk = 2) by (vm_compute; reflexivity).
  assert (ER : Z.of_nat (rank (mEnabledTracks objects_first_chunk) (Z.to_nat 2)) = 2)
    by (vm_compute; reflexivity).
  destruct (readChunk_enabled_tracks_exist (stream_of objects_file) 48
              objects_first_chunk) as (Hex & Hnum & _).
  - constructor; decide_by_computation.
  - exact E.
  - rewrite EN in Hex, Hnum. rewrite ER in Hnum. split; [exact Hnum | exact Hex].
Defined.

Lemma readChunk_consumes (s : LafStream) (n : Z) (s' : LafStream) :
  chunk_ready s -> readChunk s = Ok (n, s') -> good (mInFile s') = true ->
  let nb := Z.to_nat ((mNumTracks s + 7) / 8) in
  let len := Z.to_nat (mSampleRate s * BytesFromQuality (mQuality s)
                       * mNumEnabled s') in
  (nb + len <= length (remaining (mInFile s)))%nat /\
  mEnabledTracks s' = firstn nb (remaining (mInFile s)) ++ zeros (32 - nb) /\
  firstn len (mSampleChunk s') = slice nb len (remaining (mInFile s)) /\
  skipn len (mSampleChunk s') = skipn len (mSampleChunk s) /\
  remaining (mInFile s') = skipn (nb + len) (remaining (mInFile s)).
Proof.
  intros R E G nb len. subst nb len.
  pose proof (readChunk_chunk_ready _ _ _ R E) as R'.
  pose proof (ready_tracks _ R) as HN. pose proof (ready_rate _ R) as HR.
  pose proof (BytesFromQuality_range (mQuality s)) as HB.
  assert (HE : 0 <= mNumEnabled s' <= 256).
  { pose proof (ready_enabled_le _ R'). pose proof (ready_tracks _ R').
    rewrite (ready_enabled _ R'), count_enabled_bits in *
      by (rewrite (ready_bitmap _ R'); lia). lia. }
  revert E. unfold readChunk.
  destruct (ifstream_read (mInFile s) _) as [got f1] eqn:R1.
  intros H. apply bind_Ok in H as (? & L1 & H).
  destruct (nth_error _ _) as [b|] eqn:Nth; [| discriminate].
  apply bind_Ok in H as (? & A & H).
  destruct (ifstream_read f1 _) as [got2 f2] eqn:R2.
  apply bind_Ok in H as (? & L2 & H).
  inversion H; subst; clear H.
  cbn [mInFile mEnabledTracks mSampleChunk mNumEnabled] in *.
  destruct (ifstream_read_good _ _ _ _ R2 G) as (G1 & Len2 & -> & Rem2).
  destruct (ifstream_read_good _ _ _ _ R1 G1) as (_ & Len1 & -> & Rem1).
  rewrite Z.shiftr_div_pow2 in * by lia. change (2 ^ 3) with 8 in *.
  set (nb := Z.to_nat ((mNumTracks s + 7) / 8)) in *.
  assert (Hnb : (nb <= 32)%nat).
  { unfold nb. assert ((mNumTracks s + 7) / 8 < 33) by (apply Z.div_lt_upper_bound; lia). lia. }
  set (E := count_enabled _) in *.
  set (len := Z.to_nat (mSampleRate s * BytesFromQuality (mQuality s) * E)).
  assert (Hlen : Z.to_nat (u64 (mSampleRate s * BytesFromQuality (mQuality s) * E)) = len).
  { unfold len, u64. rewrite Z.mod_small; [reflexivity |].
    assert (0 <= mSampleRate s * BytesFromQuality (mQuality s) < 2 ^ 34) by nia.
    clearbody E. nia. }
  rewrite Hlen in *. rewrite Rem1 in *. rewrite length_skipn in Len2.
  assert (Lgot2 : length (firstn len (skipn nb (remaining (mInFile s)))) = len).
  { rewrite length_firstn, length_skipn. lia. }
  split; [lia |]. split; [| split; [| split]].
  - unfold overwrite, zeros. rewrite length_firstn, skip_repeat.
    do 3 f_equal. lia.
  - unfold overwrite. rewrite firstn_app, Lgot2, Nat.sub_diag, firstn_O, app_nil_r.
    rewrite firstn_all2 by lia. reflexivity.
  - unfold overwrite. rewrite skipn_app, Lgot2, Nat.sub_diag, skipn_O.
    rewrite skipn_all2 by lia. reflexivity.
  - rewrite Rem2, skipn_skipn. f_equal. lia.
Qed.

(** X8: a [readChunk] that returns with the input still good has taken
    the chunk from the input as the container lays it out: one bitmap byte
    for every 8 tracks, stored at the start of the otherwise cleared bitmap,
    then one second of interleaved samples for the enabled tracks, stored at
    the start of the sample buffer, the rest of which is left as it was
    (lines 263-275). *)
Theorem readChunk_consumes_chunk (s : LafStream) (n : Z) (s' : LafStream) :
  chunk_ready s -> readChunk s = Ok (n, s') -> good (mInFile s') = true ->
  let nb := Z.to_nat ((mNumTracks s + 7) / 8) in
  let len := Z.to_nat (mSampleRate s * BytesFromQuality (mQuality s)
                       * mNumEnabled s') in
  (nb + len <= length (remaining (mInFile s)))%nat /\
  mEnabledTracks s' = firstn nb (remaining (mInFile s)) ++ zeros (32 - nb) /\
  firstn len (mSampleChunk s') = slice nb len (remaining (mInFile s)) /\
  skipn len (mSampleChunk s') = skipn len (mSampleChunk s) /\
  remaining (mInFile s') = skipn (nb + len) (remaining (mInFile s)).
Proof.
  intros R E G nb len.
  destruct (readChunk_consumes s n s' R E G) as (Hroom & Hbits & Hchunk & Hrest & Hin).
  split; [exact Hroom |]. split; [exact Hbits |]. split; [exact Hchunk |].
  split; [exact Hrest | exact Hin].
Qed.

(** X8, witness: the first chunk of [objects_file] takes 1 bitmap byte and
    96 sample bytes. *)
Lemma readChunk_consumes_chunk_witness :
  firstn 96 (mSampleChunk objects_first_chunk) = ramp 96 /\
  remaining (mInFile objects_first_chunk)
  = skipn 97 (remaining (mInFile (stream_of objects_file))).
Proof.
  assert (E : readChunk (stream_of objects_file) = Ok (48, objects_first_chunk))
    by (vm_compute; reflexivity).
  assert (Enb : Z.to_nat ((mNumTracks (stream_of objects_file) + 7) / 8) = 1%nat)
    by (vm_compute; reflexivity).
  assert (Elen : Z.to_nat (mSampleRate (stream_of objects_file)
                           * BytesFromQuality (mQuality (stream_of objects_file))
                           * mNumEnabled objects_first_chunk) = 96%nat)
    by (vm_compute; reflexivity).
  assert (Esl : slice 1 96 (remaining (mInFile (stream_of objects_file))) = ramp 96)
    by (vm_compute; reflexivity).
  destruct (readChunk_consumes_chunk (stream_of objects_file) 48 objects_first_chunk)
    as (_ & _ & Hc & _ & Hr).
  - constructor; decide_by_computation.
  - exact E.
  - vm_compute. reflexivity.
  - rewrite Enb, Elen in Hc, Hr. rewrite Esl in Hc. split; [exact Hc | exact Hr].
Defined.

(** X9: when the input is exhausted, [readChunk] on a stream of the loop
    still returns: no bitmap byte arrives, so every track is disabled, no
    sample is read and the sample buffer is left as it was.  A file that
    ends before its sample count is reached goes on as silence
    (lines 263-279). *)
Theorem readChunk_at_end_of_input (s : LafStream) :
  chunk_ready s -> 0 < mNumTracks s -> remaining (mInFile s) = [] ->
  exists s',
    readChunk s
    = Ok (u32 (Z.min (mSampleRate s) (u64 (mSampleCount s - mCurrentSample s))), s') /\
    mEnabledTracks s' = zeros 32 /\ mNumEnabled s' = 0 /\
    (forall t, track_enabled (mEnabledTracks s') t = false) /\
    mSampleChunk s' = mSampleChunk s.
Proof.
  intros R HN Hrem. pose proof (ready_tracks _ R) as HN'.
  destruct (last_index (mNumTracks s) ltac:(lia)) as [Hlast Hq].
  unfold readChunk.
  assert (R1 : exists f1, ifstream_read (mInFile s) (Z.shiftr (mNumTracks s + 7) 3) = ([], f1)
                          /\ good f1 = false).
  { unfold ifstream_read. rewrite Hrem. destruct (good (mInFile s)) eqn:G.
    - rewrite Z.shiftr_div_pow2 by lia. change (2 ^ 3) with 8.
      destruct (Nat.leb_spec (Z.to_nat ((mNumTracks s + 7) / 8)) (@length byte [])) as [C | _].
      + cbn [length] in C. lia.
      + eexists; split; reflexivity.
    - eexists; split; [reflexivity | exact G]. }
  destruct R1 as (f1 & -> & G1). cbn [length Nat.leb bind].
  change (overwrite [] (zeros 32)) with (zeros 32).
  change (count_enabled (zeros 32)) with 0.
  rewrite Hlast.
  destruct (nth_error (zeros 32) _) as [b|] eqn:Nth.
  - apply nth_error_In, repeat_spec in Nth. subst b.
    rewrite assert_bound by lia. change (byte.unsigned Byte.x00) with 0.
    pose proof (Z.mod_pos_bound (mNumTracks s) 8 ltac:(lia)).
    destruct (Z.ltb_spec 0 (2 ^ (mNumTracks s mod 8))) as [_ | C];
      [| pose proof (Z.pow_pos_nonneg 2 (mNumTracks s mod 8)); lia].
    cbn [alassert bind]. rewrite Z.mul_0_r. change (u64 0) with 0.
    unfold ifstream_read at 1. rewrite G1. cbn [length Nat.leb bind].
    eexists. split; [reflexivity |].
    cbn [mEnabledTracks mNumEnabled mSampleChunk].
    repeat split; auto.
    intros t. unfold track_enabled.
    replace (nth (t / 8) (zeros 32) Byte.x00) with Byte.x00.
    + change (byte.unsigned Byte.x00) with 0. apply Z.bits_0.
    + destruct (nth_in_or_default (t / 8) (zeros 32) Byte.x00) as [I | ->]; [| reflexivity].
      apply repeat_spec in I. symmetry. exact I.
  - apply nth_error_None in Nth. unfold zeros in Nth. rewrite repeat_length in Nth. lia.
Qed.

(** X9, witness: the first [readChunk] of [truncated_file] returns 48
    samples with no track enabled. *)
Lemma readChunk_at_end_of_input_witness :
  exists s',
    readChunk (stream_of truncated_file) = Ok (48, s') /\ mNumEnabled s' = 0.
Proof.
  assert (En : u32 (Z.min (mSampleRate (stream_of truncated_file))
                          (u64 (mSampleCount (stream_of truncated_file)
                                - mCurrentSample (stream_of truncated_file)))) = 48)
    by (vm_compute; reflexivity).
  destruct (readChunk_at_end_of_input (stream_of truncated_file))
    as (s' & E & _ & Hn & _).
  - constructor; decide_by_computation.
  - vm_compute. reflexivity.
  - vm_compute. reflexivity.
  - rewrite En in E. exists s'. split; [exact E | exact Hn].
Defined.

(** ** prepareTrack between two chunks *)

Lemma firstn_plus {A} a b : forall l : list A,
  firstn (a + b) l = firstn a l ++ firstn b (skipn a l).
Proof.
  induction a as [|a IH]; intros [|x l]; cbn; auto.
  - rewrite firstn_nil. reflexivity.
  - f_equal. apply IH.
Qed.

Lemma slice_plus {A} off a b (l : list A) :
  slice off (a + b) l = slice off a l ++ slice (off + a) b l.
Proof.
  unfold slice. rewrite firstn_plus, skipn_skipn. do 3 f_equal. lia.
Qed.

Lemma slice_samples_eq {A} sz n : forall off (l l' : list A),
  (forall k, (k < n)%nat -> slice (off + k * sz) sz l = slice (off + k * sz) sz l') ->
  slice off (n * sz) l = slice off (n * sz) l'.
Proof.
  induction n as [|n IH]; intros off l l' H.
  - reflexivity.
  - cbn [Nat.mul]. rewrite !slice_plus. f_equal.
    + specialize (H 0%nat ltac:(lia)). rewrite Nat.add_0_r in H. exact H.
    + apply IH. intros k Hk. specialize (H (S k) ltac:(lia)).
      replace (off + sz + k * sz)%nat with (off + S k * sz)%nat by lia. exact H.
Qed.

Lemma slice_blit_prefix {A} off n (src l : list A) :
  (off <= length l)%nat -> (n <= length src)%nat ->
  slice off n (blit off src l) = firstn n src.
Proof.
  intros Hoff Hn. rewrite <- (blit_slice off src l Hoff) at 2.
  unfold slice. rewrite firstn_firstn. f_equal. lia.
Qed.

Lemma line_room s :
  chunk_ready s ->
  forall count, 0 <= count ->
  let sz := Z.to_nat (BytesFromQuality (mQuality s)) in
  let todo := Z.to_nat (Z.min (mSampleRate s) count) in
  (todo * sz <= snd (mSampleLine s))%nat /\
  (fst (mSampleLine s) + snd (mSampleLine s) = length (mSampleChunk s))%nat /\
  (todo * Z.to_nat (mNumEnabled s) * sz <= fst (mSampleLine s))%nat /\
  Z.to_nat (Z.min (mSampleRate s) count * BytesFromQuality (mQuality s))
  = (todo * sz)%nat.
Proof.
  intros R count Hcount sz todo.
  pose proof (ready_tracks _ R) as HN. pose proof (ready_rate _ R) as HR.
  pose proof (ready_enabled_le _ R) as Hle.
  pose proof (BytesFromQuality_range (mQuality s)) as HB.
  rewrite (ready_line _ R), (ready_chunk _ R). cbn [fst snd].
  set (r := Z.to_nat (mSampleRate s)).
  set (nt := Z.to_nat (mNumTracks s)).
  set (ne := Z.to_nat (mNumEnabled s)).
  assert (Hls : Z.to_nat (mSampleRate s * BytesFromQuality (mQuality s)) = (r * sz)%nat).
  { subst r sz. apply Z2Nat.inj_mul; lia. }
  assert (Hl : Z.to_nat (mSampleRate s * BytesFromQuality (mQuality s) * mNumTracks s)
               = (r * sz * nt)%nat).
  { subst nt. rewrite Z2Nat.inj_mul by nia. rewrite Hls. reflexivity. }
  assert (Hne : (ne <= nt)%nat) by (subst ne nt; lia).
  assert (Htodo_r : (todo <= r)%nat) by (subst todo r; lia).
  rewrite Hl, Hls. split; [| split; [| split]].
  - apply Nat.mul_le_mono_r. exact Htodo_r.
  - replace (mSampleRate s * BytesFromQuality (mQuality s) * (mNumTracks s + 1))
      with (mSampleRate s * BytesFromQuality (mQuality s) * mNumTracks s
            + mSampleRate s * BytesFromQuality (mQuality s)) by lia.
    rewrite Z2Nat.inj_add by nia. rewrite Hl, Hls. reflexivity.
  - transitivity (r * nt * sz)%nat; [| clearbody r nt sz; lia].
    apply Nat.mul_le_mono_r. apply Nat.mul_le_mono; assumption.
  - subst todo sz. apply Z2Nat.inj_mul; lia.
Qed.

(** X10: for a track that the bitmap of the chunk disables, [prepareTrack]
    on a stream of the loop returns silence in every build and for every
    sample format, 24-bit included: as many bytes as the frames asked for
    (at most one second) take, each of them 0x80 for 8-bit samples and 0
    otherwise (lines 330-331, 361-368). *)
Theorem prepareTrack_disabled_silence (ndebug : bool) (s : LafStream) (t : nat)
    (count : Z) :
  chunk_ready s -> (t < 256)%nat -> 0 <= count ->
  track_enabled (mEnabledTracks s) t = false ->
  exists sp s',
    prepareTrack ndebug s (Z.of_nat t) count = Ok (sp, s') /\
    span_bytes sp s'
    = repeat (silence (mQuality s))
             (Z.to_nat (Z.min (mSampleRate s) count * BytesFromQuality (mQuality s))).
Proof.
  intros R Ht Hc En.
  destruct (line_room s R count Hc) as (Hroom & Hlay & _ & Hsize).
  destruct (prepareTrack_cases ndebug s t count R Ht Hc)
    as [(En' & _) | (mem' & E & _ & _ & _ & _ & Hs)]; [congruence |].
  specialize (Hs En). eexists _, _. split; [exact E |].
  unfold span_bytes. cbn [fst snd set_chunk mSampleChunk].
  rewrite Hs, slice_blit_prefix, first_repeat, Hsize.
  - f_equal. lia.
  - lia.
  - rewrite repeat_length. exact Hroom.
Qed.

(** X10, witness: track 5 of the first chunk of [objects_file] is
    disabled. *)
Lemma prepareTrack_disabled_silence_witness :
  exists sp s',
    prepareTrack false objects_first_chunk (Z.of_nat 5) 48 = Ok (sp, s') /\
    span_bytes sp s' = repeat Byte.x80 48.
Proof.
  assert (Es : repeat (silence (mQuality objects_first_chunk))
                 (Z.to_nat (Z.min (mSampleRate objects_first_chunk) 48
                            * BytesFromQuality (mQuality objects_first_chunk)))
               = repeat Byte.x80 48) by (vm_compute; reflexivity).
  destruct (prepareTrack_disabled_silence false objects_first_chunk 5 48)
    as (sp & s' & E & H).
  - constructor; decide_by_computation.
  - lia.
  - lia.
  - vm_compute. reflexivity.
  - rewrite Es in H. exists sp, s'. split; [exact E | exact H].
Defined.

Lemma same_chunk_refl s : same_chunk s s.
Proof. split; [destruct s; reflexivity | split; reflexivity]. Qed.

Lemma same_chunk_ready s st : chunk_ready s -> same_chunk s st -> chunk_ready st.
Proof.
  intros [C1 C2 C3 C4 C5 C6 C7] (-> & L & _). cbn [set_chunk mSampleChunk] in L.
  constructor; cbn; auto. congruence.
Qed.

Lemma prepareTrack_same_chunk ndebug s st t c sp s2 :
  chunk_ready s -> same_chunk s st -> (t < 256)%nat -> 0 <= c ->
  prepareTrack ndebug s (Z.of_nat t) c = Ok (sp, s2) ->
  same_chunk s s2 /\
  exists s2',
    prepareTrack ndebug st (Z.of_nat t) c = Ok (sp, s2') /\
    span_bytes sp s2' = span_bytes sp s2 /\ same_chunk s s2'.
Proof.
  intros R Hst Ht Hc E2.
  pose proof (same_chunk_ready s st R Hst) as R1.
  destruct Hst as (Est & L1 & F1).
  destruct (line_room s R c Hc) as (Hroom & Hlay & Hsrc & _).
  destruct (prepareTrack_cases ndebug s t c R Ht Hc)
    as [(_ & _ & F) | (mem2 & E' & L2 & B2 & F2 & S2 & Z2)]; [congruence |].
  rewrite E' in E2. inversion E2; subst sp s2; clear E2.
  split; [split; [reflexivity | split; assumption] |].
  destruct (prepareTrack_cases ndebug st t c R1 Ht Hc)
    as [(En & Q & _) | (mem3 & E3 & L3 & B3 & F3 & S3 & Z3)].
  { rewrite Est in En, Q. cbn [set_chunk mEnabledTracks mQuality] in En, Q.
    destruct (S2 En) as [C _]. contradiction. }
  set (mem1 := mSampleChunk st) in *. clearbody mem1. subst st.
  cbn [set_chunk mEnabledTracks mQuality mSampleRate mSampleLine mNumEnabled
       mSampleChunk] in E3, L3, B3, F3, S3, Z3.
  eexists. split; [exact E3 |].
  unfold span_bytes, same_chunk. cbn [fst snd set_chunk mSampleChunk mSampleLine].
  split; [| split; [reflexivity | split; congruence]].
  destruct (track_enabled (mEnabledTracks s) t) eqn:En.
  - destruct (S2 eq_refl) as [_ H2]. destruct (S3 eq_refl) as [_ H3].
    apply slice_samples_eq. intros k Hk.
    rewrite H2, H3 by exact Hk.
    apply slice_of_firstn with (m := fst (mSampleLine s)); [| exact F1].
    pose proof (rank_enabled_lt _ _ 256 En Ht) as Hlt.
    assert (Hrank : Z.of_nat (rank (mEnabledTracks s) 256) = mNumEnabled s).
    { rewrite (ready_enabled _ R). apply rank_total. apply (ready_bitmap _ R). }
    set (sz := Z.to_nat (BytesFromQuality (mQuality s))) in *.
    set (todo := Z.to_nat (Z.min (mSampleRate s) c)) in *.
    set (ne := Z.to_nat (mNumEnabled s)) in *.
    assert (Hr : (rank (mEnabledTracks s) t < ne)%nat) by (subst ne; lia).
    set (rk := rank (mEnabledTracks s) t) in *.
    set (lineoff := fst (mSampleLine s)) in *.
    clearbody sz todo ne rk lineoff.
    transitivity (todo * ne * sz)%nat; [| exact Hsrc].
    replace ((k * ne + rk) * sz + sz)%nat with ((k * ne + rk + 1) * sz)%nat by lia.
    apply Nat.mul_le_mono_r.
    transitivity ((k + 1) * ne)%nat; [lia |].
    apply Nat.mul_le_mono_r. lia.
  - rewrite (Z2 eq_refl), (Z3 eq_refl).
    rewrite !slice_blit_prefix; try reflexivity; try lia;
      rewrite ?repeat_length; try exact Hroom; lia.
Qed.

(** X11: [prepareTrack] writes nothing but the mono line at the end of the
    sample buffer, so the tracks of one chunk can be prepared one after
    another: on a stream of the loop, a call that returns leaves the input,
    the counters, the bitmap and the interleaved chunk below the line as
    they were, and any track prepared afterwards yields the same span with
    the same bytes as if it had been prepared first
    (lines 328-369). *)
Theorem prepareTrack_keeps_chunk (ndebug : bool) (s : LafStream) (t1 : nat)
    (c1 : Z) (sp1 : nat * nat) (s1 : LafStream) (t2 : nat) (c2 : Z)
    (sp2 : nat * nat) (s2 : LafStream) :
  chunk_ready s -> (t1 < 256)%nat -> (t2 < 256)%nat -> 0 <= c1 -> 0 <= c2 ->
  prepareTrack ndebug s (Z.of_nat t1) c1 = Ok (sp1, s1) ->
  prepareTrack ndebug s (Z.of_nat t2) c2 = Ok (sp2, s2) ->
  s1 = set_chunk s (mSampleChunk s1) /\
  firstn (fst (mSampleLine s)) (mSampleChunk s1)
  = firstn (fst (mSampleLine s)) (mSampleChunk s) /\
  exists s2',
    prepareTrack ndebug s1 (Z.of_nat t2) c2 = Ok (sp2, s2') /\
    span_bytes sp2 s2' = span_bytes sp2 s2.
Proof.
  intros R Ht1 Ht2 Hc1 Hc2 E1 E2.
  destruct (prepareTrack_same_chunk ndebug s s t1 c1 sp1 s1 R (same_chunk_refl s)
              Ht1 Hc1 E1) as [S1 _].
  destruct (prepareTrack_same_chunk ndebug s s1 t2 c2 sp2 s2 R S1 Ht2 Hc2 E2)
    as (_ & s2' & E3 & H & _).
  destruct S1 as (Es1 & _ & F1).
  split; [exact Es1 |]. split; [exact F1 |].
  exists s2'. split; [exact E3 | exact H].
Qed.

(** X11, witness: in the first chunk of [objects_file], track 1 prepared
    after track 0 is what it is when prepared first. *)
Lemma prepareTrack_keeps_chunk_witness :
  exists sp1 s1 sp2 s2 s2',
    prepareTrack false objects_first_chunk (Z.of_nat 0) 48 = Ok (sp1, s1) /\
    prepareTrack false objects_first_chunk (Z.of_nat 1) 48 = Ok (sp2, s2) /\
    prepareTrack false s1 (Z.of_nat 1) 48 = Ok (sp2, s2') /\
    span_bytes sp2 s2' = span_bytes sp2 s2.
Proof.
  destruct (prepareTrack false objects_first_chunk (Z.of_nat 0) 48)
    as [[sp1 s1] | f] eqn:E1; [| vm_compute in E1; discriminate E1].
  destruct (prepareTrack false objects_first_chunk (Z.of_nat 1) 48)
    as [[sp2 s2] | f] eqn:E2; [| vm_compute in E2; discriminate E2].
  destruct (prepareTrack_keeps_chunk false objects_first_chunk 0 48 sp1 s1 1 48 sp2 s2)
    as (_ & _ & s2' & E3 & H).
  - constructor; decide_by_computation.
  - lia.
  - lia.
  - lia.
  - lia.
  - exact E1.
  - exact E2.
  - exists sp1, s1, sp2, s2, s2'. repeat split; [exact E3 | exact H].
Defined.

(** ** The playback loop makes no access out of bounds *)

Lemma safely_tbind {A B} q (P : A -> Prop) (Q : B -> Prop) (m : traced A)
    (k : A -> traced B) :
  safely q P m -> (forall a, P a -> safely q Q (k a)) -> safely q Q (tbind m k).
Proof.
  unfold safely, tbind. destruct m as [t [a | f]]; cbn [snd]; intros Hm Hk.
  - specialize (Hk a Hm). destruct (k a) as [t' r]. exact Hk.
  - exact Hm.
Qed.

Lemma safely_weaken {A} q (P Q : A -> Prop) (m : traced A) :
  safely q P m -> (forall a, P a -> Q a) -> safely q Q m.
Proof.
  unfold safely. destruct (snd m); auto.
Qed.

Lemma safely_shape {A} s s' (P : A -> Prop) (m : traced A) :
  same_shape s s' -> safely (mQuality s') P m -> safely (mQuality s) P m.
Proof. intros (Q & _) H. rewrite <- Q. exact H. Qed.

Lemma safely_for_each {S} q (Inv : S -> Prop) (body : nat -> S -> traced S) :
  forall idxs st,
  (forall i st, In i idxs -> Inv st -> safely q Inv (body i st)) ->
  Inv st -> safely q Inv (for_each idxs body st).
Proof.
  induction idxs as [|i idxs IH]; intros st Hbody Hinv; cbn [for_each].
  - exact Hinv.
  - apply (safely_tbind q Inv).
    + apply Hbody; [left; reflexivity | exact Hinv].
    + intros st1 H1. apply IH; [| exact H1].
      intros j st0 Hj. apply Hbody. right. exact Hj.
Qed.

Lemma safely_readChunk s :
  stream_ready s -> 0 < mNumTracks s ->
  safely (mQuality s)
         (fun r => stream_ready (snd r) /\ same_shape s (snd r) /\ 0 <= fst r)
         (lift (readChunk s)).
Proof.
  intros R HN. unfold safely, lift. cbn [snd].
  pose proof (ready_tracks _ (sr_chunk _ R)) as HN'.
  destruct (bitmap_accepted (mNumTracks s) (next_bitmap s)) eqn:A.
  - destruct (readChunk_total s (sr_chunk _ R) HN A) as (n & s' & E).
    rewrite E. cbn [fst snd]. apply (readChunk_stream_ready _ _ _ R E).
  - rewrite readChunk_abort; [left; reflexivity | | lia | exact A].
    apply next_bitmap_length. exact HN'.
Qed.

Lemma safely_prepareTrack ndebug s t count :
  stream_ready s -> (t < 256)%nat -> 0 <= count ->
  safely (mQuality s)
         (fun r => stream_ready (snd r) /\ same_shape s (snd r) /\
                   mPosTracks (snd r) = mPosTracks s /\
                   (snd (fst r) <= Z.to_nat (mSampleRate s * BytesFromQuality (mQuality s)))%nat /\
                   (fst (fst r) + snd (fst r) <= length (mSampleChunk (snd r)))%nat)
         (lift (prepareTrack ndebug s (Z.of_nat t) count)).
Proof.
  intros R Ht Hc. unfold safely, lift. cbn [snd].
  destruct (line_room s (sr_chunk _ R) count Hc) as (Hroom & _).
  rewrite (ready_line _ (sr_chunk _ R)) in Hroom. cbn [snd] in Hroom.
  destruct (prepareTrack_cases ndebug s t count (sr_chunk _ R) Ht Hc)
    as [(_ & Q & ->) | (mem' & E & L & B & _)].
  - right. split; [reflexivity | exact Q].
  - rewrite E. cbn [fst snd].
    destruct (prepareTrack_stream_ready _ _ _ _ _ _ R Ht Hc E) as (R1 & S1 & P1).
    split; [exact R1 |]. split; [exact S1 |]. split; [exact P1 |].
    split; [exact Hroom | exact B].
Qed.

Lemma safely_load_channel ndebug n buf before after i s :
  stream_ready s -> 0 <= n -> (i < length (mChannels s))%nat ->
  safely (mQuality s) (fun s' => stream_ready s' /\ same_shape s s')
         (load_channel ndebug n buf before after i s).
Proof.
  intros R Hn Hi. unfold load_channel.
  assert (Ht : (i < 256)%nat).
  { pose proof (sr_split _ R). pose proof (ready_tracks _ (sr_chunk _ R)). lia. }
  eapply safely_tbind; [apply (safely_prepareTrack ndebug s i n R Ht Hn) |].
  intros [sp s1] (R1 & S1 & _). cbn [fst snd] in *.
  destruct S1 as (Sq & S1'). unfold safely, tbind, lift, emit, tret.
  destruct (mQuality s1) eqn:Q; cbn;
    try (split; [exact R1 | split; [rewrite Q; exact Sq | exact S1']]).
  right. split; [reflexivity | symmetry; exact Sq].
Qed.

Lemma elements_length sz l : length (elements sz l) = (length l / sz)%nat.
Proof. unfold elements. apply chunks_of_length. Qed.

Lemma convertPositions_fits quality dst src :
  (length src <= length dst * Z.to_nat (BytesFromQuality quality))%nat ->
  exists out, convertPositions quality dst src = Ok out.
Proof.
  intros H. destruct quality; cbn [convertPositions BytesFromQuality] in *;
    unfold store_floats; rewrite ?length_map, ?elements_length.
  - destruct (Nat.leb_spec (length src) (length dst)); [eauto | lia].
  - destruct (Nat.leb_spec (length src / 2) (length dst)) as [| C]; [eauto |].
    exfalso. apply (Nat.lt_irrefl (length dst)).
    eapply Nat.lt_le_trans; [exact C |].
    apply Nat.Div0.div_le_upper_bound. change (Z.to_nat 2) with 2%nat in H. lia.
  - destruct (Nat.leb_spec (length src / 4) (length dst)) as [| C]; [eauto |].
    exfalso. apply (Nat.lt_irrefl (length dst)).
    eapply Nat.lt_le_trans; [exact C |].
    apply Nat.Div0.div_le_upper_bound. change (Z.to_nat 4) with 4%nat in H. lia.
  - eauto.
Qed.

Lemma safely_load_positions ndebug shift last n i s :
  stream_ready s -> 0 <= n -> (i < length (mPosTracks s))%nat ->
  safely (mQuality s) (fun s' => stream_ready s' /\ same_shape s s')
         (load_positions ndebug shift last n i s).
Proof.
  intros R Hn Hi. unfold safely.
  destruct (load_positions ndebug shift last n i s) as [tr [s' | f]] eqn:E; cbn [snd].
  { apply (load_positions_stream_ready _ _ _ _ _ _ _ _ R Hn Hi E). }
  unfold load_positions, lift in E. inversion E as [[Etr Ef]]; clear E Etr.
  destruct (nth_error (mPosTracks s) i) as [track|] eqn:Nth;
    [| apply nth_error_None in Nth; lia].
  pose proof (sr_windows _ R) as W. rewrite Forall_forall in W.
  pose proof (W track (nth_error_In _ _ Nth)) as Hlen.
  pose proof (ready_rate _ (sr_chunk _ R)) as HR.
  destruct (Nat.leb_spec (Z.to_nat (mSampleRate s)) (length track)) as [Hle | C];
    [| lia].
  cbn [bind] in Ef.
  assert (Ht : (length (mChannels s) + i < 256)%nat).
  { pose proof (sr_split _ R). pose proof (ready_tracks _ (sr_chunk _ R)). lia. }
  destruct (line_room s (sr_chunk _ R) n Hn) as (_ & _ & _ & _).
  destruct (prepareTrack_cases ndebug s (length (mChannels s) + i) n
              (sr_chunk _ R) Ht Hn)
    as [(_ & Q & F) | (mem' & Ep & L & B & _)].
  - rewrite F in Ef. cbn [bind] in Ef. inversion Ef.
    right. split; [reflexivity | exact Q].
  - rewrite Ep in Ef. cbn [bind] in Ef.
    set (rate := Z.to_nat (mSampleRate s)) in *.
    set (track1 := if shift then blit 0 (skipn rate track) track else track) in *.
    assert (Hlen1 : length track1 = length track).
    { unfold track1. destruct shift; [| reflexivity].
      apply blit_length. rewrite length_skipn. lia. }
    set (off := if last then (length track1 - rate)%nat else 0%nat) in *.
    assert (Hoff : (off + rate <= length track1)%nat) by (unfold off; destruct last; lia).
    destruct (convertPositions_fits (mQuality (set_chunk s mem'))
                (slice off rate track1)
                (span_bytes (fst (mSampleLine s),
                             (Z.to_nat (Z.min (mSampleRate s) n)
                              * Z.to_nat (BytesFromQuality (mQuality s)))%nat)
                            (set_chunk s mem'))) as [out Eo].
    + unfold span_bytes. cbn [fst snd set_chunk mSampleChunk mQuality].
      rewrite (slice_length off rate track1) by exact Hoff.
      etransitivity; [apply slice_length_le |].
      apply Nat.mul_le_mono_r. unfold rate. lia.
    + rewrite Eo in Ef. cbn [bind] in Ef. discriminate Ef.
Qed.

Lemma safely_for_loop s0 n (body : nat -> LafStream -> traced LafStream) s :
  (forall i st, (i < n)%nat -> stream_ready st -> same_shape s0 st ->
     safely (mQuality st) (fun st' => stream_ready st' /\ same_shape st st')
            (body i st)) ->
  stream_ready s -> same_shape s0 s ->
  safely (mQuality s0) (fun s' => stream_ready s' /\ same_shape s0 s')
         (for_loop n body s).
Proof.
  intros Hbody R S. unfold for_loop.
  apply (safely_for_each (mQuality s0)
           (fun st => stream_ready st /\ same_shape s0 st));
    [| split; assumption].
  intros i st Hi [Rst Sst]. apply in_seq in Hi.
  pose proof (Hbody i st ltac:(lia) Rst Sst) as Hb.
  replace (mQuality st) with (mQuality s0) in Hb by (symmetry; apply Sst).
  eapply safely_weaken; [exact Hb |].
  intros st' [R' S']. split; [exact R' | apply (same_shape_trans _ st); assumption].
Qed.

Lemma safely_channels_loop ndebug n buf before after s :
  stream_ready s -> 0 <= n ->
  safely (mQuality s) (fun s' => stream_ready s' /\ same_shape s s')
    (for_loop (length (mChannels s))
       (fun i st => load_channel ndebug n (buf i) (before i) (after i) i st) s).
Proof.
  intros R Hn.
  apply (safely_for_loop s); [| exact R | apply same_shape_refl].
  intros i st Hi Rst (_ & _ & _ & Sc & _).
  apply safely_load_channel; [exact Rst | exact Hn | rewrite Sc; exact Hi].
Qed.

Lemma safely_positions_loop ndebug shift last n s :
  stream_ready s -> 0 <= n ->
  safely (mQuality s) (fun s' => stream_ready s' /\ same_shape s s')
    (for_loop (length (mPosTracks s))
       (fun i st => load_positions ndebug shift last n i st) s).
Proof.
  intros R Hn.
  apply (safely_for_loop s); [| exact R | apply same_shape_refl].
  intros i st Hi Rst (_ & _ & _ & _ & Sp).
  apply safely_load_positions; [exact Rst | exact Hn | rewrite Sp; exact Hi].
Qed.

Lemma safely_update_positions s obs :
  stream_ready s -> offset_in_window s obs ->
  safely (mQuality s) (fun _ => True) (update_positions s (offset obs)).
Proof.
  intros R Ho. unfold safely.
  destruct (mPosTracks s) as [|w ws] eqn:Epos.
  - unfold update_positions. rewrite Epos. exact I.
  - assert (Hne : mPosTracks s <> []) by congruence.
    destruct (Ho Hne) as (HR & Hoff & Hint).
    rewrite update_positions_trace; [exact I | exact Hne | lia |].
    apply positions_ready_in_bounds; [| exact Hoff | exact Hint].
    apply stream_ready_positions; assumption.
Qed.

Lemma safely_initial_positions s :
  stream_ready s -> mPosTracks s <> [] -> 0 < mSampleRate s ->
  safely (mQuality s) (fun _ => True)
    (for_loop (length (mChannels s)) (fun i _ => initial_position s i) tt).
Proof.
  intros R Hne HR. unfold for_loop.
  apply (safely_for_each (mQuality s) (fun _ => True)); [| exact I].
  intros i [] Hi _. apply in_seq in Hi.
  pose proof (stream_ready_positions s R Hne HR) as P.
  pose proof (ready_groups _ P) as Hg.
  assert (Hq : (i / 16 < length (mPosTracks s))%nat)
    by (apply Nat.Div0.div_lt_upper_bound; lia).
  pose proof (ready_windows _ P) as Hw. rewrite Forall_forall in Hw.
  pose proof (Hw (nth (i / 16) (mPosTracks s) []) ltac:(apply nth_In; exact Hq)) as Hlen.
  pose proof (ready_pos_48 _ P) as H48.
  apply Z.mod_divide in H48; [| lia]. destruct H48 as [m Hm].
  pose proof (Z.mod_pos_bound (Z.of_nat i) 16 ltac:(lia)) as Hmod.
  assert (Hu : forall j, 0 <= j <= 2 ->
            u64 (Z.land (Z.of_nat i) 15 * 3 + j) = Z.of_nat i mod 16 * 3 + j).
  { intros j Hj. rewrite land15_nat. unfold u64. apply Z.mod_small. lia. }
  unfold initial_position, update_position, lift, emit, safely.
  rewrite !Hu by lia.
  rewrite !pos_elem_Ok by (rewrite Hlen; lia).
  cbn. exact I.
Qed.

Lemma safely_tick_playing ndebug s obs :
  stream_ready s -> 0 < mNumTracks s -> offset_in_window s obs ->
  safely (mQuality s) (fun s' => stream_ready s' /\ same_shape s s')
         (tick_playing ndebug s obs).
Proof.
  intros R HN Ho. unfold tick_playing.
  eapply safely_tbind; [apply (safely_update_positions s obs R Ho) |].
  intros _ _. destruct (0 <? processed obs).
  - eapply safely_tbind; [apply (safely_readChunk s R HN) |].
    intros [n s1] (R1 & S1 & Hn). cbn [fst snd] in *.
    eapply safely_tbind;
      [apply (safely_shape s s1 _ _ S1),
             (safely_channels_loop ndebug n Unqueued
                (fun i => [alSourceUnqueueBuffers i])
                (fun i => [alSourceQueueBuffers i [Unqueued i]]) s1 R1 Hn) |].
    intros s2 [R2 S2].
    assert (S02 : same_shape s s2) by (apply (same_shape_trans _ s1); assumption).
    eapply safely_weaken;
      [apply (safely_shape s s2 _ _ S02), (safely_positions_loop _ _ _ _ _ R2 Hn) |].
    intros s3 [R3 S3]. split; [exact R3 |].
    apply (same_shape_trans _ s2); assumption.
  - unfold safely. cbn. split; [exact R | apply same_shape_refl].
Qed.

Lemma safely_tick_initial ndebug s :
  stream_ready s -> 0 < mNumTracks s ->
  (mPosTracks s <> [] -> 0 < mSampleRate s) ->
  safely (mQuality s) (fun s' => stream_ready s' /\ same_shape s s')
         (tick_initial ndebug s).
Proof.
  intros R HN HR. unfold tick_initial.
  eapply safely_tbind; [apply (safely_readChunk s R HN) |].
  intros [n s1] (R1 & S1 & Hn). cbn [fst snd] in *.
  eapply safely_tbind;
    [apply (safely_shape s s1 _ _ S1),
           (safely_channels_loop ndebug n (fun i => ChannelBuffer i 0)
              (fun _ => []) (fun _ => []) s1 R1 Hn) |].
  intros s2 [R2 S2].
  assert (S02 : same_shape s s2) by (apply (same_shape_trans _ s1); assumption).
  eapply safely_tbind;
    [apply (safely_shape s s2 _ _ S02), (safely_positions_loop _ _ _ _ _ R2 Hn) |].
  intros s3 [R3 S3].
  assert (S03 : same_shape s s3) by (apply (same_shape_trans _ s2); assumption).
  assert (HN3 : 0 < mNumTracks s3).
  { destruct S03 as (_ & _ & -> & _). exact HN. }
  eapply safely_tbind;
    [apply (safely_shape s s3 _ _ S03), (safely_readChunk s3 R3 HN3) |].
  intros [n2 s4] (R4 & S4 & Hn2). cbn [fst snd] in *.
  assert (S04 : same_shape s s4) by (apply (same_shape_trans _ s3); assumption).
  eapply safely_tbind;
    [apply (safely_shape s s4 _ _ S04),
           (safely_channels_loop ndebug n2 (fun i => ChannelBuffer i 1)
              (fun _ => [])
              (fun i => [alSourceQueueBuffers i [ChannelBuffer i 0; ChannelBuffer i 1]])
              s4 R4 Hn2) |].
  intros s5 [R5 S5].
  assert (S05 : same_shape s s5) by (apply (same_shape_trans _ s4); assumption).
  eapply safely_tbind;
    [apply (safely_shape s s5 _ _ S05), (safely_positions_loop _ _ _ _ _ R5 Hn2) |].
  intros s6 [R6 S6].
  assert (S06 : same_shape s s6) by (apply (same_shape_trans _ s5); assumption).
  eapply (safely_tbind _ (fun _ => True)).
  - destruct (mPosTracks s6) as [|w ws] eqn:Epos; [exact I |].
    apply (safely_shape s s6 _ _ S06).
    apply safely_initial_positions; [exact R6 | congruence |].
    destruct S06 as (_ & Sr & _ & _ & Sp). rewrite Sr. apply HR.
    intros E0. rewrite E0, Epos in Sp. discriminate.
  - intros _ _. unfold safely. cbn. split; assumption.
Qed.

Lemma tick_in_bounds_safely ndebug s obs :
  stream_ready s -> mChannels s <> [] -> offset_in_window s obs ->
  safely (mQuality s) (fun r => stream_ready (fst r) /\ same_shape s (fst r))
         (tick ndebug s obs).
Proof.
  intros R Hch Ho.
  assert (HN : 0 < mNumTracks s).
  { rewrite <- (sr_split _ R). destruct (mChannels s); [congruence | cbn [length]; lia]. }
  unfold tick. destruct (mChannels s) as [|ch chs]; [congruence |].
  destruct (state obs).
  - eapply safely_tbind; [apply (safely_tick_initial ndebug s R HN) |].
    + intros Hne. apply (Ho Hne).
    + intros s' H'. exact H'.
  - eapply safely_tbind; [apply (safely_tick_playing ndebug s obs R HN Ho) |].
    intros s' H'. exact H'.
  - eapply safely_tbind; [apply (safely_tick_playing ndebug s obs R HN Ho) |].
    intros s' H'. exact H'.
  - unfold safely. cbn. split; [exact R | apply same_shape_refl].
  - unfold safely. cbn. split; [exact R | apply same_shape_refl].
Qed.

(** X12: one iteration of the playback loop on a stream as [LoadLAF] and
    the loop leave it, with at least one channel, makes no access out of
    bounds, provided that on a stream with position tracks the sample rate
    is positive and the sink reports an offset inside the two seconds that
    are queued: the iteration returns with the stream in shape for the next
    one, or it ends in the assertion on the bitmap of a chunk (line 269)
    or, on a stream of 24-bit samples only, in their refusal
    (lines 525-647). *)
Theorem tick_in_bounds (ndebug : bool) (s : LafStream) (obs : observation) :
  stream_ready s -> mChannels s <> [] -> offset_in_window s obs ->
  match snd (tick ndebug s obs) with
  | Ok (s', _) => stream_ready s' /\ same_shape s s'
  | Fail f =>
      f = Abort 269 \/ (f = Throw SamplesNotSupported24 /\ mQuality s = s24)
  end.
Proof.
  intros R Hch Ho.
  pose proof (tick_in_bounds_safely ndebug s obs R Hch Ho) as H.
  unfold safely in H. destruct (snd (tick ndebug s obs)) as [[s' b] | f]; exact H.
Qed.

(** X12, witness: the first iteration on [objects_file] returns with the
    stream in shape. *)
Lemma tick_in_bounds_witness :
  exists s' continue,
    snd (tick false (stream_of objects_file) initial) = Ok (s', continue) /\
    stream_ready s'.
Proof.
  pose proof (tick_in_bounds false (stream_of objects_file) initial) as H.
  destruct (snd (tick false (stream_of objects_file) initial))
    as [[s' b] | f] eqn:E; [| vm_compute in E; discriminate E].
  exists s', b. split; [reflexivity |]. apply H.
  - apply (loaded_stream_ready false objects_file). apply (LoadLAF_Ok false plenty).
    vm_compute. reflexivity.
  - vm_compute. discriminate.
  - intros _. vm_compute. repeat split; discriminate.
Defined.

Lemma offset_in_window_shape s s' obs :
  same_shape s s' -> offset_in_window s obs -> offset_in_window s' obs.
Proof.
  intros (_ & Sr & _ & _ & Sp) H Hne. rewrite Sr. apply H.
  intros E. rewrite E in Sp. destruct (mPosTracks s'); [congruence | discriminate].
Qed.

Lemma safely_play_loop ndebug obss : forall s,
  stream_ready s -> mChannels s <> [] -> Forall (offset_in_window s) obss ->
  safely (mQuality s) (fun s' => stream_ready s' /\ same_shape s s')
         (play_loop ndebug s obss).
Proof.
  induction obss as [|obs rest IH]; intros s R Hch Ho; cbn [play_loop].
  - destruct (isAtEnd s); split; auto using same_shape_refl.
  - destruct (isAtEnd s); [split; auto using same_shape_refl |].
    inversion Ho as [| ? ? Ho1 Ho2]; subst.
    pose proof (tick_in_bounds_safely ndebug s obs R Hch Ho1) as Ht.
    eapply safely_tbind; [exact Ht |].
    intros [s1 continue] [R1 S1]. cbn [fst] in *.
    destruct continue.
    + eapply safely_weaken.
      * apply (safely_shape s s1 _ _ S1). apply IH; [exact R1 | |].
        -- destruct S1 as (_ & _ & _ & -> & _). exact Hch.
        -- eapply Forall_impl; [| exact Ho2].
           intros o. apply offset_in_window_shape. exact S1.
      * intros s2 [R2 S2]. split; [exact R2 | apply (same_shape_trans _ s1); assumption].
    + split; assumption.
Qed.

Lemma loaded_first_track_audio ndebug c laf :
  loaded ndebug c laf -> 0 < mNumTracks laf -> mChannels laf <> [].
Proof.
  intros L HN Hch. pose proof (loaded_track_total _ _ _ L) as Ht.
  rewrite Hch in Ht. cbn [length] in Ht.
  destruct (loaded_mode _ _ _ L) as [[_ M] | [_ M]].
  - destruct (loaded_loop _ _ _ L) as (pos & Hl & Hp).
    apply load_tracks_Ok in Hl as (_ & _ & Hmode & _); [| constructor | congruence].
    destruct pos as [|p pos]; [rewrite Hp in Ht; cbn in Ht; lia |].
    assert (mMode laf = Objects) by (apply Hmode; discriminate). congruence.
  - pose proof (loaded_objects_count _ _ _ L M) as [H1 _].
    rewrite Hch in H1. cbn in H1. lia.
Qed.

(** X13: the playback loop of [PlayLAF] on a file with at least one track
    makes no access out of bounds, in every build, as long as the sink
    reports offsets inside the two seconds that are queued (and the sample
    rate is positive when there are position tracks): whatever the sink
    observes from iteration to iteration, the run either leaves the loop
    with the stream in shape, or ends in the assertion on the bitmap of a
    chunk or, on a file of 24-bit samples only, in their refusal
    (lines 494-647). *)
Theorem PlayLAF_in_bounds (ndebug : bool) (heap : allocator) (c : list byte)
    (laf : LafStream)
    (obss : list observation) :
  LoadLAF ndebug heap c = Ok laf -> 0 < file_track_count c ->
  Forall (offset_in_window laf) obss ->
  match snd (PlayLAF ndebug heap c obss) with
  | Ok s' => stream_ready s' /\ same_shape laf s'
  | Fail f =>
      f = Abort 269 \/ (f = Throw SamplesNotSupported24 /\ mQuality laf = s24)
  end.
Proof.
  intros E HT Ho. unfold PlayLAF. rewrite E. unfold lift, tbind.
  pose proof (LoadLAF_Ok _ _ _ _ E) as L.
  assert (Hch : mChannels laf <> []).
  { apply (loaded_first_track_audio _ _ _ L).
    rewrite (loaded_numtracks _ _ _ L). exact HT. }
  pose proof (safely_play_loop ndebug obss laf (loaded_stream_ready _ _ _ L) Hch Ho) as H.
  unfold safely in H. destruct (play_loop ndebug laf obss) as [t r]. exact H.
Qed.

(** X13, witness: [objects_file] played through an initial and a playing
    observation. *)
Lemma PlayLAF_in_bounds_witness :
  exists s',
    snd (PlayLAF false plenty objects_file [initial; playing 1 50]) = Ok s' /\
    stream_ready s'.
Proof.
  assert (E : exists s', snd (PlayLAF false plenty objects_file [initial; playing 1 50]) = Ok s')
    by (vm_compute; eexists; reflexivity).
  destruct E as [s' E].
  assert (H1 : LoadLAF false plenty objects_file = Ok (stream_of objects_file))
    by (vm_compute; reflexivity).
  assert (H2 : 0 < file_track_count objects_file) by (vm_compute; reflexivity).
  assert (H3 : Forall (offset_in_window (stream_of objects_file))
                      [initial; playing 1 50]).
  { constructor; [| constructor; [| constructor]];
      intros _; vm_compute; repeat split; discriminate. }
  pose proof (PlayLAF_in_bounds false plenty objects_file (stream_of objects_file)
                [initial; playing 1 50] H1 H2 H3) as H.
  rewrite E in H. exists s'. split; [exact E | apply H].
Defined.

(** X14: a file without tracks is accepted by [LoadLAF] in Channels mode,
    but its stream has no channel: when it has at least one sample, the
    first iteration of the playback loop asks for the last channel of an
    empty vector (line 537) before it calls the sink. *)
Theorem PlayLAF_no_tracks (ndebug : bool) (heap : allocator) (c : list byte)
    (laf : LafStream)
    (obs : observation) (obss : list observation) :
  LoadLAF ndebug heap c = Ok laf -> file_track_count c = 0 -> 0 < mSampleCount laf ->
  mMode laf = Channels /\ mChannels laf = [] /\
  PlayLAF ndebug heap c (obs :: obss) = ([], Fail (Undefined 537)).
Proof.
  intros E HT HC. pose proof (LoadLAF_Ok _ _ _ _ E) as L.
  pose proof (loaded_track_total _ _ _ L) as Ht.
  rewrite (loaded_numtracks _ _ _ L), HT in Ht.
  assert (Hch : mChannels laf = []) by (destruct (mChannels laf); [reflexivity | cbn [length] in Ht; lia]).
  split; [| split; [exact Hch |]].
  - destruct (loaded_mode _ _ _ L) as [[_ M] | [_ M]]; [exact M |].
    pose proof (loaded_objects_count _ _ _ L M) as [H1 _].
    rewrite Hch in H1. cbn in H1. lia.
  - unfold PlayLAF. rewrite E. unfold lift, tbind. cbn [play_loop].
    unfold isAtEnd. rewrite (loaded_current _ _ _ L).
    destruct (Z.leb_spec (mSampleCount laf) 0); [lia |].
    unfold tick. rewrite Hch. reflexivity.
Qed.

(** X14, witness: [no_tracks_file]. *)
Lemma PlayLAF_no_tracks_witness :
  PlayLAF false plenty no_tracks_file [initial] = ([], Fail (Undefined 537)).
Proof.
  destruct (PlayLAF_no_tracks false plenty no_tracks_file (stream_of no_tracks_file)
              initial []) as (_ & _ & H).
  - vm_compute. reflexivity.
  - vm_compute. reflexivity.
  - vm_compute. reflexivity.
  - exact H.
Defined.

(** ** What the loop hands to the sink *)

Lemma for_each_trace {S} (Inv : S -> Prop) (g : nat -> list sink_call)
    (body : nat -> S -> traced S) :
  forall idxs st tr st',
  (forall i st t st', In i idxs -> Inv st -> body i st = (t, Ok st') ->
     t = g i /\ Inv st') ->
  Inv st -> for_each idxs body st = (tr, Ok st') ->
  tr = concat (map g idxs) /\ Inv st'.
Proof.
  induction idxs as [|i idxs IH]; intros st tr st' Hbody Hinv E; cbn [for_each] in E.
  - inversion E; subst. split; [reflexivity | exact Hinv].
  - apply tbind_Ok in E as (t1 & st1 & t2 & E1 & E2 & ->).
    destruct (Hbody i st t1 st1 (or_introl eq_refl) Hinv E1) as [-> Hinv1].
    destruct (IH st1 t2 st') as [-> Hinv']; [| exact Hinv1 | exact E2 |].
    + intros j st0 t st0' Hj. apply Hbody. right. exact Hj.
    + split; [reflexivity | exact Hinv'].
Qed.

Lemma concat_map_nil {A B} (l : list A) : concat (map (fun _ => @nil B) l) = [].
Proof. induction l as [|x l IH]; [reflexivity | exact IH]. Qed.

Lemma load_channel_trace ndebug n buf before after i s st t st' :
  stream_ready s -> same_chunk s st -> (i < length (mChannels s))%nat -> 0 <= n ->
  load_channel ndebug n buf before after i st = (t, Ok st') ->
  same_chunk s st' /\
  exists format,
    FormatFromQuality (mQuality s) = Ok format /\
    t = before
        ++ [alBufferData buf format (track_samples ndebug s i n)
              (ALsizei (Z.min (mSampleRate s) n * BytesFromQuality (mQuality s)))
              (ALsizei (mSampleRate s))]
        ++ after.
Proof.
  intros R Hst Hi Hn E.
  assert (Ht : (i < 256)%nat).
  { pose proof (sr_split _ R). pose proof (ready_tracks _ (sr_chunk _ R)). lia. }
  pose proof (same_chunk_ready s st (sr_chunk _ R) Hst) as Rst.
  assert (Efields : mQuality st = mQuality s /\ mEnabledTracks st = mEnabledTracks s
                    /\ mSampleRate st = mSampleRate s).
  { destruct Hst as (-> & _). repeat split. }
  destruct Efields as (Eq & Een & Er).
  unfold load_channel in E.
  apply tbind_Ok in E as (t1 & [sp st1] & t2 & E1 & E2 & ->).
  assert (t1 = []) as -> by (unfold lift in E1; inversion E1; reflexivity).
  apply lift_Ok in E1. inversion E1 as [E1']. clear E1.
  destruct (line_room s (sr_chunk _ R) n Hn) as (_ & _ & _ & Hsize).
  destruct (prepareTrack_cases ndebug s i n (sr_chunk _ R) Ht Hn)
    as [(En & Q & _) | (mem & Es & L & B & _)].
  { exfalso.
    destruct (prepareTrack_cases ndebug st i n Rst Ht Hn)
      as [(_ & _ & F) | (? & _ & _ & _ & _ & S & _)]; [congruence |].
    rewrite Een, Eq in S. destruct (S En) as [C _]. contradiction. }
  destruct (prepareTrack_same_chunk ndebug s st i n _ _ (sr_chunk _ R) Hst Ht Hn Es)
    as (_ & s2' & E3 & Hbytes & Hsame).
  rewrite E3 in E1'. inversion E1'; subst sp st1; clear E1'.
  unfold tbind, lift, emit, tret in E2.
  destruct (FormatFromQuality (mQuality s2')) as [format | ?] eqn:Ef;
    [| discriminate E2].
  inversion E2; subst t2 st'. clear E2.
  assert (Eq2 : mQuality s2' = mQuality s /\ mSampleRate s2' = mSampleRate s).
  { destruct Hsame as (-> & _). split; reflexivity. }
  destruct Eq2 as [Eq2 Er2]. rewrite Eq2 in Ef. rewrite Er2.
  split; [exact Hsame |]. exists format. split; [exact Ef |].
  cbn [fst snd app]. rewrite ?app_nil_r.
  unfold track_samples. rewrite Es, Hbytes. cbn [app].
  assert (Hz : Z.of_nat (Z.to_nat (Z.min (mSampleRate s) n)
                         * Z.to_nat (BytesFromQuality (mQuality s)))
               = Z.min (mSampleRate s) n * BytesFromQuality (mQuality s)).
  { rewrite <- Hsize, Z2Nat.id; [reflexivity |].
    pose proof (ready_rate _ (sr_chunk _ R)).
    pose proof (BytesFromQuality_range (mQuality s)). nia. }
  rewrite Hz. reflexivity.
Qed.

Lemma positions_loop_silent ndebug shift last n m s tr s' :
  for_loop m (fun i st => load_positions ndebug shift last n i st) s = (tr, Ok s') ->
  tr = [].
Proof.
  intros E. unfold for_loop in E.
  destruct (for_each_trace (fun _ => True) (fun _ => [])
              (fun i st => load_positions ndebug shift last n i st)
              (seq 0 m) s tr s') as [-> _]; [| exact I | exact E |].
  - intros i st t st' _ _ Eb. unfold load_positions, lift in Eb.
    inversion Eb. split; [reflexivity | exact I].
  - apply concat_map_nil.
Qed.

Lemma set_nth_same {A} i (v : A) l :
  (i < length l)%nat -> nth_error (set_nth i v l) i = Some v.
Proof.
  intros H. unfold set_nth.
  rewrite nth_error_app2 by (rewrite length_firstn; lia).
  rewrite length_firstn. replace (i - Nat.min i (length l))%nat with 0%nat by lia.
  reflexivity.
Qed.

Lemma set_nth_other {A} i j (v : A) l :
  j <> i -> (i < length l)%nat -> nth_error (set_nth i v l) j = nth_error l j.
Proof.
  intros Hj Hi. unfold set_nth.
  destruct (Nat.lt_ge_cases j i) as [Hlt | Hge].
  - rewrite nth_error_app1 by (rewrite length_firstn; lia).
    rewrite nth_error_firstn. destruct (Nat.ltb_spec j i); [reflexivity | lia].
  - rewrite nth_error_app2 by (rewrite length_firstn; lia).
    rewrite length_firstn. replace (j - Nat.min i (length l))%nat with (S (j - S i)) by lia.
    cbn [nth_error]. rewrite nth_error_skipn. f_equal. lia.
Qed.

(** X16: the window of a position track slides by one second with every
    refill: when the loop has loaded position track [i] of a new chunk
    (lines 577-582), the first second of its window is what the second one
    was, and the second one is the result of [convertPositions] on it with
    the samples of track [channels + i] of the chunk; the windows of the
    other position tracks are as they were. *)
Theorem load_positions_slides_window (ndebug : bool) (n : Z) (i : nat)
    (s : LafStream) (w : list spec_float) (tr : list sink_call) (s' : LafStream) :
  stream_ready s -> 0 <= n -> nth_error (mPosTracks s) i = Some w ->
  load_positions ndebug true true n i s = (tr, Ok s') ->
  let R := Z.to_nat (mSampleRate s) in
  exists w',
    nth_error (mPosTracks s') i = Some w' /\
    length w' = (2 * R)%nat /\
    firstn R w' = skipn R w /\
    convertPositions (mQuality s) (skipn R w)
      (track_samples ndebug s (length (mChannels s) + i) n)
    = Ok (skipn R w') /\
    forall j, j <> i -> nth_error (mPosTracks s') j = nth_error (mPosTracks s) j.
Proof.
  intros Rd Hn Nth E R.
  assert (Hi : (i < length (mPosTracks s))%nat) by (apply nth_error_Some; congruence).
  pose proof (sr_windows _ Rd) as W. rewrite Forall_forall in W.
  pose proof (W w (nth_error_In _ _ Nth)) as Hlen.
  pose proof (ready_rate _ (sr_chunk _ Rd)) as HR.
  assert (Hlen2 : length w = (R + R)%nat) by (rewrite Hlen; unfold R; lia).
  unfold load_positions in E. apply lift_Ok in E. rewrite Nth in E.
  apply bind_Ok in E as (? & _ & E).
  apply bind_Ok in E as ([positions s1] & E1 & E).
  apply bind_Ok in E as (dst & Ec & E). inversion E; subst s'; clear E.
  assert (Ht : (length (mChannels s) + i < 256)%nat).
  { pose proof (sr_split _ Rd). pose proof (ready_tracks _ (sr_chunk _ Rd)). lia. }
  destruct (prepareTrack_stream_ready _ _ _ _ _ _ Rd Ht Hn E1) as (_ & S1 & P1).
  destruct S1 as (Sq & _).
  fold R in Ec |- *.
  assert (Eblit : blit 0 (skipn R w) w = skipn R w ++ skipn R w).
  { unfold blit. cbn [firstn app Nat.add]. rewrite length_skipn.
    replace (length w - R)%nat with R by lia. reflexivity. }
  rewrite Eblit in *.
  assert (Eoff : (length (skipn R w ++ skipn R w) - R = R)%nat).
  { rewrite length_app, length_skipn. lia. }
  rewrite Eoff in *.
  assert (Eslice : slice R R (skipn R w ++ skipn R w) = skipn R w).
  { unfold slice. rewrite skipn_app, length_skipn.
    replace (R - (length w - R))%nat with 0%nat by lia.
    rewrite skipn_all2 by (rewrite length_skipn; lia).
    cbn [app skipn]. apply firstn_all2. rewrite length_skipn. lia. }
  rewrite Eslice in Ec.
  pose proof (convertPositions_length _ _ _ _ Ec) as Hdst.
  rewrite length_skipn in Hdst.
  assert (Enew : blit R dst (skipn R w ++ skipn R w) = skipn R w ++ dst).
  { unfold blit. rewrite firstn_app, length_skipn.
    replace (R - (length w - R))%nat with 0%nat by lia.
    rewrite firstn_all2 by (rewrite length_skipn; lia).
    cbn [firstn]. rewrite app_nil_r.
    rewrite (@skipn_all2 _ (R + length dst) (skipn R w ++ skipn R w))
      by (rewrite length_app, !length_skipn; lia).
    rewrite app_nil_r. reflexivity. }
  rewrite Enew. cbn [set_postracks mPosTracks].
  exists (skipn R w ++ dst).
  split; [apply set_nth_same; rewrite P1; exact Hi |].
  split; [rewrite length_app, length_skipn; lia |].
  split.
  { rewrite firstn_app, length_skipn.
    replace (R - (length w - R))%nat with 0%nat by lia.
    rewrite firstn_all2 by (rewrite length_skipn; lia).
    cbn [firstn]. apply app_nil_r. }
  split.
  { rewrite skipn_app, length_skipn.
    replace (R - (length w - R))%nat with 0%nat by lia.
    rewrite (@skipn_all2 _ R (skipn R w)) by (rewrite length_skipn; lia).
    cbn [app skipn]. unfold track_samples. rewrite E1, <- Sq. exact Ec. }
  intros j Hj. rewrite set_nth_other by (rewrite ?P1; assumption).
  rewrite P1. reflexivity.
Qed.

(** X16, witness: the window of the position track of [objects_file] after
    its first chunk. *)
Lemma load_positions_slides_window_witness :
  exists s' w',
    nth_error (mPosTracks s') 0 = Some w' /\
    firstn (Z.to_nat (mSampleRate objects_first_chunk)) w'
    = skipn (Z.to_nat (mSampleRate objects_first_chunk)) (empty_window 48).
Proof.
  assert (E : exists tr s',
            load_positions false true true 48 0 objects_first_chunk = (tr, Ok s'))
    by (vm_compute; eexists; eexists; reflexivity).
  destruct E as (tr & s' & E).
  assert (E0 : readChunk (stream_of objects_file) = Ok (48, objects_first_chunk))
    by (vm_compute; reflexivity).
  assert (R : stream_ready objects_first_chunk).
  { refine (proj1 (readChunk_stream_ready _ _ _ _ E0)).
    apply (loaded_stream_ready false objects_file). apply (LoadLAF_Ok false plenty).
    vm_compute. reflexivity. }
  assert (Nth : nth_error (mPosTracks objects_first_chunk) 0 = Some (empty_window 48))
    by (vm_compute; reflexivity).
  destruct (load_positions_slides_window false 48 0 objects_first_chunk
              (empty_window 48) tr s' R ltac:(lia) Nth E)
    as (w' & Hn & _ & Hf & _).
  exists s', w'. split; [exact Hn | exact Hf].
Defined.

(** ** Converted positions *)

Lemma position_of_int8_range b :
  isfinite (position_of_int8 b) = true /\
  SFleb (float_div (float_of_int (-128)) (float_of_int 127)) (position_of_int8 b) = true /\
  SFleb (position_of_int8 b) (float_of_int 1) = true.
Proof. destruct b; vm_compute; repeat split; reflexivity. Qed.

(** X17: for 8-bit streams [convertPositions] stores, for every source
    byte, the float of its signed value divided by 127 at the same index of
    the destination: the stored values are finite and lie between
    -128/127 and 1 (lines 286-289). *)
Theorem convertPositions_int8_range (dst : list spec_float) (src : list byte)
    (out : list spec_float) (k : nat) :
  convertPositions s8 dst src = Ok out -> (k < length src)%nat ->
  nth k out S754_nan
  = float_div (float_of_int (char_to_int (nth k src Byte.x00))) (float_of_int 127) /\
  isfinite (nth k out S754_nan) = true /\
  SFleb (float_div (float_of_int (-128)) (float_of_int 127)) (nth k out S754_nan) = true /\
  SFleb (nth k out S754_nan) (float_of_int 1) = true.
Proof.
  intros E Hk. cbn [convertPositions] in E. unfold store_floats in E.
  destruct (Nat.leb_spec (length (map (fun b => float_div (float_of_int (char_to_int b))
                                                  (float_of_int 127)) src))
                         (length dst)); [| discriminate].
  inversion E; subst out; clear E.
  rewrite app_nth1 by (rewrite length_map; exact Hk).
  rewrite (nth_indep _ S754_nan (position_of_int8 Byte.x00))
    by (rewrite length_map; exact Hk).
  change (fun b => float_div (float_of_int (char_to_int b)) (float_of_int 127))
    with position_of_int8.
  rewrite (map_nth position_of_int8).
  split; [reflexivity |]. apply position_of_int8_range.
Qed.

(** X17, witness: the bytes 0x7f, 0x81 and 0x80 become 1.0, -1.0 and the
    float next to -128/127. *)
Lemma convertPositions_int8_range_witness :
  exists out,
    convertPositions s8 (repeat (S754_zero false) 4) [Byte.x7f; Byte.x81; Byte.x80]
    = Ok out /\
    nth 0 out S754_nan = S754_finite false 8388608 (-23) /\
    nth 1 out S754_nan = S754_finite true 8388608 (-23) /\
    isfinite (nth 2 out S754_nan) = true.
Proof.
  assert (E : exists out,
            convertPositions s8 (repeat (S754_zero false) 4)
                             [Byte.x7f; Byte.x81; Byte.x80] = Ok out)
    by (vm_compute; eexists; reflexivity).
  destruct E as [out E]. exists out. split; [exact E |].
  destruct (convertPositions_int8_range _ _ out 0 E ltac:(cbn; lia)) as (H0 & _).
  destruct (convertPositions_int8_range _ _ out 1 E ltac:(cbn; lia)) as (H1 & _).
  destruct (convertPositions_int8_range _ _ out 2 E ltac:(cbn; lia)) as (_ & H2 & _).
  split; [rewrite H0; vm_compute; reflexivity |].
  split; [rewrite H1; vm_compute; reflexivity | exact H2].
Defined.

(** ** From the file to the sink *)

(** X18: the samples the loop prepares for an enabled track are the
    samples of the file: when [readChunk] has returned with the input still
    good and the samples are not 24-bit, sample [k] of track [t], as
    [prepareTrack] returns it for the frames of the chunk, is the sample of
    the file that lies [k] frames and as many samples as there are enabled
    tracks below [t] behind the bitmap of the chunk
    (lines 261-280, 310-369). *)
Theorem prepared_samples_from_file (ndebug : bool) (s : LafStream) (n : Z)
    (s1 : LafStream) (t k : nat) :
  chunk_ready s -> readChunk s = Ok (n, s1) -> good (mInFile s1) = true ->
  (t < 256)%nat -> track_enabled (mEnabledTracks s1) t = true ->
  mQuality s <> s24 -> (k < Z.to_nat n)%nat ->
  let B := Z.to_nat (BytesFromQuality (mQuality s)) in
  let nb := Z.to_nat ((mNumTracks s + 7) / 8) in
  let E := Z.to_nat (mNumEnabled s1) in
  slice (k * B) B (track_samples ndebug s1 t n)
  = slice (nb + (k * E + rank (mEnabledTracks s1) t) * B) B
          (remaining (mInFile s)).
Proof.
  intros R E1 G Ht En Q Hk B nb E.
  pose proof (readChunk_chunk_ready _ _ _ R E1) as R1.
  pose proof (readChunk_nonneg _ _ _ R E1) as Hn.
  destruct (readChunk_consumes s n s1 R E1 G) as (_ & _ & Hchunk & _ & _).
  assert (Hle : n <= mSampleRate s).
  { pose proof (ready_rate _ R).
    destruct (readChunk_Ok _ _ _ E1) as (_ & -> & _).
    assert (0 <= u64 (mSampleCount s - mCurrentSample s))
      by (apply Z.mod_pos_bound; lia).
    unfold u32. rewrite Z.mod_small by lia. lia. }
  destruct (readChunk_Ok _ _ _ E1) as (S & _).
  destruct S as (Sq & _ & Sr & _).
  destruct (line_room s1 R1 n Hn) as (_ & _ & _ & Hsize).
  destruct (prepareTrack_cases ndebug s1 t n R1 Ht Hn)
    as [(_ & Q1 & _) | (mem & Es & L & Bd & _ & S2 & _)]; [congruence |].
  destruct (S2 En) as [_ Hs].
  rewrite Sq, Sr, Z.min_r in * by lia. fold B in Hs, Es, Bd, Hsize. fold E in Hs.
  unfold track_samples. rewrite Es. unfold span_bytes.
  cbn [fst snd set_chunk mSampleChunk].
  assert (Hkn : (k * B + B <= Z.to_nat n * B)%nat).
  { replace (k * B + B)%nat with ((k + 1) * B)%nat by lia.
    apply Nat.mul_le_mono_r. lia. }
  rewrite span_sample by exact Hkn.
  rewrite Hs by exact Hk.
  pose proof (rank_enabled_lt _ _ 256 En Ht) as Hlt.
  assert (Hrank : Z.of_nat (rank (mEnabledTracks s1) 256) = mNumEnabled s1).
  { rewrite (ready_enabled _ R1). apply rank_total. apply (ready_bitmap _ R1). }
  assert (Hr : (rank (mEnabledTracks s1) t < E)%nat) by (unfold E; lia).
  set (rk := rank (mEnabledTracks s1) t) in *.
  set (len := Z.to_nat (mSampleRate s * BytesFromQuality (mQuality s) * mNumEnabled s1)) in *.
  assert (Hlen : len = (Z.to_nat (mSampleRate s) * B * E)%nat).
  { unfold len, B, E. pose proof (ready_rate _ R).
    pose proof (BytesFromQuality_range (mQuality s)).
    pose proof (ready_enabled_le _ R1). pose proof (ready_tracks _ R1).
    assert (0 <= mNumEnabled s1).
    { rewrite (ready_enabled _ R1), count_enabled_bits
        by (rewrite (ready_bitmap _ R1); lia). lia. }
    rewrite !Z2Nat.inj_mul by nia. reflexivity. }
  assert (Hin : ((k * E + rk) * B + B <= len)%nat).
  { rewrite Hlen.
    replace ((k * E + rk) * B + B)%nat with ((k * E + rk + 1) * B)%nat by lia.
    replace (Z.to_nat (mSampleRate s) * B * E)%nat
      with (Z.to_nat (mSampleRate s) * E * B)%nat by lia.
    apply Nat.mul_le_mono_r.
    transitivity ((k + 1) * E)%nat; [lia |].
    apply Nat.mul_le_mono_r. lia. }
  transitivity (slice ((k * E + rk) * B) B (firstn len (mSampleChunk s1))).
  - symmetry. apply (slice_of_firstn _ _ len); [exact Hin |].
    rewrite firstn_firstn, Nat.min_id. reflexivity.
  - rewrite Hchunk. fold nb. apply slice_slice. exact Hin.
Qed.

(** X18, witness: sample 5 of track 1 in the first chunk of
    [objects_file] is byte 11 of the interleaved block. *)
Lemma prepared_samples_from_file_witness :
  slice 5 1 (track_samples false objects_first_chunk 1 48)
  = [byte.of_Z 11].
Proof.
  assert (E0 : readChunk (stream_of objects_file) = Ok (48, objects_first_chunk))
    by (vm_compute; reflexivity).
  assert (R : chunk_ready (stream_of objects_file))
    by (constructor; decide_by_computation).
  assert (G : good (mInFile objects_first_chunk) = true) by (vm_compute; reflexivity).
  assert (En : track_enabled (mEnabledTracks objects_first_chunk) 1 = true)
    by (vm_compute; reflexivity).
  assert (Q : mQuality (stream_of objects_file) <> s24) by (vm_compute; discriminate).
  assert (EB : Z.to_nat (BytesFromQuality (mQuality (stream_of objects_file))) = 1%nat)
    by (vm_compute; reflexivity).
  assert (Enb : Z.to_nat ((mNumTracks (stream_of objects_file) + 7) / 8) = 1%nat)
    by (vm_compute; reflexivity).
  assert (EE : Z.to_nat (mNumEnabled objects_first_chunk) = 2%nat)
    by (vm_compute; reflexivity).
  assert (Erk : rank (mEnabledTracks objects_first_chunk) 1 = 1%nat)
    by (vm_compute; reflexivity).
  assert (Esl : slice (1 + (5 * 2 + 1) * 1) 1 (remaining (mInFile (stream_of objects_file)))
                = [byte.of_Z 11]) by (vm_compute; reflexivity).
  pose proof (prepared_samples_from_file false (stream_of objects_file) 48
                objects_first_chunk 1 5 R E0 G ltac:(lia) En Q ltac:(lia)) as H.
  cbv zeta in H. rewrite EB, Enb, EE, Erk, Esl in H. exact H.
Defined.

(** ** The first iteration *)

Lemma same_source_refl s : same_source s s.
Proof. unfold same_source. repeat split. Qed.

Lemma same_source_sym s st : same_source s st -> same_source st s.
Proof.
  unfold same_source. intros (A1 & A2 & A3 & A4 & A5 & A6 & A7 & A8 & A9 & A10 & A11 & A12 & A13).
  rewrite A10. repeat split; congruence.
Qed.

Lemma same_source_trans s1 s2 s3 :
  same_source s1 s2 -> same_source s2 s3 -> same_source s1 s3.
Proof.
  unfold same_source.
  intros (A1 & A2 & A3 & A4 & A5 & A6 & A7 & A8 & A9 & A10 & A11 & A12 & A13)
         (B1 & B2 & B3 & B4 & B5 & B6 & B7 & B8 & B9 & B10 & B11 & B12 & B13).
  rewrite A10 in B13. repeat split; congruence.
Qed.

Lemma same_chunk_source s st : same_chunk s st -> same_source s st.
Proof.
  intros (E & L & F). rewrite E. unfold same_source.
  cbn [set_chunk mInFile mQuality mMode mSampleRate mSampleCount mNumTracks
       mCurrentSample mEnabledTracks mNumEnabled mSampleLine mChannels mSampleChunk].
  repeat split; assumption.
Qed.

Lemma same_source_chunk s st :
  same_source s st -> same_chunk (set_postracks s (mPosTracks st)) st.
Proof.
  unfold same_source, same_chunk.
  intros (A1 & A2 & A3 & A4 & A5 & A6 & A7 & A8 & A9 & A10 & A11 & A12 & A13).
  cbn [set_postracks set_chunk mSampleChunk mSampleLine].
  split; [| split; assumption].
  destruct st; cbn in *. subst. reflexivity.
Qed.

Lemma prepareTrack_set_postracks ndebug s pos t c :
  prepareTrack ndebug (set_postracks s pos) t c
  = match prepareTrack ndebug s t c with
    | Ok (sp, s') => Ok (sp, set_postracks s' pos)
    | Fail f => Fail f
    end.
Proof.
  unfold prepareTrack.
  cbn [set_postracks mSampleRate mSampleLine mEnabledTracks mQuality mNumEnabled
       mSampleChunk].
  destruct (mSampleLine s) as [lineoff linesize].
  destruct (nth_error (mEnabledTracks s) _) as [b|]; [| reflexivity].
  match goal with
  | |- bind ?m _ = match bind ?m _ with _ => _ end => destruct m as [mem | f]
  end; [| reflexivity].
  cbn [bind].
  destruct (Nat.leb _ linesize); reflexivity.
Qed.

Lemma track_samples_set_postracks ndebug s pos t c :
  track_samples ndebug (set_postracks s pos) t c = track_samples ndebug s t c.
Proof.
  unfold track_samples. rewrite prepareTrack_set_postracks.
  destruct (prepareTrack ndebug s (Z.of_nat t) c) as [[sp s'] | f]; reflexivity.
Qed.

Lemma set_postracks_chunk_ready s pos : chunk_ready s -> chunk_ready (set_postracks s pos).
Proof. intros [C1 C2 C3 C4 C5 C6 C7]. constructor; cbn; auto. Qed.

Lemma same_source_ready s st : chunk_ready s -> same_source s st -> chunk_ready st.
Proof.
  intros R S. apply (same_chunk_ready (set_postracks s (mPosTracks st))).
  - apply set_postracks_chunk_ready. exact R.
  - apply same_source_chunk. exact S.
Qed.

Lemma track_samples_same_chunk ndebug s st t c :
  chunk_ready s -> same_chunk s st -> (t < 256)%nat -> 0 <= c ->
  track_samples ndebug st t c = track_samples ndebug s t c.
Proof.
  intros R Hst Ht Hc. unfold track_samples.
  pose proof (same_chunk_ready s st R Hst) as Rst.
  destruct (prepareTrack ndebug s (Z.of_nat t) c) as [[sp s2] | f] eqn:Es.
  - destruct (prepareTrack_same_chunk ndebug s st t c sp s2 R Hst Ht Hc Es)
      as (_ & s2' & -> & H & _). exact H.
  - destruct (prepareTrack_cases ndebug s t c R Ht Hc)
      as [(En & Q & _) | (? & Es' & _)]; [| congruence].
    destruct (prepareTrack_cases ndebug st t c Rst Ht Hc)
      as [(_ & _ & ->) | (? & _ & _ & _ & _ & S & _)]; [reflexivity |].
    destruct Hst as (E & _). rewrite E in S.
    cbn [set_chunk mEnabledTracks mQuality] in S.
    destruct (S En) as [C _]. contradiction.
Qed.

Lemma track_samples_same_source ndebug s st t c :
  chunk_ready s -> same_source s st -> (t < 256)%nat -> 0 <= c ->
  track_samples ndebug st t c = track_samples ndebug s t c.
Proof.
  intros R S Ht Hc.
  rewrite (track_samples_same_chunk ndebug (set_postracks s (mPosTracks st)) st t c).
  - apply track_samples_set_postracks.
  - apply set_postracks_chunk_ready. exact R.
  - apply same_source_chunk. exact S.
  - exact Ht.
  - exact Hc.
Qed.

Lemma overwrite_firstn (got l l' : list byte) m :
  length l' = length l -> firstn m l' = firstn m l ->
  firstn m (overwrite got l') = firstn m (overwrite got l).
Proof.
  intros L F. unfold overwrite. rewrite !firstn_app. f_equal.
  rewrite <- !skipn_firstn_comm. rewrite F. reflexivity.
Qed.

Lemma readChunk_same_source s st n s1 :
  same_source s st -> readChunk s = Ok (n, s1) ->
  exists st1,
    readChunk st = Ok (n, st1) /\ same_source s1 st1 /\
    mPosTracks st1 = mPosTracks st.
Proof.
  unfold same_source.
  intros (A1 & A2 & A3 & A4 & A5 & A6 & A7 & A8 & A9 & A10 & A11 & A12 & A13).
  unfold readChunk. rewrite A1, A2, A4, A5, A6, A7, A12.
  destruct (ifstream_read (mInFile s) _) as [got f1].
  intros H. apply bind_Ok in H as (? & L1 & H). rewrite L1. cbn [bind].
  destruct (nth_error _ _) as [b|]; [| discriminate].
  apply bind_Ok in H as (? & A & H). rewrite A. cbn [bind].
  destruct (ifstream_read f1 _) as [got2 f2].
  apply bind_Ok in H as (? & L2 & H). rewrite L2. cbn [bind].
  inversion H; subst; clear H.
  eexists. split; [reflexivity |].
  cbn [mInFile mQuality mMode mSampleRate mSampleCount mNumTracks mCurrentSample
       mEnabledTracks mNumEnabled mSampleLine mChannels mSampleChunk mPosTracks].
  repeat split; try assumption; try reflexivity.
  - unfold overwrite. rewrite !length_app, !length_skipn. lia.
  - apply overwrite_firstn; assumption.
Qed.

Lemma load_positions_same_source ndebug shift last n i st tr st' :
  stream_ready st -> 0 <= n -> (i < length (mPosTracks st))%nat ->
  load_positions ndebug shift last n i st = (tr, Ok st') ->
  same_source st st'.
Proof.
  intros R Hn Hi E. unfold load_positions in E. apply lift_Ok in E.
  destruct (nth_error (mPosTracks st) i) as [track|]; [| discriminate].
  apply bind_Ok in E as (? & _ & E).
  apply bind_Ok in E as ([positions s1] & E1 & E).
  apply bind_Ok in E as (dst & _ & E). inversion E; subst st'; clear E.
  assert (Ht : (length (mChannels st) + i < 256)%nat).
  { pose proof (sr_split _ R). pose proof (ready_tracks _ (sr_chunk _ R)). lia. }
  destruct (prepareTrack_same_chunk ndebug st st _ n _ _ (sr_chunk _ R)
              (same_chunk_refl st) Ht Hn E1) as (S1 & _).
  apply same_chunk_source in S1. unfold same_source in *.
  cbn [set_postracks mInFile mQuality mMode mSampleRate mSampleCount mNumTracks
       mCurrentSample mEnabledTracks mNumEnabled mSampleLine mChannels mSampleChunk].
  exact S1.
Qed.

Lemma positions_loop_same_source ndebug shift last n s tr s' :
  stream_ready s -> 0 <= n ->
  for_loop (length (mPosTracks s))
    (fun i st => load_positions ndebug shift last n i st) s = (tr, Ok s') ->
  same_source s s'.
Proof.
  intros R Hn E. unfold for_loop in E.
  refine (proj2 (proj2 (for_each_invariant
            (fun st => stream_ready st /\ same_shape s st /\ same_source s st)
            _ _ s tr s' _ _ E))).
  - intros i st t st' Hi (Rst & Sst & Src) Eb. apply in_seq in Hi.
    assert (Hi' : (i < length (mPosTracks st))%nat).
    { destruct Sst as (_ & _ & _ & _ & ->). lia. }
    destruct (load_positions_stream_ready _ _ _ _ _ _ _ _ Rst Hn Hi' Eb) as [R' S'].
    split; [exact R' |]. split; [apply (same_shape_trans _ st); assumption |].
    apply (same_source_trans _ st); [exact Src |].
    apply (load_positions_same_source _ _ _ _ _ _ _ _ Rst Hn Hi' Eb).
  - split; [exact R |]. split; [apply same_shape_refl | apply same_source_refl].
Qed.

Lemma channels_loop_trace ndebug n format buf before after s tr s' :
  stream_ready s -> 0 <= n -> FormatFromQuality (mQuality s) = Ok format ->
  for_loop (length (mChannels s))
    (fun i st => load_channel ndebug n (buf i) (before i) (after i) i st) s
  = (tr, Ok s') ->
  same_chunk s s' /\
  tr = concat (map (fun i =>
                      before i
                      ++ [alBufferData (buf i) format (track_samples ndebug s i n)
                            (ALsizei (Z.min (mSampleRate s) n
                                      * BytesFromQuality (mQuality s)))
                            (ALsizei (mSampleRate s))]
                      ++ after i)
                   (seq 0 (length (mChannels s)))).
Proof.
  intros R Hn Ef E. unfold for_loop in E.
  destruct (for_each_trace (same_chunk s)
              (fun i =>
                 before i
                 ++ [alBufferData (buf i) format (track_samples ndebug s i n)
                       (ALsizei (Z.min (mSampleRate s) n
                                 * BytesFromQuality (mQuality s)))
                       (ALsizei (mSampleRate s))]
                 ++ after i)
              (fun i st => load_channel ndebug n (buf i) (before i) (after i) i st)
              (seq 0 (length (mChannels s))) s tr s') as [Htr Hs];
    [| apply same_chunk_refl | exact E | split; assumption].
  intros i st t st' Hi Hst Eb. apply in_seq in Hi.
  assert (Hi' : (i < length (mChannels s))%nat) by lia.
  destruct (load_channel_trace _ _ _ _ _ _ _ _ _ _ R Hst Hi' Hn Eb)
    as (Hst' & format' & Ef' & ->).
  split; [| exact Hst'].
  assert (format' = format) as -> by congruence. reflexivity.
Qed.

Lemma readChunk_le_rate s n s1 :
  chunk_ready s -> readChunk s = Ok (n, s1) -> 0 <= n <= mSampleRate s.
Proof.
  intros R E. pose proof (ready_rate _ R).
  destruct (readChunk_Ok _ _ _ E) as (_ & -> & _).
  assert (0 <= u64 (mSampleCount s - mCurrentSample s))
    by (apply Z.mod_pos_bound; lia).
  unfold u32. rewrite Z.mod_small by lia. lia.
Qed.

Lemma initial_positions_calls s tr :
  for_loop (length (mChannels s)) (fun i _ => initial_position s i) tt = (tr, Ok tt) ->
  forallb is_position_call tr = true.
Proof.
  unfold for_loop. generalize (seq 0 (length (mChannels s))). intros idxs.
  revert tr. induction idxs as [|i idxs IH]; intros tr E; cbn [for_each] in E.
  - inversion E. reflexivity.
  - apply tbind_Ok in E as (t1 & [] & t2 & E1 & E2 & ->).
    rewrite forallb_app, (IH _ E2), andb_true_r.
    unfold initial_position, update_position in E1.
    apply tbind_Ok in E1 as (ta & x & tb & Ea & E1 & ->).
    apply tbind_Ok in E1 as (tc & y & td & Ec & E1 & ->).
    apply tbind_Ok in E1 as (te & z & tf & Ee & E1 & ->).
    unfold lift in Ea, Ec, Ee. inversion Ea; inversion Ec; inversion Ee; subst.
    unfold emit in E1. inversion E1; subst. reflexivity.
Qed.

(** X15: an iteration of the playback loop that observes AL_PLAYING or
    AL_PAUSED with a processed buffer, and returns, has read one chunk and
    handed it to the sink channel by channel and in channel order: after the
    position updates, every channel has its processed buffer unqueued,
    filled and queued again, and the buffer of channel [i] receives the
    samples of track [i] of the chunk just read; the size and the
    frequency it is given are the byte count of these samples and the
    sample rate of the stream, each converted to the 32-bit signed
    [ALsizei]; no other call is made, and apart from the mono line and the
    position windows the stream is left as [readChunk] left it
    (lines 563-584). *)
Theorem tick_refills_every_source (ndebug : bool) (s : LafStream)
    (obs : observation) (tr : list sink_call) (s' : LafStream) (continue : bool) :
  stream_ready s -> state obs = AL_PLAYING \/ state obs = AL_PAUSED ->
  0 < processed obs ->
  tick ndebug s obs = (tr, Ok (s', continue)) ->
  exists n s1 format,
    readChunk s = Ok (n, s1) /\ same_source s1 s' /\
    FormatFromQuality (mQuality s) = Ok format /\
    tr = fst (update_positions s (offset obs))
         ++ concat (map (refill_calls format (fun i => track_samples ndebug s1 i n)
                           (ALsizei (n * BytesFromQuality (mQuality s)))
                           (ALsizei (mSampleRate s)))
                        (seq 0 (length (mChannels s)))).
Proof.
  intros R St Hp E. unfold tick in E.
  destruct (mChannels s) as [|ch chs] eqn:Ech; [discriminate |].
  assert (Ep : exists tp,
            tick_playing ndebug s obs = (tp, Ok s') /\ tr = tp).
  { destruct St as [St | St]; rewrite St in E;
      apply tbind_Ok in E as (tp & s0 & t2 & E1 & E2 & ->);
      inversion E2; subst; exists tp; rewrite app_nil_r; auto. }
  destruct Ep as (tp & Et & ->). clear E. unfold tick_playing in Et.
  apply tbind_Ok in Et as (t0 & [] & t1 & Eu & Et & ->).
  destruct (Z.ltb_spec 0 (processed obs)); [| lia].
  apply tbind_Ok in Et as (tl & [n s1] & t2 & E1 & Et & ->).
  assert (tl = []) as -> by (unfold lift in E1; inversion E1; reflexivity).
  apply lift_Ok in E1.
  destruct (readChunk_stream_ready _ _ _ R E1) as (R1 & S1 & Hn).
  pose proof (readChunk_le_rate _ _ _ (sr_chunk _ R) E1) as Hle.
  destruct S1 as (Sq & Sr & _ & Sc & _).
  apply tbind_Ok in Et as (t3 & s2 & t4 & E2 & Et & ->).
  assert (Ef : exists format, FormatFromQuality (mQuality s1) = Ok format).
  { unfold for_loop in E2. rewrite Sc, Ech in E2. cbn [length seq for_each] in E2.
    apply tbind_Ok in E2 as (? & ? & ? & Eb & _).
    assert (H0 : (0 < length (mChannels s1))%nat) by (rewrite Sc, Ech; cbn; lia).
    destruct (load_channel_trace _ _ _ _ _ _ _ _ _ _ R1 (same_chunk_refl s1)
                H0 (proj1 Hle) Eb) as (_ & format & Ef & _).
    exists format. exact Ef. }
  destruct Ef as [format Ef].
  destruct (channels_loop_ready ndebug n Unqueued
              (fun i => [alSourceUnqueueBuffers i])
              (fun i => [alSourceQueueBuffers i [Unqueued i]])
              s1 _ s2 R1 Hn E2) as [R2 _].
  destruct (channels_loop_trace ndebug n format Unqueued
              (fun i => [alSourceUnqueueBuffers i])
              (fun i => [alSourceQueueBuffers i [Unqueued i]])
              s1 _ s2 R1 Hn Ef E2) as [C2 ->].
  pose proof (positions_loop_same_source _ _ _ _ _ _ _ R2 Hn Et) as C3.
  apply positions_loop_silent in Et. subst t4.
  exists n, s1, format. split; [exact E1 |].
  split; [apply (same_source_trans _ s2); [apply same_chunk_source; exact C2 | exact C3] |].
  split; [rewrite <- Sq; exact Ef |].
  rewrite Eu. cbn [fst]. rewrite app_nil_r. cbn [app]. f_equal.
  rewrite Sq, Sr, Sc, Ech, Z.min_r by lia. reflexivity.
Qed.

(** X15, witness: a refill on [objects_file]. *)
Lemma tick_refills_every_source_witness :
  exists tr n s1 format,
    readChunk (stream_of objects_file) = Ok (n, s1) /\
    tr = fst (update_positions (stream_of objects_file) 0)
         ++ concat (map (refill_calls format
                           (fun i => track_samples false s1 i n)
                           (ALsizei (n * BytesFromQuality
                                           (mQuality (stream_of objects_file))))
                           (ALsizei (mSampleRate (stream_of objects_file))))
                        (seq 0 (length (mChannels (stream_of objects_file))))).
Proof.
  assert (E : exists tr s',
            tick false (stream_of objects_file) (playing 1 0) = (tr, Ok (s', true)))
    by (vm_compute; eexists; eexists; reflexivity).
  destruct E as (tr & s' & E).
  assert (R : stream_ready (stream_of objects_file)).
  { apply (loaded_stream_ready false objects_file). apply (LoadLAF_Ok false plenty).
    vm_compute. reflexivity. }
  destruct (tick_refills_every_source false (stream_of objects_file) (playing 1 0)
              tr s' true R (or_introl eq_refl) eq_refl E)
    as (n & s1 & format & E1 & _ & _ & Htr).
  exists tr, n, s1, format. split; [exact E1 | exact Htr].
Defined.

(** X19: an iteration that observes AL_INITIAL, and returns, has read the
    first two chunks of the stream and handed them to the sink: first the
    first buffer of every channel is filled with the samples of its track in
    the first chunk, then the second buffer of every channel is filled with
    the samples of its track in the chunk that follows in the input, and
    both buffers are queued on the source of the channel; then the initial
    positions are set, if there are position tracks, and at last all
    sources are started together by one call.  Sizes and frequencies are
    the byte counts and the sample rate converted to the 32-bit signed
    [ALsizei].  Apart from the mono line and the position windows the
    stream is left as the second [readChunk] left it (lines 595-644). *)
Theorem tick_initial_fills_both_buffers (ndebug : bool) (s : LafStream)
    (obs : observation) (tr : list sink_call) (s' : LafStream) (continue : bool) :
  stream_ready s -> state obs = AL_INITIAL ->
  tick ndebug s obs = (tr, Ok (s', continue)) ->
  let channels := seq 0 (length (mChannels s)) in
  let B := BytesFromQuality (mQuality s) in
  exists n1 s1 n2 s2 format pos,
    readChunk s = Ok (n1, s1) /\ readChunk s1 = Ok (n2, s2) /\
    same_source s2 s' /\
    FormatFromQuality (mQuality s) = Ok format /\
    forallb is_position_call pos = true /\
    (mPosTracks s = [] -> pos = []) /\
    tr = concat (map (first_buffer_calls format
                        (fun i => track_samples ndebug s1 i n1)
                        (ALsizei (n1 * B)) (ALsizei (mSampleRate s))) channels)
         ++ concat (map (second_buffer_calls format
                           (fun i => track_samples ndebug s2 i n2)
                           (ALsizei (n2 * B)) (ALsizei (mSampleRate s))) channels)
         ++ pos ++ [alSourcePlayv channels].
Proof.
  intros R St E channels B. unfold tick in E.
  destruct (mChannels s) as [|ch chs] eqn:Ech; [discriminate |].
  rewrite St in E.
  apply tbind_Ok in E as (tp & s0 & tz & Et & E & ->).
  inversion E; subst s0 continue tz; clear E. rewrite app_nil_r.
  unfold tick_initial in Et.
  apply tbind_Ok in Et as (ta & [n1 s1] & t1 & E1 & Et & ->).
  assert (ta = []) as -> by (unfold lift in E1; inversion E1; reflexivity).
  apply lift_Ok in E1.
  destruct (readChunk_stream_ready _ _ _ R E1) as (R1 & S1 & Hn1).
  pose proof (readChunk_le_rate _ _ _ (sr_chunk _ R) E1) as Hle1.
  apply tbind_Ok in Et as (tb & s2a & t2 & E2 & Et & ->).
  assert (Ef : exists format, FormatFromQuality (mQuality s1) = Ok format).
  { destruct S1 as (_ & _ & _ & Sc & _).
    unfold for_loop in E2. rewrite Sc, Ech in E2. cbn [length seq for_each] in E2.
    apply tbind_Ok in E2 as (? & ? & ? & Eb & _).
    assert (H0 : (0 < length (mChannels s1))%nat) by (rewrite Sc, Ech; cbn; lia).
    destruct (load_channel_trace _ _ _ _ _ _ _ _ _ _ R1 (same_chunk_refl s1)
                H0 Hn1 Eb) as (_ & format & Ef & _).
    exists format. exact Ef. }
  destruct Ef as [format Ef].
  destruct (channels_loop_ready ndebug n1 (fun i => ChannelBuffer i 0)
              (fun _ => []) (fun _ => []) s1 _ s2a R1 Hn1 E2) as [R2 S2].
  destruct (channels_loop_trace ndebug n1 format (fun i => ChannelBuffer i 0)
              (fun _ => []) (fun _ => []) s1 _ s2a R1 Hn1 Ef E2) as [C2 ->].
  apply tbind_Ok in Et as (tc & s3 & t3 & E3 & Et & ->).
  destruct (positions_loop_ready _ _ _ _ _ _ _ R2 Hn1 E3) as [R3 S3].
  pose proof (positions_loop_same_source _ _ _ _ _ _ _ R2 Hn1 E3) as C3.
  apply positions_loop_silent in E3. subst tc.
  apply tbind_Ok in Et as (td & [n2 s4] & t4 & E4 & Et & ->).
  assert (td = []) as -> by (unfold lift in E4; inversion E4; reflexivity).
  apply lift_Ok in E4.
  destruct (readChunk_stream_ready _ _ _ R3 E4) as (R4 & S4 & Hn2).
  pose proof (readChunk_le_rate _ _ _ (sr_chunk _ R3) E4) as Hle2.
  assert (C13 : same_source s1 s3).
  { apply (same_source_trans _ s2a); [apply same_chunk_source; exact C2 | exact C3]. }
  destruct (readChunk_same_source s3 s1 n2 s4 (same_source_sym _ _ C13) E4)
    as (s2 & E4' & C4 & _).
  apply tbind_Ok in Et as (te & s5 & t5 & E5 & Et & ->).
  assert (Sq : mQuality s4 = mQuality s /\ mSampleRate s4 = mSampleRate s /\
               mChannels s4 = mChannels s /\
               mQuality s1 = mQuality s /\ mSampleRate s1 = mSampleRate s /\
               mChannels s1 = mChannels s /\
               length (mPosTracks s4) = length (mPosTracks s)).
  { destruct S1 as (A1 & A2 & _ & A4 & A5). destruct S2 as (B1 & B2 & _ & B4 & B5).
    destruct S3 as (C1 & C2' & _ & C4' & C5). destruct S4 as (D1 & D2 & _ & D4 & D5).
    repeat split; congruence. }
  destruct Sq as (Q4 & Rt4 & Ch4 & Q1 & Rt1 & Ch1 & P4).
  assert (Ef4 : FormatFromQuality (mQuality s4) = Ok format) by congruence.
  destruct (channels_loop_ready ndebug n2 (fun i => ChannelBuffer i 1)
              (fun _ => [])
              (fun i => [alSourceQueueBuffers i [ChannelBuffer i 0; ChannelBuffer i 1]])
              s4 _ s5 R4 Hn2 E5) as [R5 S5].
  destruct (channels_loop_trace ndebug n2 format (fun i => ChannelBuffer i 1)
              (fun _ => [])
              (fun i => [alSourceQueueBuffers i [ChannelBuffer i 0; ChannelBuffer i 1]])
              s4 _ s5 R4 Hn2 Ef4 E5) as [C5 ->].
  apply tbind_Ok in Et as (tf & s6 & t6 & E6 & Et & ->).
  destruct (positions_loop_ready _ _ _ _ _ _ _ R5 Hn2 E6) as [R6 S6].
  pose proof (positions_loop_same_source _ _ _ _ _ _ _ R5 Hn2 E6) as C6.
  apply positions_loop_silent in E6. subst tf.
  apply tbind_Ok in Et as (pos & [] & t7 & E7 & Et & ->).
  apply tbind_Ok in Et as (tg & [] & t8 & E8 & Et & ->).
  unfold emit in E8. inversion E8; subst tg. unfold tret in Et. inversion Et; subst t8 s'.
  clear E8 Et.
  assert (Sh6 : mChannels s6 = mChannels s /\
                length (mPosTracks s6) = length (mPosTracks s)).
  { destruct S5 as (_ & _ & _ & A4 & A5). destruct S6 as (_ & _ & _ & B4 & B5).
    split; congruence. }
  destruct Sh6 as [Ch6 P6].
  exists n1, s1, n2, s2, format, pos.
  split; [exact E1 |]. split; [exact E4' |].
  split.
  { apply (same_source_trans _ s4); [apply same_source_sym; exact C4 |].
    apply (same_source_trans _ s5); [apply same_chunk_source; exact C5 | exact C6]. }
  split; [rewrite <- Q1; exact Ef |].
  split.
  { destruct (mPosTracks s6); [inversion E7; reflexivity |].
    apply (initial_positions_calls s6). exact E7. }
  split.
  { intros Hp. rewrite Hp in P6. destruct (mPosTracks s6); [| discriminate].
    inversion E7. reflexivity. }
  cbn [app]. rewrite ?app_nil_r. rewrite Ch6, Ch4, Ch1, Q1, Rt1, Q4, Rt4.
  assert (Rt3 : mSampleRate s3 = mSampleRate s).
  { destruct S1 as (_ & A2 & _). destruct S2 as (_ & B2 & _).
    destruct S3 as (_ & C2' & _). congruence. }
  rewrite !Z.min_r by lia. subst channels B. rewrite Ech.
  f_equal. f_equal. f_equal.
  apply map_ext_in. intros i Hi. apply in_seq in Hi.
  unfold second_buffer_calls.
  rewrite (track_samples_same_source ndebug s4 s2 i n2 (sr_chunk _ R4) C4);
    [reflexivity | | exact Hn2].
  pose proof (sr_split _ R). pose proof (ready_tracks _ (sr_chunk _ R)).
  rewrite Ech in *. cbn [length] in *. lia.
Qed.

(** X19, witness: the first iteration on [objects_file] reads its two
    chunks. *)
Lemma tick_initial_fills_both_buffers_witness :
  exists n1 s1 n2 s2,
    readChunk (stream_of objects_file) = Ok (n1, s1) /\
    readChunk s1 = Ok (n2, s2).
Proof.
  assert (E : exists tr s',
            tick false (stream_of objects_file) initial = (tr, Ok (s', true)))
    by (vm_compute; eexists; eexists; reflexivity).
  destruct E as (tr & s' & E).
  assert (R : stream_ready (stream_of objects_file)).
  { apply (loaded_stream_ready false objects_file). apply (LoadLAF_Ok false plenty).
    vm_compute. reflexivity. }
  destruct (tick_initial_fills_both_buffers false (stream_of objects_file) initial
              tr s' true R eq_refl E)
    as (n1 & s1 & n2 & s2 & _ & _ & E1 & E2 & _).
  exists n1, s1, n2, s2. split; [exact E1 | exact E2].
Defined.

(** ** Robustness *)

(** X20: [LoadLAF] makes no access out of bounds on any input: for every
    sequence of bytes and every allocator, in a build with [assert] enabled
    or with NDEBUG, it either returns a stream that satisfies the invariant
    of the playback loop, standing at sample 0 with no track enabled, or it
    ends in an assertion, in one of its three format errors, or in
    [std::bad_alloc]; the last one only for a file that loads when memory
    is granted, and on a request the allocator refuses
    (lines 372-492). *)
Theorem LoadLAF_never_out_of_bounds (ndebug : bool) (heap : allocator)
    (c : list byte) :
  match LoadLAF ndebug heap c with
  | Ok laf =>
      stream_ready laf /\ mCurrentSample laf = 0 /\ mNumEnabled laf = 0 /\
      (length c >= 31)%nat /\ ~ refused heap laf
  | Fail f =>
      (exists line, f = Abort line) \/ (exists stype, f = Throw (InvalidQualityType stype))
      \/ (exists mode, f = Throw (InvalidMode mode))
      \/ (exists n, f = Throw (TooManyTracks n))
      \/ (f = Throw bad_alloc /\
          exists laf, LoadLAF ndebug plenty c = Ok laf /\ refused heap laf)
  end.
Proof.
  pose proof (LoadLAF_plenty ndebug heap c) as Hp.
  destruct (LoadLAF ndebug heap c) as [laf | f] eqn:E.
  - destruct (LoadLAF_file _ _ _ _ E) as (_ & _ & _ & Hl).
    apply LoadLAF_Ok in E.
    split; [apply (loaded_stream_ready _ _ _ E) |].
    split; [apply (loaded_current _ _ _ E) |].
    split; [apply (loaded_numenabled _ _ _ E) |].
    split; [destruct ndebug; lia | apply Hp].
  - destruct (LoadLAF_Fail _ _ _ _ E) as [Hf | ->].
    + destruct f as [line | [stype | mode | n | |] | line]; try discriminate Hf.
      * left. exists line. reflexivity.
      * right. left. exists stype. reflexivity.
      * right. right. left. exists mode. reflexivity.
      * right. right. right. left. exists n. reflexivity.
    + right. right. right. right. split; [reflexivity | exact Hp].
Qed.

(** [huge_rate_file] passes every check of the format; its sample buffer
    takes 8 * (2^32 - 1) bytes, and [LoadLAF] throws [std::bad_alloc] when
    the allocator does not have them. *)
Example huge_rate_file_bad_alloc :
  length huge_rate_file = 40%nat /\
  LoadLAF false one_gigabyte huge_rate_file = Fail (Throw bad_alloc).
Proof. split; vm_compute; reflexivity. Qed.

(** ** Position lookups on the streams the loop sees *)

(** The stream after any number of iterations of the playback loop on a
    loaded file is in shape, and has a channel when it has a position
    track. *)
Lemma played_stream ndebug heap c laf obss s :
  LoadLAF ndebug heap c = Ok laf ->
  snd (play_loop ndebug laf obss) = Ok s ->
  stream_ready s /\ same_shape laf s /\ (mPosTracks s <> [] -> mChannels s <> []).
Proof.
  intros E Ep. pose proof (LoadLAF_Ok _ _ _ _ E) as L.
  destruct (play_loop ndebug laf obss) as [tr r] eqn:El. cbn [snd] in Ep. subst r.
  destruct (play_loop_stream_ready _ _ _ _ _ (loaded_stream_ready _ _ _ L) El)
    as [R S].
  split; [exact R |]. split; [exact S |].
  intros Hne. destruct S as (_ & _ & _ & Sc & Sp). rewrite Sc.
  apply (loaded_first_track_audio _ _ _ L).
  pose proof (loaded_track_total _ _ _ L) as Ht.
  destruct (mPosTracks laf) as [|w ws].
  - destruct (mPosTracks s); [congruence | discriminate Sp].
  - cbn [length] in Ht. lia.
Qed.

(** C9: on a stream that [LoadLAF] returned and the playback loop has
    played for any number of iterations, at a sample rate R that is a
    positive multiple of 48, every window of position data has the 2R
    elements that line 484 allocated, and for every reported offset o with
    0 <= o < 2R (an ALint) and every channel index i the three element
    indexes ((o / 48) * 16 + i mod 16) * 3 + {0, 1, 2} that the position
    update computes are below 2R: every lookup of lines 551-553 is in
    bounds, and the position update of lines 543-561 runs through. *)
Theorem position_lookups_in_bounds (ndebug : bool) (heap : allocator)
    (c : list byte) (laf : LafStream) (obss : list observation)
    (s : LafStream) (o : Z) :
  LoadLAF ndebug heap c = Ok laf ->
  snd (play_loop ndebug laf obss) = Ok s ->
  let R := mSampleRate laf in
  0 < R -> R mod 48 = 0 -> 0 <= o < 2 * R -> o < 2 ^ 31 ->
  mSampleRate s = R /\
  Forall (fun w => length w = Z.to_nat (2 * R)) (mPosTracks s) /\
  (forall i j, 0 <= j <= 2 ->
     let e := u64 (posoffset o (Z.of_nat i) * 3 + j) in
     e = (o / 48 * 16 + Z.of_nat i mod 16) * 3 + j /\ 0 <= e < 2 * R /\
     ((i < length (mChannels s))%nat -> mPosTracks s <> [] ->
      exists v, pos_elem (551 + j) s (Z.shiftr (Z.of_nat i) 4) e = Ok v)) /\
  snd (update_positions s o) = Ok tt.
Proof.
  intros E Ep R HR H48 Ho Hint.
  destruct (played_stream _ _ _ _ _ _ E Ep) as (Rs & S & _).
  assert (Er : mSampleRate s = R) by (destruct S as (_ & Sr & _); exact Sr).
  split; [exact Er |]. split.
  { pose proof (sr_windows _ Rs) as Hw. rewrite Er in Hw.
    replace (2 * R) with (R * 2) by lia. exact Hw. }
  assert (Hin : mPosTracks s <> [] -> lookups_in_bounds s o).
  { intros Hne. apply positions_ready_in_bounds; [| rewrite Er; exact Ho | exact Hint].
    apply stream_ready_positions; [exact Rs | exact Hne | rewrite Er; exact HR]. }
  split.
  - intros i j Hj e.
    destruct (triple_index_in_window R o i j HR H48 Ho Hint Hj) as (Ee & Hb & _).
    unfold e. rewrite Ee. unfold triple_index in *.
    split; [reflexivity |]. split; [exact Hb |].
    intros Hi Hne. specialize (Hin Hne i Hi). fold (triple_index o i) in *.
    eexists. apply pos_elem_Ok. lia.
  - assert (Hc : mPosTracks s = [] \/ mPosTracks s <> []).
    { destruct (mPosTracks s); [left; reflexivity | right; discriminate]. }
    destruct Hc as [Epos | Hne].
    + unfold update_positions. rewrite Epos. reflexivity.
    + rewrite update_positions_trace; [reflexivity | exact Hne | lia |].
      apply Hin. exact Hne.
Qed.

(** C6 (amended): on a stream that [LoadLAF] returned and the playback
    loop has played for any number of iterations, every iteration that
    observes AL_PLAYING or AL_PAUSED with at least one position track, a
    positive sample rate and an offset inside the two seconds that are
    queued sets the position of every channel i from the window of its
    group at the triple index (offset / 48) * 16 + i mod 16, between a
    suspend and a process call and whatever the number of processed buffers
    is.  The offset is the AL_SAMPLE_OFFSET the sink reports, which runs
    over both queued seconds: it is not reduced to the current second. *)
Theorem tick_updates_positions (ndebug : bool) (heap : allocator)
    (c : list byte) (laf : LafStream) (obss : list observation)
    (s : LafStream) (obs : observation) :
  LoadLAF ndebug heap c = Ok laf ->
  snd (play_loop ndebug laf obss) = Ok s ->
  state obs = AL_PLAYING \/ state obs = AL_PAUSED ->
  mPosTracks s <> [] -> 0 < mSampleRate s ->
  0 <= offset obs < 2 * mSampleRate s -> offset obs < 2 ^ 31 ->
  lookups_in_bounds s (offset obs) /\
  exists rest r,
    tick ndebug s obs
    = (alcSuspendContext
         :: map (position_call s (offset obs)) (seq 0 (length (mChannels s)))
         ++ alcProcessContext :: rest, r).
Proof.
  intros E Ep St Hne HR Ho Hint.
  destruct (played_stream _ _ _ _ _ _ E Ep) as (Rs & _ & Hch).
  assert (Hin : lookups_in_bounds s (offset obs)).
  { apply positions_ready_in_bounds; [| exact Ho | exact Hint].
    apply stream_ready_positions; assumption. }
  split; [exact Hin |].
  apply tick_position_calls; [exact St | exact Hne | apply Hch; exact Hne | lia | exact Hin].
Qed.

(** C6, counterexample: at 48 Hz and the offset 50, in the second of the
    two queued seconds, the loop reads the position of channel 0 at the
    triple index 16; the offset within the current second is 2, for which
    the formula of the claim gives the triple index 0, where the window
    holds another position. *)
Lemma tick_positions_over_two_seconds :
  mSampleRate moving_stream = 48 /\ isAtEnd moving_stream = false /\
  offset_within_second 48 50 = 2 /\
  triple_index (offset_within_second 48 50) 0 = 0 /\ triple_index 50 0 = 16 /\
  tick false moving_stream (playing 0 50)
  = ([alcSuspendContext; position_call moving_stream 50 0; alcProcessContext;
      sleep_for_10ms], Ok (moving_stream, true)) /\
  position_call moving_stream 50 0 <> claimed_position_call moving_stream 50 0.
Proof.
  split; [vm_compute; reflexivity |]. split; [vm_compute; reflexivity |].
  split; [reflexivity |]. split; [reflexivity |]. split; [reflexivity |].
  split; [vm_compute; reflexivity |].
  vm_compute. discriminate.
Qed.

(** C6, witness: [moving_stream] at the offset 50 with no buffer
    processed. *)
Lemma tick_updates_positions_witness :
  exists rest r,
    tick false moving_stream (playing 0 50)
    = (alcSuspendContext
         :: map (position_call moving_stream 50) (seq 0 1)
         ++ alcProcessContext :: rest, r).
Proof.
  assert (Ech : length (mChannels moving_stream) = 1%nat)
    by (vm_compute; reflexivity).
  assert (H1 : LoadLAF false plenty moving_file = Ok (stream_of moving_file))
    by (vm_compute; reflexivity).
  assert (H2 : snd (play_loop false (stream_of moving_file) [initial])
               = Ok moving_stream) by (vm_compute; reflexivity).
  assert (H3 : mPosTracks moving_stream <> []) by (vm_compute; discriminate).
  assert (H4 : 0 < mSampleRate moving_stream) by (vm_compute; reflexivity).
  assert (H5 : 0 <= offset (playing 0 50) < 2 * mSampleRate moving_stream)
    by (vm_compute; split; [discriminate | reflexivity]).
  assert (H6 : offset (playing 0 50) < 2 ^ 31) by (vm_compute; reflexivity).
  destruct (tick_updates_positions false plenty moving_file (stream_of moving_file)
              [initial] moving_stream (playing 0 50) H1 H2 (or_introl eq_refl)
              H3 H4 H5 H6) as (_ & rest & r & E).
  exists rest, r. rewrite Ech in E. exact E.
Defined.

(** C9, witness: [moving_stream] at the offset 95, the last one of the two
    seconds. *)
Lemma position_lookups_in_bounds_witness :
  Forall (fun w => length w = 96%nat) (mPosTracks moving_stream) /\
  u64 (posoffset 95 (Z.of_nat 0) * 3 + 2) = 50 /\
  snd (update_positions moving_stream 95) = Ok tt.
Proof.
  assert (H1 : LoadLAF false plenty moving_file = Ok (stream_of moving_file))
    by (vm_compute; reflexivity).
  assert (H2 : snd (play_loop false (stream_of moving_file) [initial])
               = Ok moving_stream) by (vm_compute; reflexivity).
  assert (ER : mSampleRate (stream_of moving_file) = 48) by (vm_compute; reflexivity).
  assert (H3 : 0 < mSampleRate (stream_of moving_file)) by (rewrite ER; lia).
  assert (H4 : mSampleRate (stream_of moving_file) mod 48 = 0)
    by (rewrite ER; reflexivity).
  assert (H5 : 0 <= 95 < 2 * mSampleRate (stream_of moving_file))
    by (rewrite ER; lia).
  assert (H6 : 95 < 2 ^ 31) by lia.
  assert (Ech : (0 < length (mChannels moving_stream))%nat)
    by (vm_compute; lia).
  pose proof (position_lookups_in_bounds false plenty moving_file
                (stream_of moving_file) [initial] moving_stream 95
                H1 H2 H3 H4 H5 H6) as H.
  cbv zeta in H. rewrite ER in H. destruct H as (_ & Hw & Hi & Hu).
  split; [exact Hw |]. split; [| exact Hu].
  destruct (Hi 0%nat 2 ltac:(lia)) as (He & _). rewrite He. reflexivity.
Defined.
